(** * PacManMadrid: the GTFS preprocessor, the position engine and the clock

    A shallow embedding of the algorithmic core of the repository:
    - the preprocessing script [scripts/preprocess-gtfs.js] (function [main]):
      the joins over the GTFS tables, the frequency bands and their merge, the
      simplification of the shapes and the list of unique stops;
    - [src/GtfsMap.jsx]: [activeBuses], the precomputed [routeGeo] and the
      per-route body of [tick];
    - [src/App.jsx]: the step of the simulation clock.

    JavaScript numbers are modelled as exact rationals extended with [NaN]:
    the rounding of IEEE doubles, the infinities and the negative zero are not
    represented. On the integer second counts the programs work with, double
    arithmetic is exact. The one test whose outcome hangs on the rounding of
    doubles, that of [tick] for a stop near a vehicle, is computed on binary64
    numbers (module [Double]). Texts are the UTF-8 bytes of the JavaScript
    strings. Loops that are not bounded by the length of a list run on fuel,
    and the results about them say how much fuel is enough. *)

From Stdlib Require Import QArith Qround Qabs ZArith List String Ascii Bool Lia Lqa.
From Stdlib Require Import Permutation Sorted DecimalString.
From Stdlib Require SpecFloat.
Import ListNotations.

Open Scope Q_scope.

(** ** JavaScript values and operators *)

Module JS.

(** A JavaScript number. *)
Inductive num : Type :=
| Fin (q : Q)
| NaN.

(** What a numeric field of an object can hold: a number, [null] (which is
    what [JSON.stringify] writes for [NaN]) or nothing at all. *)
Inductive value : Type :=
| Num (n : num)
| Null
| Undefined.

(** ToNumber. *)
Definition toNumber (v : value) : num :=
  match v with
  | Num n => n
  | Null => Fin 0
  | Undefined => NaN
  end.

(** ToBoolean: [0], [NaN], [null] and [undefined] are falsy. *)
Definition truthy (v : value) : bool :=
  match v with
  | Num (Fin q) => negb (Qeq_bool q 0)
  | _ => false
  end.

Definition Qlt_bool (x y : Q) : bool := negb (Qle_bool y x).

Definition nadd (a b : num) : num :=
  match a, b with Fin x, Fin y => Fin (x + y) | _, _ => NaN end.
Definition nsub (a b : num) : num :=
  match a, b with Fin x, Fin y => Fin (x - y) | _, _ => NaN end.
Definition nmul (a b : num) : num :=
  match a, b with Fin x, Fin y => Fin (x * y) | _, _ => NaN end.
(** [x / 0] is an infinity or [NaN] in JavaScript; the infinities are not
    represented, and no division of the programs below has a zero divisor. *)
Definition ndiv (a b : num) : num :=
  match a, b with
  | Fin x, Fin y => if Qeq_bool y 0 then NaN else Fin (x / y)
  | _, _ => NaN
  end.
(** Comparisons with [NaN] are false. *)
Definition nlt (a b : num) : bool :=
  match a, b with Fin x, Fin y => Qlt_bool x y | _, _ => false end.
Definition nle (a b : num) : bool :=
  match a, b with Fin x, Fin y => Qle_bool x y | _, _ => false end.
Definition ngt (a b : num) : bool := nlt b a.
Definition isNaN (a : num) : bool :=
  match a with NaN => true | Fin _ => false end.

(** The operators on values: both operands go through ToNumber (no operand
    is a string in the code modelled here). *)
Definition add (a b : value) : value := Num (nadd (toNumber a) (toNumber b)).
Definition sub (a b : value) : value := Num (nsub (toNumber a) (toNumber b)).
Definition mul (a b : value) : value := Num (nmul (toNumber a) (toNumber b)).
Definition div (a b : value) : value := Num (ndiv (toNumber a) (toNumber b)).
Definition lt (a b : value) : bool := nlt (toNumber a) (toNumber b).
Definition le (a b : value) : bool := nle (toNumber a) (toNumber b).
Definition gt (a b : value) : bool := ngt (toNumber a) (toNumber b).

(** [a || b]. *)
Definition or (a b : value) : value := if truthy a then a else b.

Definition lit (q : Q) : value := Num (Fin q).

(** [JSON.parse (JSON.stringify v)] on a numeric field: [NaN] is written as
    [null], and a property holding [undefined] is left out. *)
Definition viaJSON (v : value) : value :=
  match v with
  | Num NaN => Null
  | _ => v
  end.

End JS.

Import JS.

(** ** More of JavaScript: [Math], sorting, objects, sets, number parsing *)

Module JSLib.

Definition nabs (a : num) : num :=
  match a with Fin x => Fin (Qabs x) | NaN => NaN end.
Definition nmin (a b : num) : num :=
  match a, b with
  | Fin x, Fin y => if Qle_bool x y then Fin x else Fin y
  | _, _ => NaN
  end.
Definition nmax (a b : num) : num :=
  match a, b with
  | Fin x, Fin y => if Qle_bool x y then Fin y else Fin x
  | _, _ => NaN
  end.
(** [Math.round]: the nearest integer, a half going up. *)
Definition nround (a : num) : num :=
  match a with Fin x => Fin (inject_Z (Qfloor (x + (1 # 2)))) | NaN => NaN end.

Definition abs (a : value) : value := Num (nabs (toNumber a)).
Definition min (a b : value) : value := Num (nmin (toNumber a) (toNumber b)).
Definition max (a b : value) : value := Num (nmax (toNumber a) (toNumber b)).
Definition round (a : value) : value := Num (nround (toNumber a)).

(** [Array.prototype.sort] with a comparator: the sort is stable, a positive
    result puts the second argument first, and a result that is 0 or [NaN]
    keeps the two in their order. (With a comparator that is not a
    consistent order the result depends on the engine; this is the result of
    an insertion sort.) *)
Section Sort.
Variable A : Type.
Variable cmp : A -> A -> value.

Fixpoint insert (x : A) (l : list A) : list A :=
  match l with
  | [] => [x]
  | y :: l' => if JS.gt (cmp x y) (lit 0) then y :: insert x l' else x :: l
  end.

Definition sort (l : list A) : list A := fold_right insert [] l.
End Sort.

(** An object used as a map, its keys in insertion order. That is the order
    of [Object.values] as long as no key is an array index, and no key built
    below is one. Keys that name a property of [Object.prototype] are not
    modelled. *)
Section Obj.
Variables K A : Type.
Variable eqb : K -> K -> bool.

Definition obj : Type := list (K * A).

Fixpoint get (o : obj) (k : K) : option A :=
  match o with
  | [] => None
  | (k', a) :: o' => if eqb k k' then Some a else get o' k
  end.

Fixpoint set (o : obj) (k : K) (a : A) : obj :=
  match o with
  | [] => [(k, a)]
  | (k', a') :: o' => if eqb k k' then (k', a) :: o' else (k', a') :: set o' k a
  end.

Definition values (o : obj) : list A := map snd o.
Definition keys (o : obj) : list K := map fst o.
End Obj.

Arguments get {K A} eqb o k.
Arguments set {K A} eqb o k a.
Arguments values {K A} o.
Arguments keys {K A} o.
Arguments insert {A} cmp x l.
Arguments sort {A} cmp l.

(** A [Set] of strings. *)
Definition has (s : list string) (x : string) : bool := existsb (String.eqb x) s.
Definition setAdd (s : list string) (x : string) : list string :=
  if has s x then s else s ++ [x].

(** *** Parsing numbers *)

Definition isSpace (c : ascii) : bool :=
  let n := nat_of_ascii c in
  ((n =? 32) || (n =? 9) || (n =? 10) || (n =? 11) || (n =? 12) || (n =? 13))%nat.

Definition digitOf (radix : Z) (c : ascii) : option Z :=
  (let n := Z.of_nat (nat_of_ascii c) in
   let d := if (48 <=? n) && (n <=? 57) then Some (n - 48)
            else if (97 <=? n) && (n <=? 122) then Some (n - 87)
            else if (65 <=? n) && (n <=? 90) then Some (n - 55)
            else None in
   match d with
   | Some v => if v <? radix then Some v else None
   | None => None
   end)%Z.

Fixpoint dropSpaces (s : string) : string :=
  match s with
  | String c s' => if isSpace c then dropSpaces s' else s
  | EmptyString => s
  end.

(** The longest run of digits at the head of [s]: its value on top of [acc],
    how many digits it has, and what follows. *)
Fixpoint digits (radix : Z) (s : string) (acc : Z) (n : nat) : Z * nat * string :=
  match s with
  | String c s' =>
      match digitOf radix c with
      | Some d => digits radix s' (acc * radix + d)%Z (S n)
      | None => (acc, n, s)
      end
  | EmptyString => (acc, n, s)
  end.

Definition signOf (s : string) : Z * string :=
  match s with
  | String "-" s' => ((-1)%Z, s')
  | String "+" s' => (1%Z, s')
  | _ => (1%Z, s)
  end.

Definition hexPrefix (s : string) : option string :=
  match s with
  | String "0" (String "x" s') => Some s'
  | String "0" (String "X" s') => Some s'
  | _ => None
  end.

(** [parseInt(s)], no radix given. *)
Definition parseInt (s : string) : num :=
  let '(sign, s1) := signOf (dropSpaces s) in
  let '(radix, s2) := match hexPrefix s1 with
                      | Some s' => (16%Z, s')
                      | None => (10%Z, s1)
                      end in
  let '(v, n, _) := digits radix s2 0%Z 0%nat in
  match n with
  | O => NaN
  | _ => Fin (inject_Z (sign * v))
  end.

(** A decimal literal at the head of [s]: sign, digits, fraction and
    exponent. The literal [Infinity] is not modelled. *)
Definition scanDecimal (s : string) : option (Q * string) :=
  let '(sign, s1) := signOf s in
  let '(ip, ni, s2) := digits 10 s1 0%Z 0%nat in
  let '(fp, nf, s3) :=
    match s2 with
    | String "." s' => digits 10 s' 0%Z 0%nat
    | _ => (0%Z, 0%nat, s2)
    end in
  match (ni + nf)%nat with
  | O => None
  | _ =>
      let mant := inject_Z ip + inject_Z fp / inject_Z (10 ^ Z.of_nat nf) in
      let '(ex, s4) :=
        match s3 with
        | String c s' =>
            if (Ascii.eqb c "e" || Ascii.eqb c "E")%bool then
              let '(esign, s'') := signOf s' in
              let '(ev, ne, s''') := digits 10 s'' 0%Z 0%nat in
              match ne with
              | O => (0%Z, s3)
              | _ => ((esign * ev)%Z, s''')
              end
            else (0%Z, s3)
        | EmptyString => (0%Z, s3)
        end in
      Some (inject_Z sign * mant * Qpower 10 ex, s4)
  end.

(** [parseFloat(s)]. *)
Definition parseFloat (s : string) : num :=
  match scanDecimal (dropSpaces s) with
  | Some (q, _) => Fin q
  | None => NaN
  end.

(** [Number(s)] on a string: the whole string, spaces at both ends apart,
    has to be a literal; the empty string is 0. *)
Definition Number (s : string) : num :=
  match dropSpaces s with
  | EmptyString => Fin 0
  | s1 =>
      match hexPrefix s1 with
      | Some s' =>
          let '(v, n, rest) := digits 16 s' 0%Z 0%nat in
          match n, dropSpaces rest with
          | S _, EmptyString => Fin (inject_Z v)
          | _, _ => NaN
          end
      | None =>
          match scanDecimal s1 with
          | Some (q, rest) =>
              match dropSpaces rest with
              | EmptyString => Fin q
              | _ => NaN
              end
          | None => NaN
          end
      end
  end.

(** [s.split(c)]. *)
Fixpoint splitOn (c : ascii) (s : string) : list string :=
  match s with
  | EmptyString => [EmptyString]
  | String c' s' =>
      if Ascii.eqb c' c then EmptyString :: splitOn c s'
      else match splitOn c s' with
           | [] => [String c' EmptyString]
           | w :: ws => String c' w :: ws
           end
  end.

End JSLib.

Import JSLib.

(** ** Doubles

    IEEE 754 binary64 numbers with rounding to the nearest, ties to even, as
    [SpecFloat] specifies them: what [-], [/], [Math.abs] and [<] of
    JavaScript compute on numbers. *)

Module Double.

Definition t : Type := SpecFloat.spec_float.

Definition prec : Z := 53.
Definition emax : Z := 1024.

Definition ofZ (z : Z) : t :=
  match z with
  | Z0 => SpecFloat.S754_zero false
  | Zpos m => SpecFloat.S754_finite false m 0
  | Zneg m => SpecFloat.S754_finite true m 0
  end.

(** The double nearest to the rational [q] (the quotient of its numerator by
    its denominator, rounded once): [q] itself when it is a double, and the
    value of a decimal literal or of a number of a JSON text. *)
Definition ofQ (q : Q) : t :=
  SpecFloat.SFdiv prec emax (ofZ (Qnum q)) (ofZ (Zpos (Qden q))).

Definition ofNum (n : num) : t :=
  match n with
  | Fin q => ofQ q
  | NaN => SpecFloat.S754_nan
  end.

(** ToNumber, as a double. *)
Definition ofValue (v : value) : t := ofNum (toNumber v).

Definition sub (a b : t) : t := SpecFloat.SFsub prec emax a b.
Definition div (a b : t) : t := SpecFloat.SFdiv prec emax a b.
Definition abs (a : t) : t := SpecFloat.SFabs a.
Definition lt (a b : t) : bool := SpecFloat.SFltb a b.

End Double.

(** ** The schedule model: the records of [emt-routes.json] *)

Definition coord : Type := (value * value)%type.   (* [lon, lat] *)

Module Band.
Record t : Type := mk
  { startSec : value; endSec : value; headway : value; tripDur : value }.
End Band.

Module Stop.
Record t : Type := mk
  { id : string; name : string; coords : coord; dist : value; arr : value }.
End Stop.

Module Shape.
Record t : Type := mk
  { shapeId : string; headsign : string; direction : value;
    coordinates : list coord; stops : list Stop.t }.
End Shape.

Module Route.
Record t : Type := mk
  { id : string; shortName : string; longName : string; color : string;
    shapes : list Shape.t; tripDuration : value;
    frequencies : option (list Band.t) }.
End Route.

(** ** The position engine ([src/GtfsMap.jsx]) *)

Module Engine.

Record bus : Type := mkBus { progress : value }.

(** The inner loop of [activeBuses]:
    [for (let dep = band.startSec; dep < band.endSec; dep += band.headway)].
    The loop is not structurally bounded, so it runs on fuel; [None] is the
    loop that has not finished when the fuel is used up. *)
Fixpoint departures (fuel : nat) (dep : value) (band : Band.t)
         (dur simTime : value) (out : list bus) : option (list bus) :=
  match fuel with
  | O => None
  | S fuel' =>
      if JS.lt dep (Band.endSec band) then
        let elapsed := JS.sub simTime dep in
        let out' :=
          if JS.lt elapsed (lit 0) || JS.gt elapsed dur then out
          else out ++ [mkBus (JS.div elapsed dur)] in
        departures fuel' (JS.add dep (Band.headway band)) band dur simTime out'
      else Some out
  end.

(** The body of [for (const band of freqs)]. *)
Definition bandStep (fuel : nat) (route : Route.t) (simTime : value)
           (band : Band.t) (out : list bus) : option (list bus) :=
  if JS.le (Band.headway band) (lit 0) then Some out
  else
    let dur := JS.or (JS.or (Band.tripDur band) (Route.tripDuration route))
                     (lit 1800) in
    departures fuel (Band.startSec band) band dur simTime out.

Fixpoint bands (fuel : nat) (route : Route.t) (simTime : value)
         (freqs : list Band.t) (out : list bus) : option (list bus) :=
  match freqs with
  | [] => Some out
  | band :: rest =>
      match bandStep fuel route simTime band out with
      | Some out' => bands fuel route simTime rest out'
      | None => None
      end
  end.

Definition activeBuses (fuel : nat) (route : Route.t) (simTime : value)
  : option (list bus) :=
  match Route.frequencies route with
  | None => Some []
  | Some [] => Some []
  | Some freqs => bands fuel route simTime freqs []
  end.

End Engine.

(** *** The frame loop: [routeGeo] and the per-route body of [tick] *)

Module Tick.

Definition ROUTE_PALETTE : list string :=
  ["#FF0000"; "#FFB8FF"; "#00FFFF"; "#FFB852"; "#FF69B4"; "#7FFF00";
   "#FF4500"; "#DA70D6"; "#1E90FF"; "#FFD700"; "#00FF7F"; "#FF6347"]%string.

Definition routeColor (i : nat) : string :=
  nth (i mod List.length ROUTE_PALETTE) ROUTE_PALETTE EmptyString.

Record geo : Type := mkGeo { line : list coord; len : value }.

Record frame (point : Type) : Type := mkFrame
  { features : list (point * (string * string * string * string * string));
    nowEaten : list string;
    busCount : nat }.

Arguments mkFrame {point} features nowEaten busCount.
Arguments features {point} f.
Arguments nowEaten {point} f.
Arguments busCount {point} f.

Definition noStop : Stop.t := Stop.mk "" "" (Undefined, Undefined) Undefined Undefined.

(** [Math.abs(p - dist / totalD) < 0.015], on doubles: the quotient and the
    difference are rounded, and [0.015] is the double of that literal. *)
Definition nearStop (p dist totalD : value) : bool :=
  Double.lt
    (Double.abs
       (Double.sub (Double.ofValue p)
                   (Double.div (Double.ofValue dist) (Double.ofValue totalD))))
    (Double.ofQ 0.015).

(** The stops a vehicle at progress [p] eats:
    [if (Math.abs(p - s.dist / totalD) < 0.015) nowEaten.add(s.id)]. *)
Definition eat (p : value) (sh : Shape.t) (eaten : list string) : list string :=
  match Shape.stops sh with
  | [] => eaten
  | stops =>
      let totalD := JS.or (Stop.dist (last stops noStop)) (lit 1) in
      fold_left
        (fun acc s =>
           if nearStop p (Stop.dist s) totalD
           then setAdd acc (Stop.id s) else acc)
        stops eaten
  end.

Section Turf.

(** The functions of turf.js are left abstract: [turfLength cs] is
    [turf.length(turf.lineString(cs), {units: 'kilometers'})] and
    [turfAlong cs d] is [turf.along(line, d, {units: 'kilometers'}).geometry];
    [None] stands for a call that throws. *)
Variable point : Type.
Variable turfLength : list coord -> option value.
Variable turfAlong : list coord -> value -> option point.

(** One entry of [routeGeo]. *)
Definition routeGeo (r : Route.t) : option geo :=
  match Route.shapes r with
  | [] => None
  | sh :: _ =>
      if (List.length (Shape.coordinates sh) <? 2)%nat then None
      else
        match turfLength (Shape.coordinates sh) with
        | Some l => if JS.gt l (lit 0.05) then Some (mkGeo (Shape.coordinates sh) l)
                    else None
        | None => None
        end
  end.

(** The body of [for (const ab of abs)]; a vehicle whose interpolation throws
    is skipped. *)
Definition busStep (g : geo) (route : Route.t) (ri : nat) (sel : option Route.t)
           (fr : frame point) (ab : Engine.bus) : frame point :=
  let p := JSLib.max (lit 0.001) (JSLib.min (lit 0.999) (Engine.progress ab)) in
  match turfAlong (line g) (JS.mul p (len g)) with
  | None => fr
  | Some pt =>
      let isSelected :=
        match sel with
        | Some s => String.eqb (Route.id route) (Route.id s)
        | None => false
        end in
      let props :=
        (Route.shortName route, Route.longName route,
         match Route.shapes route with sh :: _ => Shape.headsign sh | [] => EmptyString end,
         match Route.color route with
         | EmptyString => routeColor ri
         | c => c
         end,
         if isSelected then "pacman-hl"%string else "pacman"%string) in
      mkFrame (features fr ++ [(pt, props)])
              (match Route.shapes route with
               | sh :: _ => eat p sh (nowEaten fr)
               | [] => nowEaten fr
               end)
              (S (busCount fr))
  end.

(** The callback of [routes.forEach((route, ri) => ...)] in [tick]. *)
Definition routeFrame (fuel : nat) (g : option geo) (route : Route.t) (ri : nat)
           (sel : option Route.t) (t : value) (fr : frame point)
  : option (frame point) :=
  match g with
  | None => Some fr
  | Some g =>
      match Engine.activeBuses fuel route t with
      | Some abs => Some (fold_left (busStep g route ri sel) abs fr)
      | None => None
      end
  end.

Fixpoint routesLoop (fuel : nat) (routes : list Route.t) (ri : nat)
         (sel : option Route.t) (t : value) (fr : frame point)
  : option (frame point) :=
  match routes with
  | [] => Some fr
  | r :: rest =>
      match routeFrame fuel (routeGeo r) r ri sel t fr with
      | Some fr' => routesLoop fuel rest (S ri) sel t fr'
      | None => None
      end
  end.

Definition computeFrame (fuel : nat) (routes : list Route.t)
           (sel : option Route.t) (t : value) : option (frame point) :=
  routesLoop fuel routes 0 sel t (mkFrame [] [] 0).

End Turf.

(** The route [r] with other shapes. *)
Definition withShapes (r : Route.t) (shs : list Shape.t) : Route.t :=
  Route.mk (Route.id r) (Route.shortName r) (Route.longName r) (Route.color r)
           shs (Route.tripDuration r) (Route.frequencies r).

End Tick.

(** ** The simulation clock ([src/App.jsx]) *)

Module Clock.

Definition SIM_SPEED : Q := 60.
Definition T_MIN : Q := 5 * 3600.
Definition T_MAX : Q := 26 * 3600.

(** The updater given to [setSimTime] in [step]:
    [let n = prev + dt * SIM_SPEED; if (n > T_MAX) n = T_MIN; return n]. *)
Definition advance (dt prev : Q) : Q :=
  let n := prev + dt * SIM_SPEED in
  if Qlt_bool T_MAX n then T_MIN else n.

Record state : Type := mkState { simTime : Q; lastT : option Q }.

(** [step(ts)], the animation frame callback while playing. *)
Definition step (st : state) (ts : Q) : state :=
  mkState (match lastT st with
           | Some l => advance ((ts - l) / 1000) (simTime st)
           | None => simTime st
           end)
          (Some ts).

Definition run (st : state) (frames : list Q) : state := fold_left step frames st.

End Clock.

(** *** What the engine is expected to return for one band *)

Module EngineSpec.

(** The trip duration the engine works with: the band's own when it has one
    (a number other than 0), else the route's, else 1800. *)
Definition present (v : value) : option Q :=
  match v with
  | Num (Fin q) => if Qeq_bool q 0 then None else Some q
  | _ => None
  end.

Definition tripDurationOf (route : Route.t) (band : Band.t) : Q :=
  match present (Band.tripDur band) with
  | Some d => d
  | None =>
      match present (Route.tripDuration route) with
      | Some d => d
      | None => 1800
      end
  end.

(** The [k]-th synthetic departure of a band that starts at [s]. *)
Definition departure (s h : Q) (k : nat) : Q := s + inject_Z (Z.of_nat k) * h.

(** How many departures lie before [e]. *)
Definition departureCount (s e h : Q) : nat := Z.to_nat (Qceiling ((e - s) / h)).

Definition activeAt (t dur dep : Q) : bool :=
  Qle_bool 0 (t - dep) && Qle_bool (t - dep) dur.

(** The progress of the vehicles of a band with a positive headway [h],
    one for each active departure, in the order of the departures. *)
Definition vehicles (s e h dur t : Q) : list Q :=
  map (fun dep => (t - dep) / dur)
      (filter (activeAt t dur) (map (departure s h) (seq 0 (departureCount s e h)))).

(** A band whose headway is not a number has one candidate departure, the
    first. *)
Definition single (s e dur t : Q) : list Q :=
  if Qlt_bool s e && activeAt t dur s then [(t - s) / dur] else [].

(** The same for a band as the engine reads it. *)
Definition expected (route : Route.t) (t : Q) (band : Band.t) : list Q :=
  match toNumber (Band.startSec band), toNumber (Band.endSec band) with
  | Fin s, Fin e =>
      match toNumber (Band.headway band) with
      | Fin h =>
          if Qlt_bool 0 h then vehicles s e h (tripDurationOf route band) t else []
      | NaN => single s e (tripDurationOf route band) t
      end
  | _, _ => []
  end.

(** A returned vehicle list against a list of expected progress values. *)
Definition hasProgress (b : Engine.bus) (p : Q) : Prop :=
  exists q, Engine.progress b = Num (Fin q) /\ q == p.

Definition matches (out : list Engine.bus) (ps : list Q) : Prop :=
  Forall2 hasProgress out ps.

(** Fuel that is enough for every band of a list. *)
Definition fuelFor (band : Band.t) : nat :=
  match toNumber (Band.headway band), toNumber (Band.startSec band),
        toNumber (Band.endSec band) with
  | Fin h, Fin s, Fin e => S (departureCount s e h)
  | _, _, _ => 2
  end.

Definition fuelForAll (freqs : list Band.t) : nat :=
  fold_right (fun b n => Nat.max (fuelFor b) n) 1%nat freqs.

End EngineSpec.

(** ** The preprocessor ([scripts/preprocess-gtfs.js]) *)

(** The rows of the GTFS tables, as [parseCSV] returns them: every column is a
    trimmed string. *)
Module RouteRow.
Record t : Type := mk
  { route_id : string; route_short_name : string; route_long_name : string;
    route_color : string }.
End RouteRow.

Module TripRow.
Record t : Type := mk
  { trip_id : string; route_id : string; direction_id : string;
    shape_id : string; trip_headsign : string }.
End TripRow.

Module ShapeRow.
Record t : Type := mk
  { shape_id : string; shape_pt_lat : string; shape_pt_lon : string;
    shape_pt_sequence : string }.
End ShapeRow.

Module StopRow.
Record t : Type := mk
  { stop_id : string; stop_name : string; stop_lat : string; stop_lon : string }.
End StopRow.

Module StopTimeRow.
Record t : Type := mk
  { trip_id : string; stop_id : string; stop_sequence : string;
    shape_dist_traveled : string; arrival_time : string }.
End StopTimeRow.

Module FreqRow.
Record t : Type := mk
  { trip_id : string; start_time : string; end_time : string;
    headway_secs : string }.
End FreqRow.

Module Pre.

Record tables : Type := mkTables
  { routesRaw : list RouteRow.t; tripsRaw : list TripRow.t;
    shapesRaw : list ShapeRow.t; stopsRaw : list StopRow.t;
    stRaw : list StopTimeRow.t; freqRaw : list FreqRow.t }.

(** ["7:05:30"] to seconds since midnight:
    [const [h, m, s] = t.split(':').map(Number); return h*3600 + m*60 + (s || 0)]. *)
Definition timeToSec (t : string) : value :=
  let parts := map (fun x => Num (Number x)) (splitOn ":" t) in
  let h := nth 0 parts Undefined in
  let m := nth 1 parts Undefined in
  let s := nth 2 parts Undefined in
  JS.add (JS.add (JS.mul h (lit 3600)) (JS.mul m (lit 60))) (JS.or s (lit 0)).

(** *** 2. trips *)

Record tripInfo : Type := mkTripInfo
  { ti_shape_id : string; ti_trip_id : string; ti_headsign : string;
    ti_direction : value }.

Definition strObj (A : Type) : Type := obj string A.
Definition sget {A : Type} (o : strObj A) (k : string) : option A :=
  get String.eqb o k.
Definition sset {A : Type} (o : strObj A) (k : string) (a : A) : strObj A :=
  set String.eqb o k a.

Definition tripRouteOf (trips : list TripRow.t) : strObj string :=
  fold_left (fun o t => sset o (TripRow.trip_id t) (TripRow.route_id t)) trips [].

Definition tripKey (t : TripRow.t) : string :=
  (TripRow.direction_id t ++ "_" ++ TripRow.shape_id t)%string.

Definition routeTripsStep (routeTrips : strObj (strObj tripInfo)) (t : TripRow.t)
  : strObj (strObj tripInfo) :=
  let ofRoute := match sget routeTrips (TripRow.route_id t) with
                 | Some o => o
                 | None => []
                 end in
  let ofRoute' :=
    match sget ofRoute (tripKey t) with
    | Some _ => ofRoute
    | None =>
        sset ofRoute (tripKey t)
             (mkTripInfo (TripRow.shape_id t) (TripRow.trip_id t)
                         (TripRow.trip_headsign t)
                         (JS.or (Num (parseInt (TripRow.direction_id t))) (lit 0)))
    end in
  sset routeTrips (TripRow.route_id t) ofRoute'.

Definition routeTripsOf (trips : list TripRow.t) : strObj (strObj tripInfo) :=
  fold_left routeTripsStep trips [].

(** *** 3. shapes *)

Record pt : Type := mkPt { lat : value; lon : value; seq : value }.

(** [if (!o[k]) o[k] = []; o[k].push(x)]. *)
Definition pushTo {A : Type} (o : strObj (list A)) (k : string) (x : A)
  : strObj (list A) :=
  match sget o k with
  | Some l => sset o k (l ++ [x])
  | None => sset o k [x]
  end.

Definition shapesMapOf (rows : list ShapeRow.t) : strObj (list pt) :=
  let pushed :=
    fold_left (fun o r =>
                 pushTo o (ShapeRow.shape_id r)
                        (mkPt (Num (parseFloat (ShapeRow.shape_pt_lat r)))
                              (Num (parseFloat (ShapeRow.shape_pt_lon r)))
                              (Num (parseInt (ShapeRow.shape_pt_sequence r)))))
              rows [] in
  map (fun kv => (fst kv, sort (fun a b => JS.sub (seq a) (seq b)) (snd kv))) pushed.

(** *** 4. stops *)

Record stopRec : Type := mkStopRec
  { sr_id : string; sr_name : string; sr_lat : value; sr_lon : value }.

Definition stopsMapOf (rows : list StopRow.t) : strObj stopRec :=
  fold_left (fun o s =>
               sset o (StopRow.stop_id s)
                    (mkStopRec (StopRow.stop_id s) (StopRow.stop_name s)
                               (Num (parseFloat (StopRow.stop_lat s)))
                               (Num (parseFloat (StopRow.stop_lon s)))))
            rows [].

(** *** 5. stop_times *)

Record visit : Type := mkVisit
  { v_stop_id : string; v_seq : value; v_dist : value; arrSec : value }.

Definition visitOf (st : StopTimeRow.t) : visit :=
  mkVisit (StopTimeRow.stop_id st)
          (Num (parseInt (StopTimeRow.stop_sequence st)))
          (JS.or (Num (parseFloat (StopTimeRow.shape_dist_traveled st))) (lit 0))
          (timeToSec (StopTimeRow.arrival_time st)).

Definition tripStopsOf (rows : list StopTimeRow.t) : strObj (list visit) :=
  let pushed :=
    fold_left (fun o st => pushTo o (StopTimeRow.trip_id st) (visitOf st)) rows [] in
  map (fun kv => (fst kv, sort (fun a b => JS.sub (v_seq a) (v_seq b)) (snd kv)))
      pushed.

(** *** 6. frequencies *)

(** [sts[i].arrSec]; every array stored in [tripStops] has an element. *)
Definition arrSecAt (sts : list visit) (i : nat) : value :=
  match nth_error sts i with
  | Some v => arrSec v
  | None => Undefined
  end.

Definition tripDurOf (tripStops : strObj (list visit)) (trip_id : string) : value :=
  match sget tripStops trip_id with
  | Some sts => JS.sub (arrSecAt sts (List.length sts - 1)) (arrSecAt sts 0)
  | None => lit 1800
  end.

Definition bandOf (tripStops : strObj (list visit)) (f : FreqRow.t) : Band.t :=
  Band.mk (timeToSec (FreqRow.start_time f)) (timeToSec (FreqRow.end_time f))
          (Num (parseInt (FreqRow.headway_secs f)))
          (tripDurOf tripStops (FreqRow.trip_id f)).

(** The route of a row's trip; [if (!routeId) continue] also skips the empty
    string. *)
Definition routeOfTrip (tripRoute : strObj string) (trip_id : string)
  : option string :=
  match sget tripRoute trip_id with
  | Some EmptyString => None
  | r => r
  end.

Definition freqStep (tripRoute : strObj string) (tripStops : strObj (list visit))
           (routeFreqs : strObj (list Band.t)) (f : FreqRow.t)
  : strObj (list Band.t) :=
  match routeOfTrip tripRoute (FreqRow.trip_id f) with
  | None => routeFreqs
  | Some routeId => pushTo routeFreqs routeId (bandOf tripStops f)
  end.

Definition routeFreqsRaw (tripRoute : strObj string)
           (tripStops : strObj (list visit)) (rows : list FreqRow.t)
  : strObj (list Band.t) :=
  fold_left (freqStep tripRoute tripStops) rows [].

(** The key [`${b.startSec}-${b.endSec}`]. Numbers print alike only when they
    are equal ([NaN] prints as ["NaN"]), so the key is kept as the pair and
    two keys are compared field by field. *)
Definition sameText (a b : value) : bool :=
  match a, b with
  | Num (Fin x), Num (Fin y) => Qeq_bool x y
  | Num NaN, Num NaN => true
  | Null, Null => true
  | Undefined, Undefined => true
  | _, _ => false
  end.

Definition window : Type := (value * value)%type.

Definition sameWindow (k k' : window) : bool :=
  sameText (fst k) (fst k') && sameText (snd k) (snd k').

Definition windowOf (b : Band.t) : window := (Band.startSec b, Band.endSec b).

Definition mergeStep (merged : obj window Band.t) (b : Band.t)
  : obj window Band.t :=
  match get sameWindow merged (windowOf b) with
  | None => set sameWindow merged (windowOf b) b
  | Some m =>
      if JS.lt (Band.headway b) (Band.headway m)
      then set sameWindow merged (windowOf b) b
      else merged
  end.

Definition mergeBands (bands : list Band.t) : list Band.t :=
  let merged := fold_left mergeStep bands [] in
  sort (fun a b => JS.sub (Band.startSec a) (Band.startSec b)) (values merged).

Definition routeFreqsOf (tripRoute : strObj string)
           (tripStops : strObj (list visit)) (rows : list FreqRow.t)
  : strObj (list Band.t) :=
  map (fun kv => (fst kv, mergeBands (snd kv)))
      (routeFreqsRaw tripRoute tripStops rows).

(** *** 7. output routes *)

Definition round6 (x : value) : value :=
  JS.div (JSLib.round (JS.mul x (lit 1000000))) (lit 1000000).

Definition stepOf (len : nat) : nat :=
  if (200 <? len)%nat then 3%nat else if (100 <? len)%nat then 2%nat else 1%nat.

(** The loop [for (let i = 0; i < pts.length; i++)] of the simplification,
    from index [i] on, [rest] being the points not yet visited. *)
Fixpoint simplifyFrom (len step : nat) (i : nat) (rest : list pt)
         (coords : list coord) : list coord :=
  match rest with
  | [] => coords
  | p :: rest' =>
      simplifyFrom len step (S i) rest'
        (if (i =? 0)%nat || (i =? len - 1)%nat || (i mod step =? 0)%nat
         then coords ++ [(round6 (lon p), round6 (lat p))]
         else coords)
  end.

Definition simplify (pts : list pt) : list coord :=
  simplifyFrom (List.length pts) (stepOf (List.length pts)) 0 pts [].

Definition stopArrOf (stopsMap : strObj stopRec) (tStops : list visit)
  : list Stop.t :=
  fold_left
    (fun stopArr ts =>
       match sget stopsMap (v_stop_id ts) with
       | Some stop =>
           if negb (isNaN (toNumber (sr_lat stop)))
              && negb (isNaN (toNumber (sr_lon stop)))
           then stopArr ++ [Stop.mk (sr_id stop) (sr_name stop)
                                    (round6 (sr_lon stop), round6 (sr_lat stop))
                                    (v_dist ts) (arrSec ts)]
           else stopArr
       | None => stopArr
       end)
    tStops [].

Definition shapeStep (shapesMap : strObj (list pt)) (stopsMap : strObj stopRec)
           (tripStops : strObj (list visit))
           (routeShapes : list Shape.t) (ti : tripInfo) : list Shape.t :=
  match sget shapesMap (ti_shape_id ti) with
  | None => routeShapes
  | Some pts =>
      if (List.length pts <? 2)%nat then routeShapes
      else
        let tStops := match sget tripStops (ti_trip_id ti) with
                      | Some l => l
                      | None => []
                      end in
        routeShapes ++
          [Shape.mk (ti_shape_id ti) (ti_headsign ti) (ti_direction ti)
                    (simplify pts) (stopArrOf stopsMap tStops)]
  end.

Definition routeTripDuration (s0 : list Stop.t) : value :=
  if (1 <? List.length s0)%nat
  then JS.sub (Stop.arr (nth (List.length s0 - 1) s0 (Stop.mk "" "" (Undefined, Undefined) Undefined Undefined)))
              (Stop.arr (nth 0 s0 (Stop.mk "" "" (Undefined, Undefined) Undefined Undefined)))
  else lit 1800.

Definition routeStep (routeTrips : strObj (strObj tripInfo))
           (shapesMap : strObj (list pt)) (stopsMap : strObj stopRec)
           (tripStops : strObj (list visit)) (routeFreqs : strObj (list Band.t))
           (outputRoutes : list Route.t) (route : RouteRow.t) : list Route.t :=
  match sget routeTrips (RouteRow.route_id route) with
  | None => outputRoutes
  | Some trips =>
      let routeShapes :=
        fold_left (shapeStep shapesMap stopsMap tripStops) (values trips) [] in
      match routeShapes with
      | [] => outputRoutes
      | sh0 :: _ =>
          outputRoutes ++
            [Route.mk (RouteRow.route_id route)
                      (RouteRow.route_short_name route)
                      (RouteRow.route_long_name route)
                      (match RouteRow.route_color route with
                       | EmptyString => "#0178BC"
                       | c => ("#" ++ c)%string
                       end)
                      routeShapes
                      (routeTripDuration (Shape.stops sh0))
                      (Some (match sget routeFreqs (RouteRow.route_id route) with
                             | Some l => l
                             | None => []
                             end))]
      end
  end.

Definition outputRoutesOf (tb : tables) : list Route.t :=
  let tripRoute := tripRouteOf (tripsRaw tb) in
  let routeTrips := routeTripsOf (tripsRaw tb) in
  let shapesMap := shapesMapOf (shapesRaw tb) in
  let stopsMap := stopsMapOf (stopsRaw tb) in
  let tripStops := tripStopsOf (stRaw tb) in
  let routeFreqs := routeFreqsOf tripRoute tripStops (freqRaw tb) in
  fold_left (routeStep routeTrips shapesMap stopsMap tripStops routeFreqs)
            (routesRaw tb) [].

(** *** 8. unique stops *)

Definition stopStep (acc : list string * list Stop.t) (s : Stop.t)
  : list string * list Stop.t :=
  let '(seen, allStops) := acc in
  if has seen (Stop.id s) then acc
  else (setAdd seen (Stop.id s), allStops ++ [s]).

Definition allStopsAcc (outputRoutes : list Route.t)
  : list string * list Stop.t :=
  fold_left
    (fun acc r =>
       fold_left (fun acc sh => fold_left stopStep (Shape.stops sh) acc)
                 (Route.shapes r) acc)
    outputRoutes ([], []).

Definition allStopsOf (outputRoutes : list Route.t) : list Stop.t :=
  snd (allStopsAcc outputRoutes).

(** The two documents [main] writes. *)
Definition main (tb : tables) : list Route.t * list Stop.t :=
  let outputRoutes := outputRoutesOf tb in
  (outputRoutes, allStopsOf outputRoutes).

End Pre.

(** *** Notions used to state what the preprocessor does *)

Module PreSpec.

(** The value counts as a number (not [NaN]) in arithmetic. *)
Definition numeric (v : value) : Prop := exists q, toNumber v = Fin q.

(** No two keys of the list are the same key. *)
Fixpoint distinct {K : Type} (eqb : K -> K -> bool) (ks : list K) : Prop :=
  match ks with
  | [] => True
  | k :: ks' => Forall (fun k' => eqb k k' = false) ks' /\ distinct eqb ks'
  end.

Definition sameWindowB (a b : Band.t) : bool :=
  Pre.sameWindow (Pre.windowOf a) (Pre.windowOf b).

Definition inWindow (w : Pre.window) (b : Band.t) : bool :=
  Pre.sameWindow (Pre.windowOf b) w.

Definition startsNoLater (a b : Band.t) : Prop :=
  JS.le (Band.startSec a) (Band.startSec b) = true.

(** The comparator of the sort that ends the merge. *)
Definition byStart (a b : Band.t) : value :=
  JS.sub (Band.startSec a) (Band.startSec b).

(** What holds of the object [merged] once the bands [done] went through
    the merge loop. *)
Definition mergeInv (merged : obj Pre.window Band.t) (done : list Band.t) : Prop :=
  distinct Pre.sameWindow (keys merged)
  /\ (forall k m, In (k, m) merged ->
                  Pre.sameWindow (Pre.windowOf m) k = true /\ In m done)
  /\ (forall b, In b done ->
                exists k m, In (k, m) merged /\
                            Pre.sameWindow (Pre.windowOf b) k = true)
  /\ (forall k m b, In (k, m) merged -> In b done ->
                    Pre.sameWindow (Pre.windowOf b) k = true ->
                    numeric (Band.headway m) -> numeric (Band.headway b) ->
                    JS.le (Band.headway m) (Band.headway b) = true).

(** The bands of the frequencies rows whose trip belongs to route [rid], in
    the order of the rows. *)
Definition ofRoute (tripRoute : Pre.strObj string) (rid : string)
           (f : FreqRow.t) : bool :=
  match Pre.routeOfTrip tripRoute (FreqRow.trip_id f) with
  | Some r => String.eqb r rid
  | None => false
  end.

Definition bandsOfRoute (tripRoute : Pre.strObj string)
           (tripStops : Pre.strObj (list Pre.visit)) (rows : list FreqRow.t)
           (rid : string) : list Band.t :=
  map (Pre.bandOf tripStops) (filter (ofRoute tripRoute rid) rows).

(** The indices the simplification keeps. *)
Definition keep (len N i : nat) : bool :=
  ((i =? 0) || (i =? len - 1) || (i mod N =? 0))%nat.

Definition coordOf (p : Pre.pt) : coord :=
  (Pre.round6 (Pre.lon p), Pre.round6 (Pre.lat p)).

Definition noPt : Pre.pt := Pre.mkPt Undefined Undefined Undefined.

End PreSpec.

(** A band after [JSON.stringify] in the preprocessor and [r.json()] in
    [fetchJSON]. *)
Definition bandViaJSON (b : Band.t) : Band.t :=
  Band.mk (viaJSON (Band.startSec b)) (viaJSON (Band.endSec b))
          (viaJSON (Band.headway b)) (viaJSON (Band.tripDur b)).

(** A route after [JSON.stringify(outputRoutes)] in the preprocessor and
    [r.json()] in [fetchJSON]: texts are as they were, and every number goes
    through [viaJSON]. *)
Definition stopViaJSON (s : Stop.t) : Stop.t :=
  Stop.mk (Stop.id s) (Stop.name s)
          (viaJSON (fst (Stop.coords s)), viaJSON (snd (Stop.coords s)))
          (viaJSON (Stop.dist s)) (viaJSON (Stop.arr s)).

Definition shapeViaJSON (sh : Shape.t) : Shape.t :=
  Shape.mk (Shape.shapeId sh) (Shape.headsign sh) (viaJSON (Shape.direction sh))
           (map (fun c => (viaJSON (fst c), viaJSON (snd c))) (Shape.coordinates sh))
           (map stopViaJSON (Shape.stops sh)).

Definition routeViaJSON (r : Route.t) : Route.t :=
  Route.mk (Route.id r) (Route.shortName r) (Route.longName r) (Route.color r)
           (map shapeViaJSON (Route.shapes r)) (viaJSON (Route.tripDuration r))
           (option_map (map bandViaJSON) (Route.frequencies r)).

(** ** The display of the clock ([fmtTime] in [src/App.jsx]) *)

Module Display.

(** [Math.trunc] and the remainder [a % b] of two numbers, which has the sign
    of [a]. *)
Definition Qtrunc (x : Q) : Z := if Qle_bool 0 x then Qfloor x else Qceiling x.
Definition Qrem (a b : Q) : Q := a - b * inject_Z (Qtrunc (a / b)).

(** [String(n)] for an integer [n]. *)
Definition showZ (z : Z) : string := NilZero.string_of_int (Z.to_int z).

(** [s.padStart(2, '0')]. *)
Definition padStart2 (s : string) : string :=
  match String.length s with
  | O => "00"
  | S O => String "0" s
  | _ => s
  end.

(** The text of an hour and a minute. *)
Definition render (h m : Z) : string :=
  (padStart2 (showZ h) ++ ":" ++ padStart2 (showZ m))%string.

(** [fmtTime(sec)], seconds to ["HH:MM"]:
    [h = Math.floor(sec / 3600) % 24], [m = Math.floor((sec % 3600) / 60)]. *)
Definition fmtTime (sec : Q) : string :=
  let h := Z.rem (Qfloor (sec / 3600)) 24 in
  let m := Qfloor (Qrem sec 3600 / 60) in
  render h m.

End Display.

(** ** Play, pause and the slider ([App] in [src/App.jsx]) *)

Module Player.

Record state : Type := mkState
  { simTime : Q; playing : bool; lastT : option Q }.

(** [useState(8 * 3600)], [useState(true)], [useRef(null)]. *)
Definition initial : state := mkState (8 * 3600) true None.

Inductive event : Type :=
| Frame (ts : Q)      (* the animation frame callback [step(ts)] *)
| TogglePlay          (* the play / pause button *)
| Seek (v : Q).       (* the time slider: [setSimTime(Number(e.target.value))] *)

(** One event. Pausing runs the cleanup of the effect (the pending frame is
    cancelled) and the effect again, which sets [lastT.current = null]; no
    frame arrives while paused. *)
Definition handle (st : state) (ev : event) : state :=
  match ev with
  | Frame ts =>
      if playing st then
        mkState (match lastT st with
                 | Some l => Clock.advance ((ts - l) / 1000) (simTime st)
                 | None => simTime st
                 end)
                true (Some ts)
      else st
  | TogglePlay =>
      if playing st then mkState (simTime st) false None
      else mkState (simTime st) true (lastT st)
  | Seek v => mkState v (playing st) (lastT st)
  end.

Definition run (st : state) (evs : list event) : state := fold_left handle evs st.

(** The timestamps of the frames do not go back, and the slider stays between
    its [min] and [max]. *)
Fixpoint wellTimed (last : option Q) (evs : list event) : Prop :=
  match evs with
  | [] => True
  | Frame ts :: rest =>
      match last with Some l => l <= ts | None => True end
      /\ wellTimed (Some ts) rest
  | TogglePlay :: rest => wellTimed last rest
  | Seek v :: rest => Clock.T_MIN <= v <= Clock.T_MAX /\ wellTimed last rest
  end.

End Player.

(** ** The pellets: which stops show as eaten ([tick] in [src/GtfsMap.jsx]) *)

Module Pellets.




(** The pellets are redrawn on the frames with
    [Math.round(now / 16) % 12 === 0]. *)
Definition redraws (now : Q) : bool :=
  Z.eqb (Z.rem (Qfloor (now / 16 + (1 # 2))) 12) 0.

End Pellets.

(** ** The table reader ([parseCSV] in the preprocessing script) *)

Module Csv.

(** The white space [String.prototype.trim] strips, in UTF-8: the ASCII
    white space and the line ends ([isSpace]), U+00A0 in two bytes, and in
    three bytes U+1680, U+2000 to U+200A, U+2028, U+2029, U+202F, U+205F,
    U+3000 and U+FEFF (the byte order mark, which [readFileSync] leaves in
    the text). *)
Definition byteIs (c : ascii) (n : nat) : bool := (nat_of_ascii c =? n)%nat.

Definition space2 (a b : ascii) : bool := byteIs a 194 && byteIs b 160.

Definition space3 (a b c : ascii) : bool :=
  (byteIs a 225 && byteIs b 154 && byteIs c 128)
  || (byteIs a 226 && byteIs b 128
      && (((128 <=? nat_of_ascii c) && (nat_of_ascii c <=? 138))%nat
          || byteIs c 168 || byteIs c 169 || byteIs c 175))
  || (byteIs a 226 && byteIs b 129 && byteIs c 159)
  || (byteIs a 227 && byteIs b 128 && byteIs c 128)
  || (byteIs a 239 && byteIs b 187 && byteIs c 191).

(** [s] is white space only. *)
Fixpoint allSpaces (s : string) : bool :=
  match s with
  | EmptyString => true
  | String a s1 =>
      if isSpace a then allSpaces s1
      else
        match s1 with
        | String b s2 =>
            if space2 a b then allSpaces s2
            else
              match s2 with
              | String c s3 => if space3 a b c then allSpaces s3 else false
              | EmptyString => false
              end
        | EmptyString => false
        end
  end.

(** What is left of [s] without the white space at its start. *)
Fixpoint dropSpacesStart (s : string) : string :=
  match s with
  | EmptyString => s
  | String a s1 =>
      if isSpace a then dropSpacesStart s1
      else
        match s1 with
        | String b s2 =>
            if space2 a b then dropSpacesStart s2
            else
              match s2 with
              | String c s3 => if space3 a b c then dropSpacesStart s3 else s
              | EmptyString => s
              end
        | EmptyString => s
        end
  end.

(** What is left of [s] without the white space at its end: the text up to
    the first place from which white space only follows. *)
Fixpoint dropSpacesEnd (s : string) : string :=
  match s with
  | EmptyString => EmptyString
  | String c s' => if allSpaces s then EmptyString else String c (dropSpacesEnd s')
  end.

(** [s.trim()]. *)
Definition trim (s : string) : string := dropSpacesEnd (dropSpacesStart s).

Definition notBlank (l : string) : bool :=
  match trim l with EmptyString => false | _ => true end.

(** [hdr.forEach((h, i) => { row[h] = (vals[i] || '').trim(); })]. *)
Definition rowOf (hdr : list string) (line : string) : Pre.strObj string :=
  let vals := splitOn "," line in
  fold_left (fun row hi => Pre.sset row (fst hi) (trim (nth (snd hi) vals EmptyString)))
            (combine hdr (seq 0 (List.length hdr))) [].

(** [parseCSV] on the text of the file. With no line that is not blank,
    [lines[0]] is [undefined] and [lines[0].split] throws: [None]. *)
Definition parseCSV (text : string) : option (list (Pre.strObj string)) :=
  match filter notBlank (splitOn "010" text) with
  | [] => None
  | first :: rest =>
      let hdr := map trim (splitOn "," first) in
      Some (map (rowOf hdr) rest)
  end.

End Csv.


(** ** Notions used to state more about the engine and the preprocessor *)

(** ** The routes of a stop (GtfsMap.jsx)

    The index [stopRoutes] behind the popup of a stop: under a stop id, the
    set of the short names of the routes that have a shape with that stop. *)

Module Popup.

(** [if (!stopRoutes[s.id]) stopRoutes[s.id] = new Set();
     stopRoutes[s.id].add(r.shortName)]. *)
Definition addStop (shortName : string) (stopRoutes : Pre.strObj (list string))
           (s : Stop.t) : Pre.strObj (list string) :=
  let set := match Pre.sget stopRoutes (Stop.id s) with
             | Some set => set
             | None => []
             end in
  Pre.sset stopRoutes (Stop.id s) (setAdd set shortName).

Definition stopRoutesOf (routes : list Route.t) : Pre.strObj (list string) :=
  fold_left
    (fun acc r =>
       fold_left (fun acc sh => fold_left (addStop (Route.shortName r))
                                          (Shape.stops sh) acc)
                 (Route.shapes r) acc)
    routes [].

(** [stopRoutes[sid] ? [...stopRoutes[sid]] : []], the names before they are
    sorted for display. *)
Definition namesAt (stopRoutes : Pre.strObj (list string)) (sid : string)
  : list string :=
  match Pre.sget stopRoutes sid with
  | Some set => set
  | None => []
  end.

End Popup.

(** ** Picking a route (App.jsx)

    [handleRoutePick]: the new value of [selRoute]. *)

Module Picker.

(** [selRoute?.id === r.id]. *)
Definition isSelectedId (selRoute : option Route.t) (r : Route.t) : bool :=
  match selRoute with
  | Some s => String.eqb (Route.id s) (Route.id r)
  | None => false
  end.

Definition pick (selRoute : option Route.t) (r : Route.t) : option Route.t :=
  if isSelectedId selRoute r then None else Some r.

End Picker.

Module Notions.

(** The vehicle feature [f] is drawn for a route of [routes], with its names
    and the icon [icon r] says. *)
Definition drawnWith {point : Type} (routes : list Route.t)
           (icon : Route.t -> string)
           (f : point * (string * string * string * string * string)) : Prop :=
  exists r,
    In r routes
    /\ fst (fst (fst (fst (snd f)))) = Route.shortName r
    /\ snd (fst (fst (fst (snd f)))) = Route.longName r
    /\ snd (snd f) = icon r.

(** Route [r] serves the stop of id [sid]: one of its shapes has it. *)
Definition serves (r : Route.t) (sid : string) : Prop :=
  exists sh s, In sh (Route.shapes r) /\ In s (Shape.stops sh) /\ Stop.id s = sid.

(** The progress of a vehicle is a number between 0 and 1. *)
Definition inUnit (b : Engine.bus) : Prop :=
  exists q, Engine.progress b = lit q /\ 0 <= q <= 1.

(** How many departures of a band can be on their way at once: trips of
    duration [d] that start every [h] seconds. *)
Definition maxConcurrent (d h : Q) : nat := S (Z.to_nat (Qfloor (d / h))).

(** The length the distances of the stops of a shape are compared with:
    [sh.stops[sh.stops.length - 1]?.dist || 1]. *)
Definition totalD (sh : Shape.t) : value :=
  JS.or (Stop.dist (last (Shape.stops sh) Tick.noStop)) (lit 1).

(** A vehicle at progress [p] is at the stop [s] of the shape, by the test
    of [tick] on doubles. *)
Definition near (p : value) (sh : Shape.t) (s : Stop.t) : bool :=
  Tick.nearStop p (Stop.dist s) (totalD sh).

(** The stop ids a frame may show as visited: those of the first shapes. *)
Definition firstShapeStop (routes : list Route.t) (id : string) : Prop :=
  exists r sh rest s,
    In r routes /\ Route.shapes r = sh :: rest /\ In s (Shape.stops sh)
    /\ Stop.id s = id.

(** What the loop of [tick] keeps true of the frame it builds. *)
Definition frameInv {point : Type} (routes : list Route.t)
           (fr : Tick.frame point) : Prop :=
  Tick.busCount fr = List.length (Tick.features fr)
  /\ NoDup (Tick.nowEaten fr)
  /\ (forall id, In id (Tick.nowEaten fr) -> firstShapeStop routes id).

(** Fuel that is enough for the bands of every route. *)
Definition fuelForRoutes (routes : list Route.t) : nat :=
  fold_right
    (fun r n =>
       Nat.max (match Route.frequencies r with
                | Some freqs => EngineSpec.fuelForAll freqs
                | None => 1%nat
                end) n)
    1%nat routes.

(** The character [c] occurs in [s]. *)
Fixpoint hasChar (c : ascii) (s : string) : bool :=
  match s with
  | EmptyString => false
  | String c' s' => Ascii.eqb c' c || hasChar c s'
  end.

(** [fmtTime] agrees with [timeToSec] on the hour [h] and the minute [m]. *)
Definition roundTrips (h m : nat) : bool :=
  let text := Display.render (Z.of_nat h) (Z.of_nat m) in
  match Pre.timeToSec text with
  | Num (Fin q) =>
      Qeq_bool q (inject_Z (Z.of_nat h * 3600 + Z.of_nat m * 60))
      && String.eqb (Display.fmtTime q) text
      && Nat.eqb (String.length text) 5
  | _ => false
  end.


(** The time stamp the player remembers is not after the last frame. *)
Definition notAfter (remembered last : option Q) : Prop :=
  match remembered with
  | None => True
  | Some l => match last with Some l' => l <= l' | None => False end
  end.

(** What [main] keeps of a trips row, a shapes row and a stops row. *)
Definition infoOf (t : TripRow.t) : Pre.tripInfo :=
  Pre.mkTripInfo (TripRow.shape_id t) (TripRow.trip_id t) (TripRow.trip_headsign t)
                 (JS.or (Num (parseInt (TripRow.direction_id t))) (lit 0)).

Definition ptOf (r : ShapeRow.t) : Pre.pt :=
  Pre.mkPt (Num (parseFloat (ShapeRow.shape_pt_lat r)))
           (Num (parseFloat (ShapeRow.shape_pt_lon r)))
           (Num (parseInt (ShapeRow.shape_pt_sequence r))).

Definition recOf (s : StopRow.t) : Pre.stopRec :=
  Pre.mkStopRec (StopRow.stop_id s) (StopRow.stop_name s)
                (Num (parseFloat (StopRow.stop_lat s)))
                (Num (parseFloat (StopRow.stop_lon s))).

(** The comparators of the two sorts by sequence number, and the orders they
    give on numbers. *)
Definition bySeq (a b : Pre.pt) : value := JS.sub (Pre.seq a) (Pre.seq b).
Definition byVisitSeq (a b : Pre.visit) : value := JS.sub (Pre.v_seq a) (Pre.v_seq b).
Definition seqNoLater (a b : Pre.pt) : Prop := JS.le (Pre.seq a) (Pre.seq b) = true.
Definition visitNoLater (a b : Pre.visit) : Prop :=
  JS.le (Pre.v_seq a) (Pre.v_seq b) = true.

(** The trip of a row is [rid]'s and has the key [key]. *)
Definition tripMatches (rid key : string) (t : TripRow.t) : bool :=
  String.eqb rid (TripRow.route_id t) && String.eqb key (Pre.tripKey t).

(** The entry of [routeTrips] for a route and a key. *)
Definition tripInfoAt (routeTrips : Pre.strObj (Pre.strObj Pre.tripInfo))
           (rid key : string) : option Pre.tripInfo :=
  match Pre.sget routeTrips rid with
  | Some o => Pre.sget o key
  | None => None
  end.

(** Both coordinates of a stop are numbers. *)
Definition located (s : Stop.t) : Prop :=
  exists x y, Stop.coords s = (lit x, lit y).

(** The stop a visit gives, if any: its stop id has a row in [stops.txt]
    whose latitude and longitude are not [NaN]. *)
Definition stopOfVisit (stopsMap : Pre.strObj Pre.stopRec) (ts : Pre.visit)
  : list Stop.t :=
  match Pre.sget stopsMap (Pre.v_stop_id ts) with
  | Some stop =>
      if negb (isNaN (toNumber (Pre.sr_lat stop)))
         && negb (isNaN (toNumber (Pre.sr_lon stop)))
      then [Stop.mk (Pre.sr_id stop) (Pre.sr_name stop)
                    (Pre.round6 (Pre.sr_lon stop), Pre.round6 (Pre.sr_lat stop))
                    (Pre.v_dist ts) (Pre.arrSec ts)]
      else []
  | None => []
  end.

(** A shape as [main] builds it. *)
Definition wellFormedShape (sh : Shape.t) : Prop :=
  (2 <= List.length (Shape.coordinates sh))%nat
  /\ Forall located (Shape.stops sh).

(** What every route of [routes.json] satisfies: it comes from a row of
    [routes.txt], has a shape, its shapes are well formed and its trip
    duration is read off the stops of its first shape. *)
Definition emittedOk (tb : Pre.tables) (r : Route.t) : Prop :=
  (exists row, In row (Pre.routesRaw tb) /\ Route.id r = RouteRow.route_id row
               /\ Route.shortName r = RouteRow.route_short_name row
               /\ Route.longName r = RouteRow.route_long_name row)
  /\ Route.shapes r <> []
  /\ Forall wellFormedShape (Route.shapes r)
  /\ Route.tripDuration r
     = Pre.routeTripDuration (Shape.stops (hd (Shape.mk "" "" Undefined [] [])
                                          (Route.shapes r))).

End Notions.

(** ** Sample inputs *)

Module Sample.

(** The band of the worked example: 08:00 to 09:00, every 10 minutes,
    30 minutes a trip. *)
Definition band1 : Band.t :=
  Band.mk (lit 28800) (lit 32400) (lit 600) (lit 1800).

Definition routeOf (freqs : list Band.t) : Route.t :=
  Route.mk "r1" "1" "Line one" "#0178BC" [] (lit 1800) (Some freqs).

Definition route1 : Route.t := routeOf [band1].

(** The same window served every 5 minutes, and a band with headway 0. *)
Definition bandFast : Band.t :=
  Band.mk (lit 28800) (lit 32400) (lit 300) (lit 1800).

Definition bandZero : Band.t :=
  Band.mk (lit 28800) (lit 32400) (lit 0) (lit 1800).

(** A band whose headway did not parse. *)
Definition bandNaN : Band.t :=
  Band.mk (lit 28800) (lit 32400) (Num NaN) (lit 1800).

(** A small feed: one route, one trip on a shape of two points, one timed
    stop, and the frequencies rows given. *)
Definition feed (freqs : list FreqRow.t) : Pre.tables :=
  Pre.mkTables
    [RouteRow.mk "r1" "1" "Line one" ""]
    [TripRow.mk "t1" "r1" "0" "s1" "Centro"]
    [ShapeRow.mk "s1" "40.41" "-3.70" "1"; ShapeRow.mk "s1" "40.42" "-3.69" "2"]
    [StopRow.mk "p1" "Sol" "40.41" "-3.70"; StopRow.mk "p2" "Opera" "40.42" "-3.69"]
    [StopTimeRow.mk "t1" "p1" "1" "0" "8:00:00"]
    freqs.

(** A headway of zero, and one that does not parse. *)
Definition feedZero : Pre.tables :=
  feed [FreqRow.mk "t1" "8:00:00" "9:00:00" "0";
        FreqRow.mk "t1" "9:00:00" "10:00:00" "n/a"].

(** Two rows for one window, the first with a headway that does not parse. *)
Definition feedNaNFirst : Pre.tables :=
  feed [FreqRow.mk "t1" "8:00:00" "9:00:00" "n/a";
        FreqRow.mk "t1" "8:00:00" "9:00:00" "600"].

(** A route whose first shape is 30 metres long (as [turfLength30m] says),
    with a band that would put vehicles on it. *)
Definition shortShape : Shape.t :=
  Shape.mk "s0" "Centro" (lit 0)
           [(lit (-3.7), lit 40.41); (lit (-3.7), lit 40.4103)]
           [Stop.mk "p1" "Sol" (lit (-3.7), lit 40.41) (lit 0) (lit 28800)].

Definition shortRoute : Route.t :=
  Route.mk "r0" "0" "Short line" "" [shortShape] (lit 1800) (Some [band1]).

Definition turfLength30m (cs : list coord) : option value := Some (lit 0.03).

Definition turfAlongStart (cs : list coord) (d : value) : option coord :=
  hd_error cs.

Definition turfLength1km (cs : list coord) : option value := Some (lit 1).

(** One frequencies row, for a trip that has a single timed stop. *)
Definition feedOneStop : Pre.tables :=
  feed [FreqRow.mk "t1" "8:00:00" "9:00:00" "600"].

Definition feedNaNLast : Pre.tables :=
  feed [FreqRow.mk "t1" "8:00:00" "9:00:00" "600";
        FreqRow.mk "t1" "8:00:00" "9:00:00" "n/a"].

(** A table of two columns: the header after a byte order mark, a row with
    spaces around its fields and one field too many, an empty line, and a row
    that is short. *)
Definition csvHeader : string :=
  String "239" (String "187" (String "191" "id, name")).

Definition csvRest : string :=
  ("1, Sol ,x" ++ String "010" (String "010" "2"))%string.

Definition csvText : string := (csvHeader ++ String "010" csvRest)%string.

(** A byte order mark and a no-break space. *)
Definition blankText : string :=
  String "239" (String "187" (String "191" (String "194" (String "160" EmptyString)))).

(** A shape of 600 metres with a stop at 91 metres, and a vehicle five
    minutes into a trip of thirty. *)
Definition stopAt91 : Stop.t :=
  Stop.mk "q1" "Callao" (lit (-3.7), lit 40.41) (lit 91) (lit 28900).

Definition stopAt600 : Stop.t :=
  Stop.mk "q2" "Opera" (lit (-3.7), lit 40.42) (lit 600) (lit 30600).

Definition shape600 : Shape.t :=
  Shape.mk "s6" "Centro" (lit 0)
           [(lit (-3.7), lit 40.41); (lit (-3.7), lit 40.42)]
           [stopAt91; stopAt600].

End Sample.

(** * Properties *)

(** ** Numbers *)

Lemma Qlt_bool_iff (x y : Q) : Qlt_bool x y = true <-> x < y.
Proof.
  unfold Qlt_bool. rewrite negb_true_iff. split; intro H.
  - apply Qnot_le_lt. intro L. apply Qle_bool_iff in L. congruence.
  - destruct (Qle_bool y x) eqn:E; [|reflexivity].
    apply Qle_bool_iff in E. lra.
Qed.

Lemma Qlt_bool_false_iff (x y : Q) : Qlt_bool x y = false <-> y <= x.
Proof.
  unfold Qlt_bool. rewrite negb_false_iff. apply Qle_bool_iff.
Qed.

Lemma Qle_bool_false_iff (x y : Q) : Qle_bool x y = false <-> y < x.
Proof.
  split; intro H.
  - apply Qnot_le_lt. intro L. apply Qle_bool_iff in L. congruence.
  - destruct (Qle_bool x y) eqn:E; [|reflexivity].
    apply Qle_bool_iff in E. lra.
Qed.

(** What the parsers give on the forms the feed uses. *)
Example parseInt_examples :
  parseInt "600" = Fin 600 /\ parseInt "-5" = Fin (-5) /\ parseInt " 12px" = Fin 12
  /\ parseInt "0x1F" = Fin 31 /\ parseInt "n/a" = NaN /\ parseInt "" = NaN.
Proof. repeat split; vm_compute; reflexivity. Qed.

Example Number_examples :
  Number "" = Fin 0 /\ Number "05" = Fin 5 /\ Number " 7 " = Fin 7
  /\ Number "7a" = NaN /\ Number "30.5" = Fin 30.5.
Proof. repeat split; vm_compute; reflexivity. Qed.

(** Hours above 23 are kept as they are; without seconds the time still parses,
    without minutes it does not. *)
Example timeToSec_examples :
  Pre.timeToSec "7:05:30" = lit 25530 /\ Pre.timeToSec "25:10:00" = lit 90600
  /\ Pre.timeToSec "7:05" = lit 25500 /\ Pre.timeToSec "7" = Num NaN
  /\ Pre.timeToSec "" = Num NaN.
Proof. repeat split; vm_compute; reflexivity. Qed.

(** ** The position engine *)

Section Departures.

Import Engine EngineSpec.

Variables (s e h : Q).
Hypothesis h_pos : 0 < h.

Lemma departure_succ (k : nat) : departure s h (S k) == departure s h k + h.
Proof.
  unfold departure. rewrite Nat2Z.inj_succ. unfold Z.succ.
  rewrite inject_Z_plus. ring.
Qed.

(** The departures before [e] are those of index below [departureCount]. *)
Lemma departure_before_end (k : nat) :
  departure s h k < e <-> (k < departureCount s e h)%nat.
Proof.
  unfold departure, departureCount.
  set (x := (e - s) / h).
  assert (Hx : x * h == e - s) by (unfold x; field; lra).
  split; intro H.
  - assert (Hk : inject_Z (Z.of_nat k) < x).
    { apply Qmult_lt_r with (z := h); [exact h_pos|]. rewrite Hx. lra. }
    pose proof (Qle_ceiling x) as Hc.
    assert (Hz : inject_Z (Z.of_nat k) < inject_Z (Qceiling x)) by lra.
    rewrite <- Zlt_Qlt in Hz. lia.
  - assert (Hz : (Z.of_nat k <= Qceiling x - 1)%Z) by lia.
    rewrite Zle_Qle in Hz.
    pose proof (Qceiling_lt x) as Hc.
    assert (Hk : inject_Z (Z.of_nat k) < x) by lra.
    apply Qmult_lt_r with (z := h) in Hk; [|exact h_pos].
    rewrite Hx in Hk. lra.
Qed.

End Departures.

Section BandLoop.

Import Engine EngineSpec.

Variables (band : Band.t) (s e h d t : Q).
Hypothesis end_is : toNumber (Band.endSec band) = Fin e.
Hypothesis headway_is : toNumber (Band.headway band) = Fin h.
Hypothesis h_pos : 0 < h.
Hypothesis d_nonzero : Qeq_bool d 0 = false.

(** One turn of the loop, on numbers. *)
Lemma departures_unfold (fuel : nat) (dep : Q) (out : list bus) :
  departures (S fuel) (lit dep) band (lit d) (lit t) out =
  if Qlt_bool dep e then
    departures fuel (lit (dep + h)) band (lit d) (lit t)
      (if Qlt_bool (t - dep) 0 || Qlt_bool d (t - dep) then out
       else out ++ [mkBus (lit ((t - dep) / d))])
  else Some out.
Proof.
  cbn [departures]. unfold JS.lt, JS.gt, JS.add, JS.sub, JS.div, ngt, lit.
  cbn [toNumber]. rewrite end_is, headway_is. cbn [nlt nadd nsub ndiv].
  rewrite d_nonzero. reflexivity.
Qed.

Lemma skip_iff_inactive (dep dep' : Q) :
  dep == dep' ->
  (Qlt_bool (t - dep) 0 || Qlt_bool d (t - dep)) = negb (activeAt t d dep').
Proof.
  intro E. unfold activeAt. rewrite negb_andb. unfold Qlt_bool.
  assert (E' : t - dep == t - dep') by (rewrite E; reflexivity).
  rewrite E'. reflexivity.
Qed.

(** From the [k]-th departure on, with [m] departures left before [e]. *)
Lemma departures_run (m : nat) :
  forall (k : nat) (dep : Q) (out : list bus) (fuel : nat),
    (k + m = departureCount s e h)%nat ->
    dep == departure s h k ->
    (m < fuel)%nat ->
    exists l,
      departures fuel (lit dep) band (lit d) (lit t) out = Some (out ++ l) /\
      matches l (map (fun dep => (t - dep) / d)
                     (filter (activeAt t d) (map (departure s h) (seq k m)))).
Proof.
  induction m as [|m IH]; intros k dep out fuel Hk Hdep Hfuel.
  - destruct fuel as [|fuel]; [lia|].
    rewrite departures_unfold.
    assert (Hge : Qlt_bool dep e = false).
    { apply Qlt_bool_false_iff. apply Qnot_lt_le. intro L.
      rewrite Hdep in L. apply (departure_before_end s e h h_pos) in L. lia. }
    rewrite Hge. exists []. rewrite app_nil_r. split; [reflexivity|constructor].
  - destruct fuel as [|fuel]; [lia|].
    rewrite departures_unfold.
    assert (Hlt : Qlt_bool dep e = true).
    { apply Qlt_bool_iff. rewrite Hdep.
      apply (departure_before_end s e h h_pos). lia. }
    rewrite Hlt.
    assert (Hnext : dep + h == departure s h (S k)).
    { rewrite departure_succ, Hdep. reflexivity. }
    rewrite (skip_iff_inactive dep (departure s h k) Hdep).
    cbn [seq map filter].
    destruct (activeAt t d (departure s h k)); cbn [negb map].
    + destruct (IH (S k) (dep + h) (out ++ [mkBus (lit ((t - dep) / d))]) fuel)
        as (l & Hl & Hm); [lia|exact Hnext|lia|].
      exists (mkBus (lit ((t - dep) / d)) :: l). split.
      * rewrite Hl, <- app_assoc. reflexivity.
      * constructor; [|exact Hm].
        exists ((t - dep) / d). split; [reflexivity|]. rewrite Hdep. reflexivity.
    + destruct (IH (S k) (dep + h) out fuel) as (l & Hl & Hm);
        [lia|exact Hnext|lia|].
      exists l. split; assumption.
Qed.

End BandLoop.

Section ActiveBuses.

Import Engine EngineSpec.

Lemma dur_is (route : Route.t) (band : Band.t) :
  JS.or (JS.or (Band.tripDur band) (Route.tripDuration route)) (lit 1800) =
  lit (tripDurationOf route band)
  /\ Qeq_bool (tripDurationOf route band) 0 = false.
Proof.
  unfold tripDurationOf, JS.or, present.
  destruct (Band.tripDur band) as [[q|]| |]; cbn [truthy];
    try destruct (Qeq_bool q 0) eqn:Eq; cbn [negb truthy]; try rewrite Eq;
    cbn [negb]; try (split; [reflexivity|assumption]);
    destruct (Route.tripDuration route) as [[q'|]| |]; cbn [truthy];
    try destruct (Qeq_bool q' 0) eqn:Eq'; cbn [negb truthy];
    try (split; [reflexivity|assumption]);
    split; reflexivity.
Qed.

(** The loop only reads its counter through ToNumber. *)
Lemma departures_toNumber (fuel : nat) (dep : value) (band : Band.t)
      (dur simTime : value) (out : list bus) :
  departures fuel dep band dur simTime out =
  departures fuel (Num (toNumber dep)) band dur simTime out.
Proof.
  destruct fuel as [|fuel]; reflexivity.
Qed.

Lemma departures_not_before (fuel : nat) (dep : value) (band : Band.t)
      (dur simTime : value) (out : list bus) :
  JS.lt dep (Band.endSec band) = false ->
  departures (S fuel) dep band dur simTime out = Some out.
Proof.
  intro H. cbn [departures]. rewrite H. reflexivity.
Qed.

(** A band whose headway is not a number: the loop has one turn. *)
Lemma bandStep_nan (route : Route.t) (t : Q) (band : Band.t) (s e : Q)
      (out : list bus) :
  toNumber (Band.headway band) = NaN ->
  toNumber (Band.startSec band) = Fin s ->
  toNumber (Band.endSec band) = Fin e ->
  let dur := tripDurationOf route band in
  bandStep 1 route (lit t) band out = (if Qlt_bool s e then None else Some out)
  /\ forall fuel,
       bandStep (S (S fuel)) route (lit t) band out =
       Some (if Qlt_bool s e && activeAt t dur s
             then out ++ [mkBus (lit ((t - s) / dur))] else out).
Proof.
  intros Hh Hs He dur. destruct (dur_is route band) as [Hdur Hd].
  fold dur in Hdur, Hd.
  assert (Hguard : JS.le (Band.headway band) (lit 0) = false)
    by (unfold JS.le; rewrite Hh; reflexivity).
  unfold bandStep. rewrite Hguard, Hdur. split.
  - cbn [departures]. unfold JS.lt. rewrite Hs, He. cbn [nlt].
    destruct (Qlt_bool s e); reflexivity.
  - intro fuel. cbn [departures].
    unfold JS.lt, JS.gt, JS.add, JS.sub, JS.div, ngt, lit. cbn [toNumber].
    rewrite Hs, He, Hh. cbn [toNumber nlt nadd nsub ndiv]. rewrite Hd.
    destruct (Qlt_bool s e); [|reflexivity]. cbn [andb].
    unfold activeAt, Qlt_bool. rewrite <- negb_andb.
    destruct (Qle_bool 0 (t - s) && Qle_bool (t - s) dur); reflexivity.
Qed.

Lemma bandStep_expected (route : Route.t) (t : Q) (band : Band.t)
      (out : list bus) (fuel : nat) :
  (fuelFor band <= fuel)%nat ->
  exists l,
    bandStep fuel route (lit t) band out = Some (out ++ l) /\
    matches l (expected route t band).
Proof.
  intro Hfuel. unfold expected, fuelFor in *.
  destruct (toNumber (Band.headway band)) as [h|] eqn:Hh.
  - unfold bandStep, JS.le. rewrite Hh. cbn [toNumber lit nle].
    destruct (Qle_bool h 0) eqn:Hle.
    + exists []. rewrite app_nil_r. split; [reflexivity|].
      apply Qle_bool_iff in Hle.
      assert (Hn : Qlt_bool 0 h = false) by (apply Qlt_bool_false_iff; exact Hle).
      rewrite Hn. destruct (toNumber (Band.startSec band)); [|constructor].
      destruct (toNumber (Band.endSec band)); constructor.
    + apply Qle_bool_false_iff in Hle.
      assert (Hp : Qlt_bool 0 h = true) by (apply Qlt_bool_iff; exact Hle).
      rewrite Hp.
      destruct (dur_is route band) as [-> Hd].
      rewrite departures_toNumber.
      destruct (toNumber (Band.startSec band)) as [s|] eqn:Hs.
      * destruct (toNumber (Band.endSec band)) as [e|] eqn:He.
        -- destruct (departures_run band s e h (tripDurationOf route band) t
                       He Hh Hle Hd (departureCount s e h) 0 s out fuel)
             as (l & Hl & Hm); [reflexivity| |lia|].
           { unfold departure. cbn. ring. }
           exists l. split; assumption.
        -- destruct fuel as [|fuel]; [lia|].
           exists []. rewrite app_nil_r. split; [|constructor].
           apply departures_not_before. unfold JS.lt. rewrite He. reflexivity.
      * destruct fuel as [|fuel]; [lia|].
        exists []. rewrite app_nil_r. split; [|constructor].
        destruct (toNumber (Band.endSec band));
          apply departures_not_before; reflexivity.
  - destruct fuel as [|[|fuel]]; try lia.
    destruct (toNumber (Band.startSec band)) as [s|] eqn:Hs.
    + destruct (toNumber (Band.endSec band)) as [e|] eqn:He.
      * destruct (bandStep_nan route t band s e out Hh Hs He) as [_ Hrun].
        rewrite Hrun. unfold single.
        destruct (Qlt_bool s e && activeAt t (tripDurationOf route band) s).
        -- eexists. split; [reflexivity|].
           constructor; [|constructor]. eexists. split; reflexivity.
        -- exists []. rewrite app_nil_r. split; [reflexivity|constructor].
      * exists []. rewrite app_nil_r. split; [|constructor].
        unfold bandStep, JS.le. rewrite Hh. cbn [nle].
        apply departures_not_before. unfold JS.lt. rewrite He.
        destruct (toNumber (Band.startSec band)); reflexivity.
    + exists []. rewrite app_nil_r. split; [|constructor].
      unfold bandStep, JS.le. rewrite Hh. cbn [nle].
      apply departures_not_before. unfold JS.lt. rewrite Hs. reflexivity.
Qed.

Lemma bands_expected (route : Route.t) (t : Q) (freqs : list Band.t) :
  forall (fuel : nat) (out : list bus),
    (fuelForAll freqs <= fuel)%nat ->
    exists l,
      bands fuel route (lit t) freqs out = Some (out ++ l) /\
      matches l (flat_map (expected route t) freqs).
Proof.
  induction freqs as [|band rest IH]; intros fuel out Hfuel.
  - exists []. rewrite app_nil_r. split; [reflexivity|constructor].
  - cbn [fuelForAll fold_right] in Hfuel. fold (fuelForAll rest) in Hfuel.
    destruct (bandStep_expected route t band out fuel) as (l1 & H1 & M1);
      [lia|].
    destruct (IH fuel (out ++ l1)) as (l2 & H2 & M2); [lia|].
    exists (l1 ++ l2). cbn [bands flat_map]. rewrite H1, H2, app_assoc.
    split; [reflexivity|]. apply Forall2_app; assumption.
Qed.

End ActiveBuses.

(** C1. For a route and a time [t], with enough fuel [activeBuses] returns,
    and what it returns is, band after band: for a band with a positive
    headway, one vehicle for each departure [dep = startSec + k * headway]
    with [dep < endSec] (that is, [k < departureCount]) and
    [0 <= t - dep <= tripDuration], with progress [(t - dep) / tripDuration],
    the trip duration being the band's own if it has one, else the route's,
    else 1800; nothing for a band whose headway is at most 0. A route without
    bands has no vehicle. *)
Theorem activeBuses_one_vehicle_per_departure (route : Route.t) (t : Q) :
  (forall freqs,
      Route.frequencies route = Some freqs ->
      forall fuel, (EngineSpec.fuelForAll freqs <= fuel)%nat ->
        exists out,
          Engine.activeBuses fuel route (lit t) = Some out /\
          EngineSpec.matches out (flat_map (EngineSpec.expected route t) freqs))
  /\ (forall band s e h,
         toNumber (Band.startSec band) = Fin s ->
         toNumber (Band.endSec band) = Fin e ->
         toNumber (Band.headway band) = Fin h ->
         0 < h ->
         let dur := EngineSpec.tripDurationOf route band in
         EngineSpec.expected route t band =
           map (fun dep => (t - dep) / dur)
               (filter (fun dep => Qle_bool 0 (t - dep) && Qle_bool (t - dep) dur)
                       (map (fun k => s + inject_Z (Z.of_nat k) * h)
                            (seq 0 (EngineSpec.departureCount s e h))))
         /\ forall k, (k < EngineSpec.departureCount s e h)%nat <->
                      s + inject_Z (Z.of_nat k) * h < e)
  /\ (forall band h,
         toNumber (Band.headway band) = Fin h ->
         h <= 0 ->
         EngineSpec.expected route t band = [] /\
         forall fuel out,
           Engine.bandStep fuel route (lit t) band out = Some out)
  /\ (Route.frequencies route = None \/ Route.frequencies route = Some [] ->
      forall fuel, Engine.activeBuses fuel route (lit t) = Some []).
Proof.
  split; [|split; [|split]].
  - intros freqs Hf fuel Hfuel.
    destruct (bands_expected route t freqs fuel [] Hfuel) as (l & Hl & Hm).
    exists l. split; [|exact Hm].
    unfold Engine.activeBuses. rewrite Hf.
    destruct freqs; [inversion Hm; reflexivity|exact Hl].
  - intros band s e h Hs He Hh Hpos dur. split.
    + unfold EngineSpec.expected. rewrite Hs, He, Hh.
      assert (Hp : Qlt_bool 0 h = true) by (apply Qlt_bool_iff; assumption).
      rewrite Hp. reflexivity.
    + intro k. symmetry. apply (departure_before_end s e h Hpos).
  - intros band h Hh Hle. split.
    + unfold EngineSpec.expected. rewrite Hh.
      assert (Hn : Qlt_bool 0 h = false) by (apply Qlt_bool_false_iff; assumption).
      rewrite Hn. destruct (toNumber (Band.startSec band)); [|reflexivity].
      destruct (toNumber (Band.endSec band)); reflexivity.
    + intros fuel out. unfold Engine.bandStep, JS.le. rewrite Hh.
      cbn [toNumber lit nle]. apply Qle_bool_iff in Hle. rewrite Hle. reflexivity.
  - intros [Hf|Hf] fuel; unfold Engine.activeBuses; rewrite Hf; reflexivity.
Qed.

Lemma activeBuses_one_vehicle_per_departure_witness :
  (exists out,
      Engine.activeBuses 7 Sample.route1 (lit 29100) = Some out /\
      EngineSpec.matches out
        (flat_map (EngineSpec.expected Sample.route1 29100) [Sample.band1]))
  /\ (forall k, (k < EngineSpec.departureCount 28800 32400 600)%nat <->
                28800 + inject_Z (Z.of_nat k) * 600 < 32400)
  /\ Engine.bandStep 0 Sample.route1 (lit 29100) Sample.bandZero [] = Some []
  /\ Engine.activeBuses 0 (Sample.routeOf []) (lit 29100) = Some [].
Proof.
  split; [|split; [|split]].
  - apply (proj1 (activeBuses_one_vehicle_per_departure Sample.route1 29100)
                 [Sample.band1]).
    + reflexivity.
    + vm_compute. lia.
  - apply (proj2 (proj1 (proj2
             (activeBuses_one_vehicle_per_departure Sample.route1 29100))
             Sample.band1 28800 32400 600 eq_refl eq_refl eq_refl eq_refl)).
  - apply (proj2 (proj1 (proj2 (proj2
             (activeBuses_one_vehicle_per_departure Sample.route1 29100)))
             Sample.bandZero 0 eq_refl (Qle_refl 0))).
  - apply (proj2 (proj2 (proj2
             (activeBuses_one_vehicle_per_departure (Sample.routeOf []) 29100)))).
    right. reflexivity.
Defined.

(** More fuel does not change a result. *)
Lemma departures_fuel_mono (band : Band.t) (dur simTime : value) (fuel : nat) :
  forall (dep : value) (out res : list Engine.bus) (fuel' : nat),
    Engine.departures fuel dep band dur simTime out = Some res ->
    (fuel <= fuel')%nat ->
    Engine.departures fuel' dep band dur simTime out = Some res.
Proof.
  induction fuel as [|fuel IH]; intros dep out res fuel' H Hle; [discriminate|].
  destruct fuel' as [|fuel']; [lia|].
  cbn [Engine.departures] in *.
  destruct (JS.lt dep (Band.endSec band)); [|exact H].
  apply IH; [exact H|lia].
Qed.

Lemma bandStep_fuel_mono (route : Route.t) (simTime : value) (band : Band.t)
      (out res : list Engine.bus) (fuel fuel' : nat) :
  Engine.bandStep fuel route simTime band out = Some res ->
  (fuel <= fuel')%nat ->
  Engine.bandStep fuel' route simTime band out = Some res.
Proof.
  unfold Engine.bandStep. destruct (JS.le (Band.headway band) (lit 0));
    [intros; assumption|]. apply departures_fuel_mono.
Qed.

Lemma bands_fuel_mono (route : Route.t) (simTime : value) (fuel fuel' : nat)
      (freqs : list Band.t) :
  forall (out res : list Engine.bus),
    Engine.bands fuel route simTime freqs out = Some res ->
    (fuel <= fuel')%nat ->
    Engine.bands fuel' route simTime freqs out = Some res.
Proof.
  induction freqs as [|band rest IH]; intros out res H Hle; [exact H|].
  cbn [Engine.bands] in *.
  destruct (Engine.bandStep fuel route simTime band out) as [out'|] eqn:E;
    [|discriminate].
  rewrite (bandStep_fuel_mono _ _ _ _ _ _ _ E Hle). apply IH; assumption.
Qed.

Lemma activeBuses_fuel_mono (route : Route.t) (simTime : value)
      (res : list Engine.bus) (fuel fuel' : nat) :
  Engine.activeBuses fuel route simTime = Some res ->
  (fuel <= fuel')%nat ->
  Engine.activeBuses fuel' route simTime = Some res.
Proof.
  unfold Engine.activeBuses. destruct (Route.frequencies route) as [[|b l]|];
    try (intros; assumption). apply bands_fuel_mono.
Qed.

(** C2, as stated, fails: at [t = 29100] the single vehicle of the example band
    is 300 seconds into a trip of 1800, and its progress is not 0.5. *)
Lemma example_band_progress_is_not_half :
  exists p,
    Engine.activeBuses 7 Sample.route1 (lit 29100) = Some [Engine.mkBus (lit p)]
    /\ ~ p == 0.5.
Proof.
  exists (300 # 1800). split; [reflexivity|]. intro H. discriminate H.
Qed.

(** C2, amended. For the band 28800..32400 with headway 600 and trip duration
    1800: at [t = 29100] there is exactly one vehicle, with progress
    300/1800 = 1/6; at [t = 28799] there is none; at [t = 30900] the vehicles
    are those of the departures 29400, 30000 and 30600, and the departure
    28800 is no longer active. *)
Theorem example_band_vehicles (fuel : nat) :
  (7 <= fuel)%nat ->
  (exists p,
      Engine.activeBuses fuel Sample.route1 (lit 29100)
      = Some [Engine.mkBus (lit p)] /\ p == 1 # 6)
  /\ Engine.activeBuses fuel Sample.route1 (lit 28799) = Some []
  /\ Engine.activeBuses fuel Sample.route1 (lit 30900)
     = Some [Engine.mkBus (lit ((30900 - 29400) / 1800));
             Engine.mkBus (lit ((30900 - 30000) / 1800));
             Engine.mkBus (lit ((30900 - 30600) / 1800))]
  /\ EngineSpec.activeAt 30900 1800 28800 = false
  /\ EngineSpec.activeAt 28799 1800 28800 = false.
Proof.
  intro Hfuel. repeat split.
  - exists (300 # 1800). split; [|reflexivity].
    apply activeBuses_fuel_mono with (fuel := 7%nat); [reflexivity|exact Hfuel].
  - apply activeBuses_fuel_mono with (fuel := 7%nat); [reflexivity|exact Hfuel].
  - apply activeBuses_fuel_mono with (fuel := 7%nat); [reflexivity|exact Hfuel].
Qed.

Lemma example_band_vehicles_witness :
  Engine.activeBuses 8 Sample.route1 (lit 28799) = Some [].
Proof.
  apply (example_band_vehicles 8). lia.
Defined.

(** Through the JSON file a headway that is [NaN] reaches the engine as
    [null], and [null <= 0] holds: that band is skipped. *)
Lemma bandStep_null_headway (route : Route.t) (simTime : value) (band : Band.t)
      (fuel : nat) (out : list Engine.bus) :
  Band.headway band = Num NaN ->
  Engine.bandStep fuel route simTime (bandViaJSON band) out = Some out.
Proof.
  intro H. unfold Engine.bandStep, bandViaJSON. cbn [Band.headway].
  rewrite H. reflexivity.
Qed.

(** The route of [Sample.feedNaNFirst] has one band, 08:00 to 09:00, whose
    headway is [NaN] in the preprocessor; read back from [routes.json] it
    gives no vehicle at 08:05, five minutes into a trip of 30 minutes. *)
Lemma unparsed_headway_band_gives_no_vehicle :
  (exists r b,
      fst (Pre.main Sample.feedNaNFirst) = [r]
      /\ Route.frequencies r = Some [b]
      /\ Band.headway b = Num NaN
      /\ Band.startSec b = lit 28800
      /\ Band.endSec b = lit 32400
      /\ EngineSpec.tripDurationOf r b == 1800)
  /\ map (fun r => Engine.activeBuses 7 (routeViaJSON r) (lit 29100))
         (fst (Pre.main Sample.feedNaNFirst))
     = [Some []].
Proof.
  split; [|vm_compute; reflexivity].
  eexists. eexists. split; [vm_compute; reflexivity|].
  repeat split; vm_compute; reflexivity.
Qed.

(** C10. A band whose headway is [NaN] in the preprocessor reaches the
    engine through [routes.json] with the headway [null]: the guard
    [headway <= 0] holds of it and the band adds no vehicle, whatever the
    time. Only on a band object whose headway is [NaN] itself the guard does
    not hold; then the loop tries the departure [dep = startSec] when
    [startSec < endSec] and stops after it, since [dep + NaN] is below
    nothing: one test of the loop condition (one unit of fuel) is not enough
    and two are, and the band gives one vehicle when
    [0 <= t - startSec <= tripDuration] and none otherwise. *)
Theorem unparsed_headway_band_is_skipped_after_json
        (route : Route.t) (band : Band.t) (s e t : Q) (out : list Engine.bus) :
  Band.headway band = Num NaN ->
  toNumber (Band.startSec band) = Fin s ->
  toNumber (Band.endSec band) = Fin e ->
  let dur := EngineSpec.tripDurationOf route band in
  (Band.headway (bandViaJSON band) = Null
   /\ JS.le (Band.headway (bandViaJSON band)) (lit 0) = true
   /\ forall fuel simTime acc,
       Engine.bandStep fuel route simTime (bandViaJSON band) acc = Some acc)
  /\ JS.le (Band.headway band) (lit 0) = false
  /\ (s < e ->
      Engine.bandStep 1 route (lit t) band out = None
      /\ forall fuel, (2 <= fuel)%nat ->
           Engine.bandStep fuel route (lit t) band out =
           Some (if Qle_bool 0 (t - s) && Qle_bool (t - s) dur
                 then out ++ [Engine.mkBus (lit ((t - s) / dur))]
                 else out))
  /\ (e <= s ->
      forall fuel, (1 <= fuel)%nat ->
        Engine.bandStep fuel route (lit t) band out = Some out).
Proof.
  intros Hh Hs He dur.
  assert (Hn : toNumber (Band.headway band) = NaN) by (rewrite Hh; reflexivity).
  destruct (bandStep_nan route t band s e out Hn Hs He) as [Hone Hrun].
  fold dur in Hrun.
  split.
  { split; [|split].
    - unfold bandViaJSON. cbn [Band.headway]. rewrite Hh. reflexivity.
    - unfold bandViaJSON. cbn [Band.headway]. rewrite Hh. reflexivity.
    - intros fuel simTime acc.
      exact (bandStep_null_headway route simTime band fuel acc Hh). }
  split; [unfold JS.le; rewrite Hn; reflexivity|]. split.
  - intro Hlt. apply Qlt_bool_iff in Hlt. rewrite Hlt in Hone, Hrun.
    split; [exact Hone|].
    intros fuel Hfuel. destruct fuel as [|[|fuel]]; [lia|lia|].
    rewrite Hrun. reflexivity.
  - intros Hge fuel Hfuel. apply Qlt_bool_false_iff in Hge.
    rewrite Hge in Hone.
    apply bandStep_fuel_mono with (fuel := 1%nat); [exact Hone|exact Hfuel].
Qed.

Lemma unparsed_headway_band_is_skipped_after_json_witness :
  Engine.bandStep 2 (Sample.routeOf [Sample.bandNaN]) (lit 29100)
                  (bandViaJSON Sample.bandNaN) []
  = Some []
  /\ Engine.bandStep 2 (Sample.routeOf [Sample.bandNaN]) (lit 29100)
                     Sample.bandNaN []
     = Some [Engine.mkBus (lit ((29100 - 28800) / 1800))].
Proof.
  pose proof (unparsed_headway_band_is_skipped_after_json
                (Sample.routeOf [Sample.bandNaN]) Sample.bandNaN
                28800 32400 29100 [] eq_refl eq_refl eq_refl) as H.
  split.
  - exact (proj2 (proj2 (proj1 H)) 2%nat (lit 29100) []).
  - apply (proj2 (proj1 (proj2 (proj2 H)) eq_refl) 2%nat). lia.
Defined.

(** ** Objects used as maps *)

Section ObjFacts.

Import PreSpec.

Variables K A : Type.
Variable eqb : K -> K -> bool.
Hypothesis eqb_refl : forall k, eqb k k = true.
Hypothesis eqb_sym : forall k k', eqb k k' = eqb k' k.
Hypothesis eqb_trans :
  forall k1 k2 k3, eqb k1 k2 = true -> eqb k2 k3 = true -> eqb k1 k3 = true.

Lemma eqb_false_left (k1 k2 k3 : K) :
  eqb k1 k2 = true -> eqb k1 k3 = false -> eqb k2 k3 = false.
Proof.
  intros H12 H13. destruct (eqb k2 k3) eqn:E; [|reflexivity].
  rewrite (eqb_trans _ _ _ H12 E) in H13. discriminate.
Qed.

Lemma get_Some_In (o : obj K A) (k : K) (a : A) :
  get eqb o k = Some a -> exists k', In (k', a) o /\ eqb k k' = true.
Proof.
  induction o as [|[k1 a1] o IH]; cbn [get]; [discriminate|].
  destruct (eqb k k1) eqn:E.
  - intros [= <-]. exists k1. split; [left; reflexivity|exact E].
  - intro H. destruct (IH H) as (k' & Hin & Hk). exists k'.
    split; [right; exact Hin|exact Hk].
Qed.

Lemma get_None_In (o : obj K A) (k k' : K) (a : A) :
  get eqb o k = None -> In (k', a) o -> eqb k k' = false.
Proof.
  induction o as [|[k1 a1] o IH]; cbn [get]; [intros _ []|].
  destruct (eqb k k1) eqn:E; [discriminate|].
  intros H [[= <- <-]|Hin]; [exact E|exact (IH H Hin)].
Qed.

Lemma get_set_same (o : obj K A) (k k2 : K) (a : A) :
  eqb k2 k = true -> get eqb (set eqb o k a) k2 = Some a.
Proof.
  intro E. induction o as [|[k1 a1] o IH]; cbn [set get].
  - rewrite E. reflexivity.
  - destruct (eqb k k1) eqn:E1; cbn [get].
    + rewrite (eqb_trans _ _ _ E E1). reflexivity.
    + destruct (eqb k2 k1) eqn:E2; [|exact IH].
      rewrite (eqb_sym k2 k) in E.
      rewrite (eqb_trans _ _ _ E E2) in E1. discriminate.
Qed.

Lemma get_set_other (o : obj K A) (k k2 : K) (a : A) :
  eqb k2 k = false -> get eqb (set eqb o k a) k2 = get eqb o k2.
Proof.
  intro E. induction o as [|[k1 a1] o IH]; cbn [set get].
  - rewrite E. reflexivity.
  - destruct (eqb k k1) eqn:E1; cbn [get].
    + destruct (eqb k2 k1) eqn:E2; [|reflexivity].
      rewrite (eqb_sym k k1) in E1.
      rewrite (eqb_trans _ _ _ E2 E1) in E. discriminate.
    + destruct (eqb k2 k1); [reflexivity|exact IH].
Qed.

(** What [set] leaves in the object, when no key is there twice. *)
Lemma In_set (o : obj K A) (k k' : K) (a a' : A) :
  distinct eqb (keys o) ->
  In (k', a') (set eqb o k a) ->
  (a' = a /\ eqb k k' = true /\
   (get eqb o k = None \/ exists m, get eqb o k = Some m /\ In (k', m) o))
  \/ (In (k', a') o /\ eqb k k' = false).
Proof.
  induction o as [|[k1 a1] o IH]; cbn [set get keys map distinct fst].
  - intros _ [[= <- <-]|[]]. left. repeat split; [apply eqb_refl|left; reflexivity].
  - intros [Hk1 Hd]. destruct (eqb k k1) eqn:E1.
    + intros [[= <- <-]|Hin].
      * left. repeat split; [exact E1|]. right. exists a1.
        split; [reflexivity|left; reflexivity].
      * right. split; [right; exact Hin|].
        rewrite Forall_forall in Hk1.
        assert (Hk' : eqb k1 k' = false).
        { apply Hk1. change k' with (fst (k', a')). apply in_map. exact Hin. }
        apply (eqb_false_left k1 k k'); [|exact Hk'].
        rewrite (eqb_sym k1 k). exact E1.
    + intros [[= <- <-]|Hin].
      * right. split; [left; reflexivity|exact E1].
      * destruct (IH Hd Hin) as [(-> & Ek & Hg)|[Hin' Ek]].
        -- left. repeat split; [exact Ek|].
           destruct Hg as [Hg|(m & Hg & Hm)]; [left; exact Hg|].
           right. exists m. split; [exact Hg|right; exact Hm].
        -- right. split; [right; exact Hin'|exact Ek].
Qed.

Lemma In_set_new (o : obj K A) (k : K) (a : A) :
  exists k', In (k', a) (set eqb o k a) /\ eqb k k' = true.
Proof.
  induction o as [|[k1 a1] o IH]; cbn [set].
  - exists k. split; [left; reflexivity|apply eqb_refl].
  - destruct (eqb k k1) eqn:E1.
    + exists k1. split; [left; reflexivity|exact E1].
    + destruct IH as (k' & Hin & Ek). exists k'. split; [right; exact Hin|exact Ek].
Qed.

Lemma In_set_old (o : obj K A) (k k' : K) (a a' : A) :
  In (k', a') o -> eqb k k' = false -> In (k', a') (set eqb o k a).
Proof.
  induction o as [|[k1 a1] o IH]; cbn [set]; [intros []|].
  intros [[= -> ->]|Hin] Ek.
  - rewrite Ek. left. reflexivity.
  - destruct (eqb k k1); right; [exact Hin|exact (IH Hin Ek)].
Qed.

Lemma keys_set (o : obj K A) (k : K) (a : A) :
  keys (set eqb o k a) =
  match get eqb o k with Some _ => keys o | None => keys o ++ [k] end.
Proof.
  induction o as [|[k1 a1] o IH]; cbn [set get keys map fst app]; [reflexivity|].
  destruct (eqb k k1) eqn:E1; cbn [map fst]; [reflexivity|].
  fold (keys (set eqb o k a)). rewrite IH.
  destruct (get eqb o k); reflexivity.
Qed.

Lemma distinct_snoc (ks : list K) (k : K) :
  distinct eqb ks -> Forall (fun k' => eqb k k' = false) ks ->
  distinct eqb (ks ++ [k]).
Proof.
  induction ks as [|k1 ks IH]; cbn [distinct app].
  - intros _ _. split; [constructor|exact I].
  - intros [H1 Hd] Hk. inversion Hk as [|? ? Hk1 Hks]; subst. split.
    + apply Forall_app. split; [exact H1|].
      constructor; [|constructor]. rewrite (eqb_sym k1 k). exact Hk1.
    + apply IH; assumption.
Qed.

Lemma distinct_set (o : obj K A) (k : K) (a : A) :
  distinct eqb (keys o) -> distinct eqb (keys (set eqb o k a)).
Proof.
  intro Hd. rewrite keys_set. destruct (get eqb o k) eqn:G; [exact Hd|].
  apply distinct_snoc; [exact Hd|]. apply Forall_forall. intros k' Hin.
  apply in_map_iff in Hin. destruct Hin as ([k2 a2] & <- & Hin).
  exact (get_None_In _ _ _ _ G Hin).
Qed.

End ObjFacts.

(** ** Sorting with a comparator *)

Section SortFacts.

Import PreSpec.

Variable A : Type.
Variable cmp : A -> A -> value.

Lemma In_insert (x y : A) (l : list A) :
  In x (insert cmp y l) <-> x = y \/ In x l.
Proof.
  induction l as [|z l IH]; cbn [insert].
  - cbn. intuition congruence.
  - destruct (JS.gt (cmp y z) (lit 0)); cbn [In]; [rewrite IH|];
      intuition congruence.
Qed.

Lemma sort_cons (x : A) (l : list A) :
  sort cmp (x :: l) = insert cmp x (sort cmp l).
Proof. reflexivity. Qed.

Lemma In_sort (x : A) (l : list A) : In x (sort cmp l) <-> In x l.
Proof.
  induction l as [|y l IH]; [reflexivity|].
  rewrite sort_cons, In_insert, IH. cbn [In]. intuition congruence.
Qed.

Section Distinct.
Variable eqb : A -> A -> bool.
Hypothesis eqb_sym : forall a b, eqb a b = eqb b a.

Lemma distinct_insert (x : A) (l : list A) :
  distinct eqb l -> Forall (fun y => eqb x y = false) l ->
  distinct eqb (insert cmp x l).
Proof.
  induction l as [|z l IH]; cbn [insert distinct].
  - intros _ _. split; [constructor|exact I].
  - intros [Hz Hd] Hx. inversion Hx as [|? ? Hxz Hxl]; subst.
    destruct (JS.gt (cmp x z) (lit 0)); cbn [distinct].
    + split; [|apply IH; assumption].
      apply Forall_forall. intros y Hy. apply (proj1 (In_insert _ _ _)) in Hy.
      destruct Hy as [->|Hy]; [rewrite (eqb_sym z x); exact Hxz|].
      rewrite Forall_forall in Hz. exact (Hz y Hy).
    + repeat split; [constructor|..]; assumption.
Qed.

Lemma distinct_sort (l : list A) : distinct eqb l -> distinct eqb (sort cmp l).
Proof.
  induction l as [|x l IH]; [exact (fun H => H)|].
  rewrite sort_cons. cbn [distinct].
  intros [Hx Hd]. apply distinct_insert; [exact (IH Hd)|].
  apply Forall_forall. intros y Hy. apply (proj1 (In_sort _ _)) in Hy.
  rewrite Forall_forall in Hx. exact (Hx y Hy).
Qed.
End Distinct.

Section Ordered.
Variable P : A -> Prop.
Variable R : A -> A -> Prop.
Hypothesis R_trans : forall a b c, R a b -> R b c -> R a c.
Hypothesis cmp_pos : forall a b, P a -> P b -> JS.gt (cmp a b) (lit 0) = true -> R b a.
Hypothesis cmp_nonpos :
  forall a b, P a -> P b -> JS.gt (cmp a b) (lit 0) = false -> R a b.

Lemma insert_sorted (x : A) (l : list A) :
  P x -> Forall P l -> StronglySorted R l -> StronglySorted R (insert cmp x l).
Proof.
  intros Px. induction l as [|z l IH]; intros Pl Hs; cbn [insert].
  - constructor; constructor.
  - inversion Pl as [|? ? Pz Pl']; subst.
    inversion Hs as [|? ? Hs' Hz]; subst.
    destruct (JS.gt (cmp x z) (lit 0)) eqn:E.
    + constructor; [apply IH; assumption|].
      apply Forall_forall. intros y Hy. apply (proj1 (In_insert _ _ _)) in Hy.
      destruct Hy as [->|Hy]; [exact (cmp_pos _ _ Px Pz E)|].
      rewrite Forall_forall in Hz. exact (Hz y Hy).
    + constructor; [exact Hs|].
      pose proof (cmp_nonpos _ _ Px Pz E) as Hxz.
      constructor; [exact Hxz|].
      apply Forall_forall. intros y Hy. rewrite Forall_forall in Hz.
      exact (R_trans _ _ _ Hxz (Hz y Hy)).
Qed.

Lemma sort_sorted (l : list A) : Forall P l -> StronglySorted R (sort cmp l).
Proof.
  induction l as [|x l IH]; [constructor|].
  rewrite sort_cons.
  intro Pl. inversion Pl as [|? ? Px Pl']; subst.
  apply insert_sorted; [exact Px| |exact (IH Pl')].
  apply Forall_forall. intros y Hy. apply (proj1 (In_sort _ _)) in Hy.
  rewrite Forall_forall in Pl'. exact (Pl' y Hy).
Qed.
End Ordered.

End SortFacts.

(** ** The merge of the frequency bands *)

Lemma sameText_refl (a : value) : Pre.sameText a a = true.
Proof. destruct a as [[q|]| |]; cbn; try reflexivity. apply Qeq_bool_refl. Qed.

Lemma sameText_sym (a b : value) : Pre.sameText a b = Pre.sameText b a.
Proof.
  destruct a as [[x|]| |], b as [[y|]| |]; cbn; try reflexivity.
  apply Qeq_bool_comm.
Qed.

Lemma sameText_trans (a b c : value) :
  Pre.sameText a b = true -> Pre.sameText b c = true -> Pre.sameText a c = true.
Proof.
  destruct a as [[x|]| |], b as [[y|]| |], c as [[z|]| |]; cbn;
    try discriminate; try reflexivity.
  apply Qeq_bool_trans.
Qed.

Lemma sameWindow_refl (k : Pre.window) : Pre.sameWindow k k = true.
Proof. unfold Pre.sameWindow. rewrite !sameText_refl. reflexivity. Qed.

Lemma sameWindow_sym (k k' : Pre.window) : Pre.sameWindow k k' = Pre.sameWindow k' k.
Proof.
  unfold Pre.sameWindow.
  rewrite (sameText_sym (fst k)), (sameText_sym (snd k)). reflexivity.
Qed.

Lemma sameWindow_trans (k1 k2 k3 : Pre.window) :
  Pre.sameWindow k1 k2 = true -> Pre.sameWindow k2 k3 = true ->
  Pre.sameWindow k1 k3 = true.
Proof.
  unfold Pre.sameWindow. rewrite !andb_true_iff. intros [H1 H2] [H3 H4].
  split; eapply sameText_trans; eassumption.
Qed.

Lemma distinct_In_same {K A : Type} (eqb : K -> K -> bool)
      (eqb_sym : forall k k', eqb k k' = eqb k' k)
      (o : obj K A) (k k' : K) (a a' : A) :
  PreSpec.distinct eqb (keys o) ->
  In (k, a) o -> In (k', a') o -> eqb k k' = true -> (k, a) = (k', a').
Proof.
  induction o as [|[k0 a0] o IH]; [intros _ []|].
  cbn [keys map fst PreSpec.distinct]. intros [H0 Hd] Hin Hin' E.
  rewrite Forall_forall in H0.
  assert (Hkey : forall k1 a1, In (k1, a1) o -> eqb k0 k1 = false).
  { intros k1 a1 H1. apply H0. change k1 with (fst (k1, a1)). apply in_map. exact H1. }
  destruct Hin as [Heq|Hin], Hin' as [Heq'|Hin'].
  - congruence.
  - injection Heq as <- <-. rewrite (Hkey _ _ Hin') in E. discriminate.
  - injection Heq' as <- <-. rewrite (eqb_sym k k0), (Hkey _ _ Hin) in E.
    discriminate.
  - exact (IH Hd Hin Hin' E).
Qed.

Section Merge.

Import Pre PreSpec.

Lemma le_numeric_refl (v : value) : numeric v -> JS.le v v = true.
Proof.
  intros [q Hq]. unfold JS.le. rewrite Hq. cbn. apply Qle_bool_iff. lra.
Qed.

Lemma lt_le_trans_value (a b c : value) :
  JS.lt a b = true -> JS.le b c = true -> JS.le a c = true.
Proof.
  unfold JS.lt, JS.le.
  destruct (toNumber a), (toNumber b), (toNumber c); cbn; try discriminate.
  rewrite Qlt_bool_iff, !Qle_bool_iff. lra.
Qed.

Lemma not_lt_le_value (a b : value) :
  numeric a -> numeric b -> JS.lt a b = false -> JS.le b a = true.
Proof.
  intros [x Hx] [y Hy]. unfold JS.lt, JS.le. rewrite Hx, Hy. cbn.
  rewrite Qlt_bool_false_iff, Qle_bool_iff. exact (fun H => H).
Qed.

Lemma lt_numeric (a b : value) : JS.lt a b = true -> numeric a /\ numeric b.
Proof.
  unfold JS.lt, numeric.
  destruct (toNumber a) as [x|], (toNumber b) as [y|]; cbn; try discriminate.
  intros _. split; eexists; reflexivity.
Qed.

Lemma mergeInv_nil : mergeInv [] [].
Proof.
  repeat split; intros; contradiction.
Qed.

Lemma mergeInv_set (merged : obj window Band.t) (done : list Band.t) (b : Band.t) :
  mergeInv merged done ->
  (forall m, get sameWindow merged (windowOf b) = Some m ->
             JS.lt (Band.headway b) (Band.headway m) = true) ->
  mergeInv (set sameWindow merged (windowOf b) b) (done ++ [b]).
Proof.
  intros (Hd & Hent & Hcov & Hmin) Hlt.
  pose proof (In_set window Band.t sameWindow sameWindow_refl sameWindow_sym
                     sameWindow_trans merged (windowOf b)) as Hset.
  repeat split.
  - apply distinct_set; auto using sameWindow_sym.
  - destruct (Hset k b m Hd H) as [(-> & Ek & _)|[Hin _]]; [exact Ek|].
    exact (proj1 (Hent _ _ Hin)).
  - destruct (Hset k b m Hd H) as [(-> & _ & _)|[Hin _]].
    + apply in_or_app. right. left. reflexivity.
    + apply in_or_app. left. exact (proj2 (Hent _ _ Hin)).
  - intros b' Hb'. apply in_app_or in Hb'.
    destruct (In_set_new window Band.t sameWindow sameWindow_refl merged
                         (windowOf b) b) as (kn & Hn & En).
    destruct Hb' as [Hb'|[<-|[]]]; [|exists kn, b; split; assumption].
    destruct (Hcov _ Hb') as (k & m & Hin & Ek).
    destruct (sameWindow (windowOf b) k) eqn:Ew.
    + exists kn, b. split; [exact Hn|].
      apply sameWindow_trans with (k2 := k); [exact Ek|].
      apply sameWindow_trans with (k2 := windowOf b); [|exact En].
      rewrite sameWindow_sym. exact Ew.
    + exists k, m. split; [|exact Ek]. apply In_set_old; assumption.
  - intros k m b' Hin Hb' Ek Nm Nb'. apply in_app_or in Hb'.
    destruct (Hset k b m Hd Hin) as [(-> & Ew & Hg)|[Hold Ew]].
    + destruct Hb' as [Hb'|[<-|[]]]; [|apply le_numeric_refl; exact Nm].
      destruct Hg as [Hg|(m0 & Hg & Hm0)].
      * destruct (Hcov _ Hb') as (k1 & m1 & Hin1 & Ek1).
        pose proof (get_None_In _ _ _ _ _ _ _ Hg Hin1) as Hno.
        assert (Hyes : sameWindow (windowOf b) k1 = true).
        { apply sameWindow_trans with (k2 := k); [exact Ew|].
          apply sameWindow_trans with (k2 := windowOf b'); [|exact Ek1].
          rewrite sameWindow_sym. exact Ek. }
        rewrite Hyes in Hno. discriminate.
      * pose proof (Hlt _ Hg) as Hl.
        apply lt_le_trans_value with (b := Band.headway m0); [exact Hl|].
        apply (Hmin k m0 b' Hm0 Hb' Ek); [|exact Nb'].
        exact (proj2 (lt_numeric _ _ Hl)).
    + destruct Hb' as [Hb'|[<-|[]]]; [exact (Hmin _ _ _ Hold Hb' Ek Nm Nb')|].
      rewrite Ek in Ew. discriminate.
Qed.

Lemma mergeInv_keep (merged : obj window Band.t) (done : list Band.t)
      (b m : Band.t) :
  mergeInv merged done ->
  get sameWindow merged (windowOf b) = Some m ->
  JS.lt (Band.headway b) (Band.headway m) = false ->
  mergeInv merged (done ++ [b]).
Proof.
  intros (Hd & Hent & Hcov & Hmin) Hg Hlt.
  destruct (get_Some_In _ _ _ _ _ _ Hg) as (k1 & Hin1 & E1).
  repeat split.
  - exact Hd.
  - exact (proj1 (Hent _ _ H)).
  - apply in_or_app. left. exact (proj2 (Hent _ _ H)).
  - intros b' Hb'. apply in_app_or in Hb'.
    destruct Hb' as [Hb'|[<-|[]]]; [exact (Hcov _ Hb')|].
    exists k1, m. split; assumption.
  - intros k a b' Hin Hb' Ek Na Nb'. apply in_app_or in Hb'.
    destruct Hb' as [Hb'|[<-|[]]]; [exact (Hmin _ _ _ Hin Hb' Ek Na Nb')|].
    assert (Hsame : (k, a) = (k1, m)).
    { apply (distinct_In_same sameWindow sameWindow_sym merged); try assumption.
      apply sameWindow_trans with (k2 := windowOf b); [|exact E1].
      rewrite sameWindow_sym. exact Ek. }
    injection Hsame as -> ->.
    apply not_lt_le_value; assumption.
Qed.

Lemma mergeInv_step (merged : obj window Band.t) (done : list Band.t) (b : Band.t) :
  mergeInv merged done -> mergeInv (mergeStep merged b) (done ++ [b]).
Proof.
  intro Hinv. unfold mergeStep.
  destruct (get sameWindow merged (windowOf b)) as [m|] eqn:G.
  - destruct (JS.lt (Band.headway b) (Band.headway m)) eqn:L.
    + apply mergeInv_set; [exact Hinv|]. intros m' Hm. rewrite G in Hm. injection Hm as Hm. subst m'. exact L.
    + exact (mergeInv_keep _ _ _ _ Hinv G L).
  - apply mergeInv_set; [exact Hinv|]. intros m' H'. rewrite G in H'. discriminate.
Qed.

Lemma mergeInv_fold (bands : list Band.t) :
  forall merged done,
    mergeInv merged done ->
    mergeInv (fold_left mergeStep bands merged) (done ++ bands).
Proof.
  induction bands as [|b bands IH]; intros merged done Hinv; cbn [fold_left].
  - rewrite app_nil_r. exact Hinv.
  - replace (done ++ b :: bands) with ((done ++ [b]) ++ bands)
      by (rewrite <- app_assoc; reflexivity).
    apply IH. apply mergeInv_step. exact Hinv.
Qed.

End Merge.

Section MergeBands.

Import Pre PreSpec.

Lemma sameWindowB_sym (a b : Band.t) : sameWindowB a b = sameWindowB b a.
Proof. apply sameWindow_sym. Qed.

Lemma values_distinct (o : obj window Band.t) :
  distinct sameWindow (keys o) ->
  (forall k m, In (k, m) o -> sameWindow (windowOf m) k = true) ->
  distinct sameWindowB (values o).
Proof.
  induction o as [|[k m] o IH]; [intros; exact I|].
  cbn [keys values map fst snd distinct]. intros [Hk Hd] Hent. split.
  - apply Forall_forall. intros m' Hm'. apply in_map_iff in Hm'.
    destruct Hm' as ([k' m''] & Hs & Hin). cbn in Hs. subst m''.
    rewrite Forall_forall in Hk.
    assert (Hkk : sameWindow k k' = false).
    { apply Hk. change k' with (fst (k', m')). apply in_map. exact Hin. }
    unfold sameWindowB. destruct (sameWindow (windowOf m) (windowOf m')) eqn:E;
      [|reflexivity].
    assert (Hyes : sameWindow k k' = true).
    { apply sameWindow_trans with (k2 := windowOf m).
      - rewrite sameWindow_sym. apply Hent. left. reflexivity.
      - apply sameWindow_trans with (k2 := windowOf m'); [exact E|].
        apply Hent. right. exact Hin. }
    rewrite Hyes in Hkk. discriminate.
  - apply IH; [exact Hd|]. intros k' m' Hin. apply Hent. right. exact Hin.
Qed.

(** Among bands of pairwise different windows, at most one is in a given
    window. *)
Lemma distinct_count (w : window) (l : list Band.t) :
  distinct sameWindowB l -> (List.length (filter (inWindow w) l) <= 1)%nat.
Proof.
  induction l as [|b l IH]; cbn [distinct filter]; [cbn; lia|].
  intros [Hb Hd]. destruct (inWindow w b) eqn:E; [|exact (IH Hd)].
  assert (Hnone : filter (inWindow w) l = []).
  { clear IH Hd. induction l as [|c l IHl]; [reflexivity|].
    inversion Hb as [|? ? Hbc Hbl]; subst. cbn [filter].
    destruct (inWindow w c) eqn:Ec; [|exact (IHl Hbl)].
    unfold inWindow, sameWindowB in *.
    assert (Hyes : sameWindow (windowOf b) (windowOf c) = true).
    { apply sameWindow_trans with (k2 := w); [exact E|].
      rewrite sameWindow_sym. exact Ec. }
    rewrite Hyes in Hbc. discriminate. }
  rewrite Hnone. cbn. lia.
Qed.

Lemma startsNoLater_trans (a b c : Band.t) :
  startsNoLater a b -> startsNoLater b c -> startsNoLater a c.
Proof.
  unfold startsNoLater, JS.le.
  destruct (toNumber (Band.startSec a)), (toNumber (Band.startSec b)),
    (toNumber (Band.startSec c)); cbn; try discriminate.
  rewrite !Qle_bool_iff. lra.
Qed.

Lemma byStart_pos (a b : Band.t) :
  numeric (Band.startSec a) -> numeric (Band.startSec b) ->
  JS.gt (byStart a b) (lit 0) = true -> startsNoLater b a.
Proof.
  intros [x Hx] [y Hy]. unfold byStart, startsNoLater, JS.gt, JS.sub, JS.le, ngt.
  cbn [toNumber lit]. rewrite Hx, Hy. cbn.
  rewrite Qlt_bool_iff, Qle_bool_iff. lra.
Qed.

Lemma byStart_nonpos (a b : Band.t) :
  numeric (Band.startSec a) -> numeric (Band.startSec b) ->
  JS.gt (byStart a b) (lit 0) = false -> startsNoLater a b.
Proof.
  intros [x Hx] [y Hy]. unfold byStart, startsNoLater, JS.gt, JS.sub, JS.le, ngt.
  cbn [toNumber lit]. rewrite Hx, Hy. cbn.
  rewrite Qlt_bool_false_iff, Qle_bool_iff. lra.
Qed.

Lemma mergeBands_inv (bands : list Band.t) :
  mergeInv (fold_left mergeStep bands []) bands.
Proof. exact (mergeInv_fold bands [] [] mergeInv_nil). Qed.

Lemma In_mergeBands (bands : list Band.t) (b : Band.t) :
  In b (mergeBands bands) <->
  exists k, In (k, b) (fold_left mergeStep bands []).
Proof.
  unfold mergeBands. rewrite In_sort. unfold values. rewrite in_map_iff. split.
  - intros ([k m] & Hs & Hin). cbn in Hs. subst m. exists k. exact Hin.
  - intros [k Hin]. exists (k, b). split; [reflexivity|exact Hin].
Qed.

Lemma mergeBands_In (bands : list Band.t) (b : Band.t) :
  In b (mergeBands bands) -> In b bands.
Proof.
  intro Hb. apply In_mergeBands in Hb. destruct Hb as [k Hk].
  destruct (mergeBands_inv bands) as (_ & Hent & _).
  exact (proj2 (Hent _ _ Hk)).
Qed.

Lemma mergeBands_covers (bands : list Band.t) (b' : Band.t) :
  In b' bands ->
  exists b, In b (mergeBands bands) /\ sameWindowB b b' = true.
Proof.
  intro Hb'. destruct (mergeBands_inv bands) as (_ & Hent & Hcov & _).
  destruct (Hcov _ Hb') as (k & m & Hk & Ek).
  exists m. split; [apply In_mergeBands; exists k; exact Hk|].
  unfold sameWindowB.
  apply sameWindow_trans with (k2 := k); [exact (proj1 (Hent _ _ Hk))|].
  rewrite sameWindow_sym. exact Ek.
Qed.

End MergeBands.

(** C5, as stated, fails on a headway that did not parse: of two rows of one
    route and one window, the first with headway [NaN] and the second with
    600, the emitted band is the first, and [NaN] is not the minimum; with the
    rows in the other order the emitted headway is 600. *)
Lemma merge_keeps_first_unparsed_headway :
  map (fun r => option_map (map Band.headway) (Route.frequencies r))
      (fst (Pre.main Sample.feedNaNFirst)) = [Some [Num NaN]]
  /\ map (fun r => option_map (map Band.headway) (Route.frequencies r))
         (fst (Pre.main Sample.feedNaNLast)) = [Some [lit 600]]
  /\ JS.le (Num NaN) (lit 600) = false.
Proof.
  repeat split; vm_compute; reflexivity.
Qed.

(** C5, amended. After the merge a route has at most one band for each
    window; every band left is one of the input bands, and every input window
    is still there; when the headways of the input bands of a window are
    numbers, the band left for it has the least of them; and when the start
    times are numbers the list is in ascending order of [startSec]. *)
Theorem mergeBands_one_band_per_window (bands : list Band.t) :
  (forall w, (List.length (filter (PreSpec.inWindow w) (Pre.mergeBands bands)) <= 1)%nat)
  /\ (forall b, In b (Pre.mergeBands bands) -> In b bands)
  /\ (forall b', In b' bands ->
        exists b, In b (Pre.mergeBands bands) /\ PreSpec.sameWindowB b b' = true)
  /\ (forall b, In b (Pre.mergeBands bands) ->
        (forall b', In b' bands -> PreSpec.sameWindowB b b' = true ->
                    PreSpec.numeric (Band.headway b')) ->
        forall b', In b' bands -> PreSpec.sameWindowB b b' = true ->
                   JS.le (Band.headway b) (Band.headway b') = true)
  /\ (Forall (fun b => PreSpec.numeric (Band.startSec b)) bands ->
      StronglySorted PreSpec.startsNoLater (Pre.mergeBands bands)).
Proof.
  destruct (mergeBands_inv bands) as (Hd & Hent & Hcov & Hmin).
  pose proof (mergeBands_In bands) as Hin.
  repeat split.
  - intro w. apply distinct_count. unfold Pre.mergeBands.
    apply distinct_sort; [exact sameWindowB_sym|].
    apply values_distinct; [exact Hd|]. intros k m Hk. exact (proj1 (Hent _ _ Hk)).
  - exact Hin.
  - exact (mergeBands_covers bands).
  - intros b Hb Hnum b' Hb' Ew.
    pose proof Hb as Hb0. apply In_mergeBands in Hb0. destruct Hb0 as [k Hk].
    apply (Hmin k b b' Hk Hb').
    + apply sameWindow_trans with (k2 := Pre.windowOf b);
        [rewrite sameWindow_sym; exact Ew|exact (proj1 (Hent _ _ Hk))].
    + apply (Hnum b (Hin b Hb)). apply sameWindow_refl.
    + exact (Hnum b' Hb' Ew).
  - intro Hs. unfold Pre.mergeBands.
    apply sort_sorted with (P := fun b => PreSpec.numeric (Band.startSec b)).
    + exact startsNoLater_trans.
    + exact byStart_pos.
    + exact byStart_nonpos.
    + apply Forall_forall. intros b Hb. apply in_map_iff in Hb.
      destruct Hb as ([k m] & Hs' & Hk). cbn in Hs'. subst m.
      rewrite Forall_forall in Hs. exact (Hs b (proj2 (Hent _ _ Hk))).
Qed.

Lemma mergeBands_one_band_per_window_witness :
  StronglySorted PreSpec.startsNoLater
    (Pre.mergeBands [Sample.band1; Sample.bandFast])
  /\ JS.le (Band.headway Sample.bandFast) (Band.headway Sample.band1) = true.
Proof.
  split.
  - apply (proj2 (proj2 (proj2 (proj2
      (mergeBands_one_band_per_window [Sample.band1; Sample.bandFast]))))).
    repeat constructor; eexists; reflexivity.
  - apply (proj1 (proj2 (proj2 (proj2
      (mergeBands_one_band_per_window [Sample.band1; Sample.bandFast]))))
      Sample.bandFast).
    + vm_compute. left. reflexivity.
    + intros b' [<-|[<-|[]]] _; eexists; reflexivity.
    + left. reflexivity.
    + reflexivity.
Defined.

(** ** The frequency bands of a route *)

Section RouteFreqs.

Import Pre PreSpec.

Lemma String_eqb_trans (a b c : string) :
  String.eqb a b = true -> String.eqb b c = true -> String.eqb a c = true.
Proof.
  rewrite !String.eqb_eq. congruence.
Qed.

Lemma sget_sset_same {A : Type} (o : strObj A) (k : string) (a : A) :
  sget (sset o k a) k = Some a.
Proof.
  apply get_set_same; [exact String.eqb_sym|exact String_eqb_trans|].
  apply String.eqb_refl.
Qed.

Lemma sget_sset_other {A : Type} (o : strObj A) (k k2 : string) (a : A) :
  String.eqb k2 k = false -> sget (sset o k a) k2 = sget o k2.
Proof.
  apply get_set_other; [exact String.eqb_sym|exact String_eqb_trans].
Qed.

Lemma sget_pushTo_same {A : Type} (o : strObj (list A)) (k : string) (x : A) :
  sget (pushTo o k x) k =
  Some (match sget o k with Some l => l ++ [x] | None => [x] end).
Proof.
  unfold pushTo. destruct (sget o k); apply sget_sset_same.
Qed.

Lemma sget_pushTo_other {A : Type} (o : strObj (list A)) (k k2 : string) (x : A) :
  String.eqb k2 k = false -> sget (pushTo o k x) k2 = sget o k2.
Proof.
  intro E. unfold pushTo. destruct (sget o k); apply sget_sset_other; exact E.
Qed.

Lemma sget_map_values {A B : Type} (f : A -> B) (o : strObj A) (k : string) :
  sget (map (fun kv => (fst kv, f (snd kv))) o) k = option_map f (sget o k).
Proof.
  unfold sget. induction o as [|[k1 a1] o IH]; cbn [map get fst snd]; [reflexivity|].
  destruct (String.eqb k k1); [reflexivity|exact IH].
Qed.

Variable tripRoute : strObj string.
Variable tripStops : strObj (list visit).

(** The collection of a route before the merge: the bands of its rows, in the
    order of the rows. *)
Lemma routeFreqs_fold (rows : list FreqRow.t) (rid : string) :
  forall o : strObj (list Band.t),
    sget (fold_left (freqStep tripRoute tripStops) rows o) rid =
    match sget o rid, bandsOfRoute tripRoute tripStops rows rid with
    | Some l, new => Some (l ++ new)
    | None, [] => None
    | None, new => Some new
    end.
Proof.
  unfold bandsOfRoute.
  induction rows as [|f rows IH]; intro o; cbn [fold_left filter map].
  - destruct (sget o rid); [rewrite app_nil_r|]; reflexivity.
  - rewrite IH. unfold freqStep, ofRoute.
    destruct (routeOfTrip tripRoute (FreqRow.trip_id f)) as [r|]; [|reflexivity].
    destruct (String.eqb r rid) eqn:E.
    + apply String.eqb_eq in E. subst r. rewrite sget_pushTo_same. cbn [map].
      destruct (sget o rid) as [l|]; [rewrite <- app_assoc|]; reflexivity.
    + rewrite sget_pushTo_other; [reflexivity|].
      rewrite String.eqb_sym. exact E.
Qed.

Lemma routeFreqsOf_get (rows : list FreqRow.t) (rid : string) :
  sget (routeFreqsOf tripRoute tripStops rows) rid =
  match bandsOfRoute tripRoute tripStops rows rid with
  | [] => None
  | l => Some (mergeBands l)
  end.
Proof.
  unfold routeFreqsOf, routeFreqsRaw. rewrite sget_map_values, routeFreqs_fold.
  cbn [sget get]. destruct (bandsOfRoute tripRoute tripStops rows rid); reflexivity.
Qed.

Lemma In_bandsOfRoute (rows : list FreqRow.t) (rid : string) (b : Band.t) :
  In b (bandsOfRoute tripRoute tripStops rows rid) <->
  exists f, In f rows /\ routeOfTrip tripRoute (FreqRow.trip_id f) = Some rid /\
            b = bandOf tripStops f.
Proof.
  unfold bandsOfRoute. rewrite in_map_iff. split.
  - intros (f & <- & Hf). apply filter_In in Hf. destruct Hf as [Hf Ho].
    exists f. repeat split; [exact Hf|]. unfold ofRoute in Ho.
    destruct (routeOfTrip tripRoute (FreqRow.trip_id f)) as [r|]; [|discriminate].
    apply String.eqb_eq in Ho. congruence.
  - intros (f & Hf & Hr & ->). exists f. split; [reflexivity|].
    apply filter_In. split; [exact Hf|]. unfold ofRoute. rewrite Hr.
    apply String.eqb_refl.
Qed.

End RouteFreqs.

(** Every emitted route carries the merged bands of its own rows. *)
Lemma emitted_frequencies (tb : Pre.tables) (r : Route.t) :
  In r (Pre.outputRoutesOf tb) ->
  Route.frequencies r =
  Some (Pre.mergeBands
          (PreSpec.bandsOfRoute (Pre.tripRouteOf (Pre.tripsRaw tb))
                                (Pre.tripStopsOf (Pre.stRaw tb))
                                (Pre.freqRaw tb) (Route.id r))).
Proof.
  unfold Pre.outputRoutesOf.
  set (P := fun r : Route.t =>
              Route.frequencies r =
              Some (Pre.mergeBands
                      (PreSpec.bandsOfRoute (Pre.tripRouteOf (Pre.tripsRaw tb))
                         (Pre.tripStopsOf (Pre.stRaw tb))
                         (Pre.freqRaw tb) (Route.id r)))).
  assert (Hfold : forall rows acc,
    Forall P acc ->
    Forall P (fold_left
                (Pre.routeStep (Pre.routeTripsOf (Pre.tripsRaw tb))
                   (Pre.shapesMapOf (Pre.shapesRaw tb))
                   (Pre.stopsMapOf (Pre.stopsRaw tb))
                   (Pre.tripStopsOf (Pre.stRaw tb))
                   (Pre.routeFreqsOf (Pre.tripRouteOf (Pre.tripsRaw tb))
                      (Pre.tripStopsOf (Pre.stRaw tb)) (Pre.freqRaw tb)))
                rows acc)).
  { induction rows as [|row rows IH]; intros acc Hacc; cbn [fold_left];
      [exact Hacc|].
    apply IH. unfold Pre.routeStep.
    destruct (Pre.sget _ (RouteRow.route_id row)) as [trips|]; [|exact Hacc].
    destruct (fold_left _ (values trips) []) as [|sh0 shs]; [exact Hacc|].
    apply Forall_app. split; [exact Hacc|]. constructor; [|constructor].
    unfold P. cbn [Route.frequencies Route.id]. rewrite routeFreqsOf_get.
    destruct (PreSpec.bandsOfRoute _ _ _ _); reflexivity. }
  intro Hin. pose proof (Hfold (Pre.routesRaw tb) [] (Forall_nil _)) as HP.
  rewrite Forall_forall in HP. exact (HP r Hin).
Qed.

(** C3, as stated, fails: the frequencies rows of the feed have the headways
    ["0"] and ["n/a"], and both bands are in the emitted route, neither with a
    headway above 0. *)
Lemma emitted_bands_with_no_positive_headway :
  map (fun r => option_map (map Band.headway) (Route.frequencies r))
      (fst (Pre.main Sample.feedZero)) = [Some [lit 0; Num NaN]]
  /\ JS.gt (lit 0) (lit 0) = false
  /\ JS.gt (Num NaN) (lit 0) = false.
Proof.
  repeat split; vm_compute; reflexivity.
Qed.

(** C3, amended. No row is excluded for its headway. The bands of an emitted
    route are the merge of the bands of all the frequencies rows whose trip is
    one of the route's: each emitted band is the band of such a row, its
    headway being [parseInt(headway_secs)] whatever that is, and each such row
    has its window among the emitted bands. *)
Theorem emitted_bands_are_not_filtered_by_headway (tb : Pre.tables) (r : Route.t) :
  In r (fst (Pre.main tb)) ->
  let tripRoute := Pre.tripRouteOf (Pre.tripsRaw tb) in
  let tripStops := Pre.tripStopsOf (Pre.stRaw tb) in
  exists bands,
    Route.frequencies r = Some bands
    /\ bands = Pre.mergeBands
                 (PreSpec.bandsOfRoute tripRoute tripStops (Pre.freqRaw tb) (Route.id r))
    /\ (forall b, In b bands ->
          exists f, In f (Pre.freqRaw tb)
                    /\ Pre.routeOfTrip tripRoute (FreqRow.trip_id f) = Some (Route.id r)
                    /\ b = Pre.bandOf tripStops f
                    /\ Band.headway b = Num (parseInt (FreqRow.headway_secs f)))
    /\ (forall f, In f (Pre.freqRaw tb) ->
          Pre.routeOfTrip tripRoute (FreqRow.trip_id f) = Some (Route.id r) ->
          exists b, In b bands
                    /\ PreSpec.sameWindowB b (Pre.bandOf tripStops f) = true).
Proof.
  intros Hr tripRoute tripStops. unfold Pre.main in Hr. cbn [fst] in Hr.
  set (rows := PreSpec.bandsOfRoute tripRoute tripStops (Pre.freqRaw tb) (Route.id r)).
  exists (Pre.mergeBands rows).
  pose proof (mergeBands_In rows) as Hin.
  pose proof (mergeBands_covers rows) as Hcov.
  repeat split.
  - exact (emitted_frequencies tb r Hr).
  - intros b Hb. apply Hin in Hb. apply In_bandsOfRoute in Hb.
    destruct Hb as (f & Hf & Hroute & ->). exists f. repeat split; assumption.
  - intros f Hf Hroute. apply Hcov. apply In_bandsOfRoute.
    exists f. repeat split; assumption.
Qed.

Lemma emitted_bands_are_not_filtered_by_headway_witness :
  exists r bands,
    Route.frequencies r = Some bands
    /\ bands = Pre.mergeBands
                 (PreSpec.bandsOfRoute
                    (Pre.tripRouteOf (Pre.tripsRaw Sample.feedZero))
                    (Pre.tripStopsOf (Pre.stRaw Sample.feedZero))
                    (Pre.freqRaw Sample.feedZero) (Route.id r)).
Proof.
  exists (hd (Sample.routeOf []) (fst (Pre.main Sample.feedZero))).
  destruct (emitted_bands_are_not_filtered_by_headway Sample.feedZero
              (hd (Sample.routeOf []) (fst (Pre.main Sample.feedZero))))
    as (bands & Hf & Hb & _).
  - vm_compute. left. reflexivity.
  - exists bands. split; assumption.
Defined.

(** C4. A trip with exactly one timed stop: the band of its frequencies row gets
    the trip duration 0, not 1800, although the duration of the route, taken
    from the same single stop, falls back to 1800. *)
Theorem band_of_single_stop_trip_has_duration_zero :
  map (fun r => (Route.tripDuration r,
                 option_map (map Band.tripDur) (Route.frequencies r)))
      (fst (Pre.main Sample.feedOneStop)) = [(lit 1800, Some [lit 0])]
  /\ Pre.tripDurOf (Pre.tripStopsOf (Pre.stRaw Sample.feedOneStop)) "t1" = lit 0
  /\ map (fun v => Pre.v_stop_id v)
         (match Pre.sget (Pre.tripStopsOf (Pre.stRaw Sample.feedOneStop)) "t1" with
          | Some sts => sts
          | None => []
          end) = ["p1"%string].
Proof.
  repeat split; vm_compute; reflexivity.
Qed.

(** ** The simplification of a shape *)

Section Simplify.

Import Pre PreSpec.

Lemma simplifyFrom_spec (pts : list pt) (len step : nat) (rest : list pt) :
  forall (pre : list pt) (coords : list coord),
    pts = pre ++ rest ->
    simplifyFrom len step (List.length pre) rest coords =
    coords ++ map (fun i => coordOf (nth i pts noPt))
                  (filter (keep len step) (List.seq (List.length pre) (List.length rest))).
Proof.
  induction rest as [|p rest IH]; intros pre coords Hpts; cbn [simplifyFrom].
  - cbn. rewrite app_nil_r. reflexivity.
  - assert (Hnext : pts = (pre ++ [p]) ++ rest)
      by (rewrite <- app_assoc; exact Hpts).
    pose proof (IH (pre ++ [p])) as IH'.
    rewrite length_app in IH'. cbn [List.length] in IH'.
    rewrite Nat.add_1_r in IH'. rewrite (IH' _ Hnext).
    cbn [List.length List.seq filter]. fold (keep len step (List.length pre)).
    destruct (keep len step (List.length pre)); [|reflexivity].
    cbn [map]. rewrite <- app_assoc. cbn [app]. do 3 f_equal.
    rewrite Hpts, nth_middle. reflexivity.
Qed.

Lemma simplify_spec (pts : list pt) :
  simplify pts =
  map (fun i => coordOf (nth i pts noPt))
      (filter (keep (List.length pts) (stepOf (List.length pts)))
              (List.seq 0 (List.length pts))).
Proof.
  unfold simplify.
  exact (simplifyFrom_spec pts _ _ pts [] [] eq_refl).
Qed.

Lemma keep_first (len N : nat) : keep len N 0 = true.
Proof. reflexivity. Qed.

Lemma keep_last (len N : nat) : keep len N (len - 1) = true.
Proof.
  unfold keep. rewrite Nat.eqb_refl, orb_true_r. reflexivity.
Qed.

Lemma round6_lit (q : Q) :
  round6 (lit q) = lit (inject_Z (Qfloor (q * 1000000 + (1 # 2))) / 1000000).
Proof. reflexivity. Qed.

Lemma round6_close (q : Q) :
  Qabs (inject_Z (Qfloor (q * 1000000 + (1 # 2))) / 1000000 - q) <= 1 # 2000000.
Proof.
  set (z := Qfloor (q * 1000000 + (1 # 2))).
  pose proof (Qfloor_le (q * 1000000 + (1 # 2))) as Hlo.
  pose proof (Qlt_floor (q * 1000000 + (1 # 2))) as Hhi.
  fold z in Hlo, Hhi. rewrite inject_Z_plus in Hhi.
  set (y := inject_Z z / 1000000).
  assert (Hy : y * 1000000 == inject_Z z) by (unfold y; field).
  apply Qabs_Qle_condition. change (inject_Z 1) with 1 in Hhi. split; lra.
Qed.

End Simplify.

(** C6. For a shape of at least two points the simplified coordinates are, in
    the order of the input, the points at the indices [i] with [i = 0],
    [i = last] or [i mod N = 0], where [N] is 3 above 200 points, 2 above 100
    and 1 otherwise, each coordinate rounded to 6 decimals (a multiple of
    [10^-6] at most [0.5 * 10^-6] away); the first and the last of them are the
    rounded first and last input point. *)
Theorem simplify_keeps_stride_and_endpoints (pts : list Pre.pt) :
  (2 <= List.length pts)%nat ->
  let len := List.length pts in
  let N := if (200 <? len)%nat then 3%nat else if (100 <? len)%nat then 2%nat else 1%nat in
  Pre.simplify pts =
    map (fun i => (Pre.round6 (Pre.lon (nth i pts PreSpec.noPt)),
                   Pre.round6 (Pre.lat (nth i pts PreSpec.noPt))))
        (filter (fun i => (i =? 0) || (i =? len - 1) || (i mod N =? 0))%nat
                (seq 0 len))
  /\ hd_error (Pre.simplify pts)
     = Some (Pre.round6 (Pre.lon (nth 0 pts PreSpec.noPt)),
             Pre.round6 (Pre.lat (nth 0 pts PreSpec.noPt)))
  /\ last (Pre.simplify pts) (Undefined, Undefined)
     = (Pre.round6 (Pre.lon (nth (len - 1) pts PreSpec.noPt)),
        Pre.round6 (Pre.lat (nth (len - 1) pts PreSpec.noPt)))
  /\ (forall q, exists z,
         Pre.round6 (lit q) = lit (inject_Z z / 1000000)
         /\ Qabs (inject_Z z / 1000000 - q) <= 1 # 2000000)
  /\ Pre.round6 (Num NaN) = Num NaN.
Proof.
  intros Hlen len N.
  assert (Hspec := simplify_spec pts). fold len in Hspec.
  change (Pre.stepOf len) with N in Hspec.
  repeat split.
  - exact Hspec.
  - rewrite Hspec. destruct len as [|len'] eqn:E; [unfold len in E; lia|].
    reflexivity.
  - rewrite Hspec.
    assert (Hseq : seq 0 len = seq 0 (len - 1) ++ [(len - 1)%nat]).
    { replace len with (S (len - 1)) at 1 by (unfold len; lia).
      rewrite seq_S. reflexivity. }
    rewrite Hseq, filter_app, map_app. cbn [filter].
    rewrite (keep_last len N). cbn [map]. apply last_last.
  - intro q. exists (Qfloor (q * 1000000 + (1 # 2))).
    split; [apply round6_lit|apply round6_close].
Qed.

Lemma simplify_keeps_stride_and_endpoints_witness :
  hd_error (Pre.simplify [Pre.mkPt (lit 40.41) (lit (-3.70)) (lit 1);
                          Pre.mkPt (lit 40.42) (lit (-3.69)) (lit 2)])
  = Some (Pre.round6 (lit (-3.70)), Pre.round6 (lit 40.41)).
Proof.
  apply (proj1 (proj2 (simplify_keeps_stride_and_endpoints
                         [Pre.mkPt (lit 40.41) (lit (-3.70)) (lit 1);
                          Pre.mkPt (lit 40.42) (lit (-3.69)) (lit 2)]
                         (le_n 2)))).
Defined.

(** ** The unique stops *)

Section UniqueStops.

Import Pre.

Lemma has_In (s : list string) (x : string) : has s x = true <-> In x s.
Proof.
  unfold has. rewrite existsb_exists. split.
  - intros (y & Hy & E). apply String.eqb_eq in E. subst y. exact Hy.
  - intro H. exists x. split; [exact H|apply String.eqb_refl].
Qed.

Lemma fold_left_flat_map {A B C : Type} (f : A -> C -> A) (g : B -> list C)
      (l : list B) :
  forall a, fold_left (fun acc x => fold_left f (g x) acc) l a
            = fold_left f (flat_map g l) a.
Proof.
  induction l as [|x l IH]; intro a; cbn [fold_left flat_map]; [reflexivity|].
  rewrite fold_left_app. apply IH.
Qed.

(** Every stop of every shape of every route, in the order of the traversal. *)
Lemma allStopsAcc_flat (outputRoutes : list Route.t) :
  allStopsAcc outputRoutes =
  fold_left stopStep
    (flat_map (fun r => flat_map Shape.stops (Route.shapes r)) outputRoutes)
    ([], []).
Proof.
  unfold allStopsAcc. generalize (@nil string, @nil Stop.t).
  induction outputRoutes as [|r rs IH]; intro acc; cbn [fold_left flat_map];
    [reflexivity|].
  rewrite fold_left_app, IH, fold_left_flat_map. reflexivity.
Qed.

Lemma stopStep_inv (acc : list string * list Stop.t) (s : Stop.t) :
  fst acc = map Stop.id (snd acc) -> NoDup (fst acc) ->
  fst (stopStep acc s) = map Stop.id (snd (stopStep acc s))
  /\ NoDup (fst (stopStep acc s))
  /\ In (Stop.id s) (fst (stopStep acc s))
  /\ (forall x, In x (fst acc) -> In x (fst (stopStep acc s))).
Proof.
  destruct acc as [seen allStops]. cbn [fst snd]. intros Hseen Hnd.
  unfold stopStep. destruct (has seen (Stop.id s)) eqn:E.
  - cbn [fst snd]. repeat split; try assumption.
    + apply has_In. exact E.
    + exact (fun x H => H).
  - unfold setAdd. rewrite E. cbn [fst snd].
    assert (Hnot : ~ In (Stop.id s) seen).
    { intro H. apply has_In in H. congruence. }
    repeat split.
    + rewrite map_app, Hseen. reflexivity.
    + apply NoDup_app; [exact Hnd|repeat constructor; intros []|].
      intros x Hx [<-|[]]. exact (Hnot Hx).
    + apply in_or_app. right. left. reflexivity.
    + intros x Hx. apply in_or_app. left. exact Hx.
Qed.

Lemma stops_fold (l : list Stop.t) :
  forall acc,
    fst acc = map Stop.id (snd acc) -> NoDup (fst acc) ->
    let res := fold_left stopStep l acc in
    fst res = map Stop.id (snd res)
    /\ NoDup (fst res)
    /\ (forall s, In s l -> In (Stop.id s) (fst res))
    /\ (forall x, In x (fst acc) -> In x (fst res)).
Proof.
  induction l as [|s l IH]; intros acc Hseen Hnd; cbn [fold_left].
  - repeat split; try assumption; [intros s []|exact (fun x H => H)].
  - destruct (stopStep_inv acc s Hseen Hnd) as (H1 & H2 & H3 & H4).
    destruct (IH (stopStep acc s) H1 H2) as (R1 & R2 & R3 & R4).
    repeat split; try assumption.
    + intros s' [<-|Hs']; [exact (R4 _ H3)|exact (R3 _ Hs')].
    + intros x Hx. exact (R4 _ (H4 _ Hx)).
Qed.

End UniqueStops.

(** C7. The stop document has no two records with the same id, and has a
    record for every stop id of every shape of every emitted route. *)
Theorem allStops_unique_and_complete (outputRoutes : list Route.t) :
  NoDup (map Stop.id (Pre.allStopsOf outputRoutes))
  /\ (forall r sh s,
         In r outputRoutes -> In sh (Route.shapes r) -> In s (Shape.stops sh) ->
         exists s', In s' (Pre.allStopsOf outputRoutes) /\ Stop.id s' = Stop.id s)
  /\ (forall tb, snd (Pre.main tb) = Pre.allStopsOf (fst (Pre.main tb))).
Proof.
  unfold Pre.allStopsOf. rewrite allStopsAcc_flat.
  destruct (stops_fold
              (flat_map (fun r => flat_map Shape.stops (Route.shapes r)) outputRoutes)
              ([], []) eq_refl (NoDup_nil _)) as (H1 & H2 & H3 & _).
  repeat split.
  - rewrite <- H1. exact H2.
  - intros r sh s Hr Hsh Hs.
    assert (Hin : In s (flat_map (fun r => flat_map Shape.stops (Route.shapes r))
                                 outputRoutes)).
    { apply in_flat_map. exists r. split; [exact Hr|].
      apply in_flat_map. exists sh. split; assumption. }
    apply H3 in Hin. rewrite H1 in Hin. apply in_map_iff in Hin.
    destruct Hin as (s' & Hid & Hs'). exists s'. split; assumption.
Qed.

Lemma allStops_unique_and_complete_witness :
  exists s', In s' (Pre.allStopsOf (fst (Pre.main Sample.feedZero)))
             /\ Stop.id s' = "p1"%string.
Proof.
  apply (proj1 (proj2 (allStops_unique_and_complete (fst (Pre.main Sample.feedZero))))
               (hd (Sample.routeOf []) (fst (Pre.main Sample.feedZero)))
               (hd (Shape.mk "" "" Undefined [] [])
                   (Route.shapes (hd (Sample.routeOf []) (fst (Pre.main Sample.feedZero)))))
               (Stop.mk "p1" "Sol" (Pre.round6 (Num (parseFloat "-3.70")),
                                    Pre.round6 (Num (parseFloat "40.41")))
                        (lit 0) (Pre.timeToSec "8:00:00"))).
  - vm_compute. left. reflexivity.
  - vm_compute. left. reflexivity.
  - vm_compute. left. reflexivity.
Defined.

(** ** The clock *)



(** ** Routes the frame loop leaves out *)

Lemma le_not_gt (a b : value) : JS.le a b = true -> JS.gt a b = false.
Proof.
  unfold JS.le, JS.gt, ngt. destruct (toNumber a), (toNumber b); cbn;
    try discriminate. rewrite Qle_bool_iff, Qlt_bool_false_iff. exact (fun H => H).
Qed.

Lemma bands_withShapes (fuel : nat) (r : Route.t) (shs : list Shape.t)
      (t : value) (freqs : list Band.t) :
  forall out,
    Engine.bands fuel (Tick.withShapes r shs) t freqs out
    = Engine.bands fuel r t freqs out.
Proof.
  induction freqs as [|band rest IH]; intro out; cbn [Engine.bands]; [reflexivity|].
  change (Engine.bandStep fuel (Tick.withShapes r shs) t band out)
    with (Engine.bandStep fuel r t band out).
  destruct (Engine.bandStep fuel r t band out); [apply IH|reflexivity].
Qed.

(** [activeBuses] does not look at the shapes. *)
Lemma activeBuses_withShapes (fuel : nat) (r : Route.t) (shs : list Shape.t)
      (t : value) :
  Engine.activeBuses fuel (Tick.withShapes r shs) t = Engine.activeBuses fuel r t.
Proof.
  unfold Engine.activeBuses. cbn [Tick.withShapes Route.frequencies].
  destruct (Route.frequencies r) as [[|b l]|]; try reflexivity.
  apply bands_withShapes.
Qed.

(** C9. A route whose first shape has fewer than two points, or a length of
    at most 0.05 km, has no entry in [routeGeo], and the frame loop leaves the
    frame as it is for it: no vehicle, no visited stop, whatever the bands and
    the time. And only the first shape counts: two routes that differ in their
    other shapes only get the same entry and add the same to a frame. *)
Theorem route_with_unusable_first_shape_adds_nothing
        (point : Type) (turfLength : list coord -> option value)
        (turfAlong : list coord -> value -> option point) (route : Route.t) :
  (forall sh rest,
      Route.shapes route = sh :: rest ->
      (List.length (Shape.coordinates sh) < 2)%nat
      \/ (exists l, turfLength (Shape.coordinates sh) = Some l
                    /\ JS.le l (lit 0.05) = true) ->
      Tick.routeGeo turfLength route = None
      /\ forall fuel ri sel t (fr : Tick.frame point),
           Tick.routeFrame point turfAlong fuel (Tick.routeGeo turfLength route)
                           route ri sel t fr = Some fr)
  /\ (forall sh rest rest',
         Tick.routeGeo turfLength (Tick.withShapes route (sh :: rest))
         = Tick.routeGeo turfLength (Tick.withShapes route (sh :: rest'))
         /\ forall fuel g ri sel t (fr : Tick.frame point),
              Tick.routeFrame point turfAlong fuel g
                              (Tick.withShapes route (sh :: rest)) ri sel t fr
              = Tick.routeFrame point turfAlong fuel g
                                (Tick.withShapes route (sh :: rest')) ri sel t fr).
Proof.
  split.
  - intros sh rest Hshapes Hbad.
    assert (Hgeo : Tick.routeGeo turfLength route = None).
    { unfold Tick.routeGeo. rewrite Hshapes.
      destruct Hbad as [Hfew|(l & Hl & Hle)].
      - apply Nat.ltb_lt in Hfew. rewrite Hfew. reflexivity.
      - destruct (List.length (Shape.coordinates sh) <? 2)%nat; [reflexivity|].
        rewrite Hl, (le_not_gt _ _ Hle). reflexivity. }
    split; [exact Hgeo|]. intros. rewrite Hgeo. reflexivity.
  - intros sh rest rest'. split; [reflexivity|].
    intros fuel g ri sel t fr. unfold Tick.routeFrame.
    destruct g as [g|]; [|reflexivity].
    rewrite !activeBuses_withShapes.
    destruct (Engine.activeBuses fuel route t) as [abs|]; reflexivity.
Qed.

Lemma route_with_unusable_first_shape_adds_nothing_witness :
  Tick.routeFrame coord Sample.turfAlongStart 7
                  (Tick.routeGeo Sample.turfLength30m Sample.shortRoute)
                  Sample.shortRoute 0 None (lit 29100) (Tick.mkFrame [] [] 0)
  = Some (Tick.mkFrame [] [] 0).
Proof.
  apply (proj1 (route_with_unusable_first_shape_adds_nothing
                  coord Sample.turfLength30m Sample.turfAlongStart
                  Sample.shortRoute)
               Sample.shortShape [] eq_refl).
  right. exists (lit 0.03). split; reflexivity.
Defined.

(** * More of the engine *)

(** ** The progress of a vehicle *)

Section Progress.

Import Engine Notions.

Lemma departures_inUnit (band : Band.t) (d t : Q) (fuel : nat) :
  ~ d == 0 ->
  forall (dep : value) (out res : list bus),
    Forall inUnit out ->
    departures fuel dep band (lit d) (lit t) out = Some res ->
    Forall inUnit res.
Proof.
  intro Hd. induction fuel as [|fuel IH]; intros dep out res Hout Hrun;
    [discriminate|].
  cbn [departures] in Hrun.
  destruct (JS.lt dep (Band.endSec band)) eqn:Hlt;
    [|injection Hrun as <-; exact Hout].
  apply IH in Hrun; [exact Hrun|].
  unfold JS.lt in Hlt. destruct (toNumber dep) as [x|] eqn:Hx; [|discriminate].
  unfold JS.lt, JS.gt, JS.sub, JS.div, ngt, lit. cbn [toNumber]. rewrite Hx.
  cbn [nsub nlt ndiv].
  destruct (Qlt_bool (t - x) 0) eqn:Hneg; cbn [orb]; [exact Hout|].
  destruct (Qlt_bool d (t - x)) eqn:Hover; [exact Hout|].
  apply Qlt_bool_false_iff in Hneg. apply Qlt_bool_false_iff in Hover.
  assert (Hpos : 0 < d).
  { destruct (Qlt_le_dec 0 d) as [H|H]; [exact H|]. exfalso. apply Hd. lra. }
  assert (Hz : Qeq_bool d 0 = false).
  { destruct (Qeq_bool d 0) eqn:E; [|reflexivity].
    apply Qeq_bool_eq in E. contradiction. }
  rewrite Hz. apply Forall_app. split; [exact Hout|].
  constructor; [|constructor]. exists ((t - x) / d). split; [reflexivity|]. split.
  - apply Qle_shift_div_l; [exact Hpos|]. lra.
  - apply Qle_shift_div_r; [exact Hpos|]. lra.
Qed.

Lemma bands_inUnit (route : Route.t) (t : Q) (fuel : nat) (freqs : list Band.t) :
  forall out res,
    Forall inUnit out ->
    bands fuel route (lit t) freqs out = Some res ->
    Forall inUnit res.
Proof.
  induction freqs as [|band rest IH]; intros out res Hout Hrun; cbn [bands] in Hrun.
  - injection Hrun as <-. exact Hout.
  - destruct (bandStep fuel route (lit t) band out) as [out'|] eqn:Hstep;
      [|discriminate].
    apply (IH out' res); [|exact Hrun].
    unfold bandStep in Hstep.
    destruct (JS.le (Band.headway band) (lit 0));
      [injection Hstep as <-; exact Hout|].
    destruct (dur_is route band) as [Hdur Hd]. rewrite Hdur in Hstep.
    apply (departures_inUnit band _ t fuel) in Hstep; [exact Hstep| |exact Hout].
    intro E. apply Qeq_eq_bool in E. congruence.
Qed.

End Progress.

(** X1. Whatever the bands of a route and the time, every vehicle that
    [activeBuses] returns has a progress that is a number between 0 and 1. *)
Theorem activeBuses_progress_in_unit_interval
        (route : Route.t) (t : Q) (fuel : nat) (out : list Engine.bus) :
  Engine.activeBuses fuel route (lit t) = Some out ->
  Forall (fun b => exists q, Engine.progress b = lit q /\ 0 <= q <= 1) out.
Proof.
  unfold Engine.activeBuses.
  destruct (Route.frequencies route) as [[|b l]|].
  - intros [= <-]. constructor.
  - apply (bands_inUnit route t fuel (b :: l) []). constructor.
  - intros [= <-]. constructor.
Qed.

Lemma activeBuses_progress_in_unit_interval_witness :
  Forall (fun b => exists q, Engine.progress b = lit q /\ 0 <= q <= 1)
         [Engine.mkBus (lit ((30900 - 29400) / 1800));
          Engine.mkBus (lit ((30900 - 30000) / 1800));
          Engine.mkBus (lit ((30900 - 30600) / 1800))].
Proof.
  apply (activeBuses_progress_in_unit_interval Sample.route1 30900 7).
  reflexivity.
Defined.

(** ** How many vehicles a band has at once *)

Section Concurrent.

Import Engine EngineSpec Notions.

Lemma filter_map_comm {A B : Type} (f : A -> B) (P : B -> bool) (l : list A) :
  filter P (map f l) = map f (filter (fun a => P (f a)) l).
Proof.
  induction l as [|a l IH]; cbn [map filter]; [reflexivity|].
  destruct (P (f a)); cbn [map]; rewrite IH; reflexivity.
Qed.

Lemma filter_seq_length (P : nat -> bool) (n lo m : nat) :
  (forall k, P k = true -> (lo <= k < lo + m)%nat) ->
  (List.length (filter P (seq 0 n)) <= m)%nat.
Proof.
  intro Hrange.
  apply Nat.le_trans with (m := List.length (seq lo m));
    [|rewrite length_seq; apply Nat.le_refl].
  apply NoDup_incl_length.
  - apply NoDup_filter. apply seq_NoDup.
  - intros k Hk. apply filter_In in Hk. apply in_seq. apply Hrange. exact (proj2 Hk).
Qed.

Variables (s h d t : Q).
Hypothesis h_pos : 0 < h.

(** The active departures have their indices in a window of [maxConcurrent]
    consecutive numbers. *)
Lemma active_index_range (k : nat) :
  activeAt t d (departure s h k) = true ->
  (Z.to_nat (Qceiling ((t - d - s) / h)) <= k
   < Z.to_nat (Qceiling ((t - d - s) / h)) + maxConcurrent d h)%nat.
Proof.
  unfold activeAt, departure, maxConcurrent. rewrite andb_true_iff, !Qle_bool_iff.
  set (K := inject_Z (Z.of_nat k)). set (x := (t - d - s) / h). set (y := d / h).
  intros [Hlo Hhi].
  assert (Hx : x * h == t - d - s) by (unfold x; field; lra).
  assert (Hy : y * h == d) by (unfold y; field; lra).
  assert (HxK : x <= K).
  { apply Qmult_le_r with (z := h); [exact h_pos|]. rewrite Hx. lra. }
  assert (Hceil : (Qceiling x <= Z.of_nat k)%Z).
  { rewrite <- (Qceiling_Z (Z.of_nat k)). apply Qceiling_resp_le. exact HxK. }
  set (L := Z.max 0 (Qceiling x)).
  assert (HxL : x <= inject_Z L).
  { apply Qle_trans with (y := inject_Z (Qceiling x)); [apply Qle_ceiling|].
    rewrite <- Zle_Qle. unfold L. lia. }
  assert (HKL : inject_Z (Z.of_nat k - L) <= y).
  { apply Qmult_le_r with (z := h); [exact h_pos|]. rewrite Hy.
    unfold Zminus. rewrite inject_Z_plus, inject_Z_opp. fold K.
    assert (HL : x * h <= inject_Z L * h)
      by (apply Qmult_le_compat_r; [exact HxL|lra]).
    rewrite Hx in HL.
    setoid_replace ((K + - inject_Z L) * h) with (K * h - inject_Z L * h) by ring.
    lra. }
  assert (Hfloor : (Z.of_nat k - L <= Qfloor y)%Z).
  { rewrite <- (Qfloor_Z (Z.of_nat k - L)). apply Qfloor_resp_le. exact HKL. }
  unfold L in Hfloor. lia.
Qed.

Lemma vehicles_length (e : Q) :
  (List.length (vehicles s e h d t) <= maxConcurrent d h)%nat.
Proof.
  unfold vehicles. rewrite length_map, filter_map_comm, length_map.
  apply filter_seq_length with (lo := Z.to_nat (Qceiling ((t - d - s) / h))).
  exact active_index_range.
Qed.

End Concurrent.

(** X2. A band with a positive headway [h] never has more than
    [floor(tripDuration / h) + 1] vehicles on their way: that bounds what one
    band adds to the result of [activeBuses], at any time. *)
Theorem band_adds_boundedly_many_vehicles
        (route : Route.t) (t : Q) (band : Band.t) (s e h : Q) (fuel : nat)
        (out res : list Engine.bus) :
  toNumber (Band.startSec band) = Fin s ->
  toNumber (Band.endSec band) = Fin e ->
  toNumber (Band.headway band) = Fin h ->
  0 < h ->
  Engine.bandStep fuel route (lit t) band out = Some res ->
  exists added,
    res = out ++ added
    /\ (List.length added
        <= S (Z.to_nat (Qfloor (EngineSpec.tripDurationOf route band / h))))%nat.
Proof.
  intros Hs He Hh Hpos Hrun.
  destruct (bandStep_expected route t band out
              (Nat.max fuel (EngineSpec.fuelFor band))) as (l & Hl & Hm);
    [lia|].
  rewrite (bandStep_fuel_mono _ _ _ _ _ _ _ Hrun (Nat.le_max_l _ _)) in Hl.
  injection Hl as ->. exists l. split; [reflexivity|].
  unfold EngineSpec.matches in Hm. rewrite (Forall2_length Hm).
  unfold EngineSpec.expected. rewrite Hs, He, Hh.
  assert (Hp : Qlt_bool 0 h = true) by (apply Qlt_bool_iff; exact Hpos).
  rewrite Hp. apply (vehicles_length s h _ t Hpos e).
Qed.

Lemma band_adds_boundedly_many_vehicles_witness :
  exists added,
    [Engine.mkBus (lit ((30900 - 29400) / 1800));
     Engine.mkBus (lit ((30900 - 30000) / 1800));
     Engine.mkBus (lit ((30900 - 30600) / 1800))] = [] ++ added
    /\ (List.length added <= 4)%nat.
Proof.
  apply (band_adds_boundedly_many_vehicles
           Sample.route1 30900 Sample.band1 28800 32400 600 7 []
           _ eq_refl eq_refl eq_refl eq_refl).
  reflexivity.
Defined.

(** ** The stops a vehicle visits *)

Section Eat.

Import Tick Notions.

Lemma In_setAdd (acc : list string) (x y : string) :
  In x (setAdd acc y) <-> In x acc \/ x = y.
Proof.
  unfold setAdd. destruct (has acc y) eqn:E.
  - split; [intro H; left; exact H|]. intros [H| ->]; [exact H|].
    apply has_In. exact E.
  - rewrite in_app_iff. cbn [In]. intuition congruence.
Qed.

Lemma NoDup_setAdd (acc : list string) (y : string) :
  NoDup acc -> NoDup (setAdd acc y).
Proof.
  intro Hnd. unfold setAdd. destruct (has acc y) eqn:E; [exact Hnd|].
  apply NoDup_app; [exact Hnd|repeat constructor; intros []|].
  intros x Hx [<-|[]]. apply has_In in Hx. congruence.
Qed.

Lemma eat_fold (c : Stop.t -> bool) (l : list Stop.t) :
  forall acc,
    let res := fold_left (fun acc s => if c s then setAdd acc (Stop.id s) else acc)
                         l acc in
    (forall x, In x res <->
               In x acc \/ exists s, In s l /\ Stop.id s = x /\ c s = true)
    /\ (NoDup acc -> NoDup res).
Proof.
  induction l as [|s l IH]; intro acc; cbn [fold_left].
  - split; [|exact (fun H => H)]. intro x. split; [intro H; left; exact H|].
    intros [H|(s & Hs & _)]; [exact H|destruct Hs].
  - destruct (IH (if c s then setAdd acc (Stop.id s) else acc)) as [Hin Hnd].
    split.
    + intro x. rewrite Hin. destruct (c s) eqn:E.
      * rewrite In_setAdd. split.
        -- intros [[H| ->]|(s' & Hs' & Hid & Hc)].
           ++ left. exact H.
           ++ right. exists s. repeat split; [left; reflexivity|exact E].
           ++ right. exists s'. repeat split; [right; exact Hs'|exact Hid|exact Hc].
        -- intros [H|(s' & [<-|Hs'] & Hid & Hc)].
           ++ left. left. exact H.
           ++ left. right. symmetry. exact Hid.
           ++ right. exists s'. repeat split; assumption.
      * split.
        -- intros [H|(s' & Hs' & Hid & Hc)]; [left; exact H|].
           right. exists s'. repeat split; [right; exact Hs'|exact Hid|exact Hc].
        -- intros [H|(s' & [<-|Hs'] & Hid & Hc)]; [left; exact H|congruence|].
           right. exists s'. repeat split; assumption.
    + intro H. apply Hnd. destruct (c s); [apply NoDup_setAdd|]; exact H.
Qed.

Lemma eat_spec (p : value) (sh : Shape.t) (eaten : list string) :
  (forall x, In x (eat p sh eaten) <->
             In x eaten \/ exists s, In s (Shape.stops sh) /\ Stop.id s = x
                                     /\ near p sh s = true)
  /\ (NoDup eaten -> NoDup (eat p sh eaten)).
Proof.
  unfold eat, near, totalD.
  destruct (Shape.stops sh) as [|s0 l] eqn:Hstops.
  - split; [|exact (fun H => H)]. intro x. split; [intro H; left; exact H|].
    intros [H|(s & Hs & _)]; [exact H|destruct Hs].
  - exact (eat_fold _ (s0 :: l) eaten).
Qed.

Lemma totalD_nonzero (sh : Shape.t) :
  exists D, totalD sh = lit D /\ ~ D == 0.
Proof.
  unfold totalD, JS.or.
  destruct (Stop.dist (last (Shape.stops sh) noStop)) as [[q|]| |]; cbn [truthy];
    try (exists 1; split; [reflexivity|discriminate]).
  destruct (Qeq_bool q 0) eqn:E; cbn [negb].
  - exists 1. split; [reflexivity|discriminate].
  - exists q. split; [reflexivity|]. apply Qeq_bool_neq. exact E.
Qed.

Lemma nearStop_nan_progress (p dist D : value) :
  toNumber p = NaN -> nearStop p dist D = false.
Proof.
  intro H. unfold nearStop, Double.ofValue. rewrite H. cbn [Double.ofNum].
  unfold Double.sub, SpecFloat.SFsub.
  destruct (Double.div (Double.ofNum (toNumber dist)) (Double.ofNum (toNumber D)));
    reflexivity.
Qed.

Lemma nearStop_nan_dist (p dist D : value) :
  toNumber dist = NaN -> nearStop p dist D = false.
Proof.
  intro H. unfold nearStop. unfold Double.ofValue at 2. rewrite H.
  cbn [Double.ofNum]. unfold Double.div, SpecFloat.SFdiv.
  destruct (Double.ofValue D); unfold Double.sub, SpecFloat.SFsub;
    destruct (Double.ofValue p); reflexivity.
Qed.

Lemma fold_left_unchanged {A B : Type} (f : A -> B -> A) (l : list B) (a : A) :
  (forall x b, f x b = x) -> fold_left f l a = a.
Proof.
  intro H. induction l as [|b l IH]; cbn [fold_left]; [reflexivity|].
  rewrite H. exact IH.
Qed.

Lemma eat_nan_progress (p : value) (sh : Shape.t) (eaten : list string) :
  toNumber p = NaN -> eat p sh eaten = eaten.
Proof.
  intro H. unfold eat. destruct (Shape.stops sh) as [|s0 l]; [reflexivity|].
  apply fold_left_unchanged. intros acc s.
  rewrite (nearStop_nan_progress _ _ _ H). reflexivity.
Qed.

End Eat.

(** X3. The stops a vehicle at progress [p] marks as visited are exactly the
    stops of the shape for which the test of [tick] holds on doubles,
    [Math.abs(p - dist / totalD) < 0.015] with the quotient and the
    difference rounded, [totalD] being the distance of the last stop (1 when
    that is 0 or missing, never 0). What was visited before stays and no id
    is there twice; a progress that is [NaN] marks nothing, and a stop whose
    distance is [NaN] is never marked. *)
Theorem eat_marks_the_stops_near_the_vehicle
        (p : value) (sh : Shape.t) (eaten : list string) :
  (forall x, In x (Tick.eat p sh eaten) <->
             In x eaten \/ exists s, In s (Shape.stops sh) /\ Stop.id s = x
                                     /\ Notions.near p sh s = true)
  /\ (NoDup eaten -> NoDup (Tick.eat p sh eaten))
  /\ (exists D, Notions.totalD sh = lit D /\ ~ D == 0)
  /\ (toNumber p = NaN -> Tick.eat p sh eaten = eaten)
  /\ (forall s, toNumber (Stop.dist s) = NaN -> Notions.near p sh s = false).
Proof.
  destruct (eat_spec p sh eaten) as [Hin Hnd].
  split; [exact Hin|]. split; [exact Hnd|].
  split; [exact (totalD_nonzero sh)|].
  split; [exact (eat_nan_progress p sh eaten)|].
  intros s Hs. unfold Notions.near. apply nearStop_nan_dist. exact Hs.
Qed.

(** A vehicle at progress 300/1800 marks the stop at 91 of 600 metres: on
    doubles the difference is 0.014999999999999986, below the double of
    0.015. *)
Lemma eat_marks_the_stops_near_the_vehicle_witness :
  In "q1"%string (Tick.eat (lit (300 # 1800)) Sample.shape600 []).
Proof.
  apply (proj1 (eat_marks_the_stops_near_the_vehicle
                  (lit (300 # 1800)) Sample.shape600 [])).
  right. exists Sample.stopAt91.
  split; [left; reflexivity|]. split; [reflexivity|].
  vm_compute. reflexivity.
Defined.

(** ** The frame *)

Section Frame.

Import Tick Notions.

Variable point : Type.
Variable turfLength : list coord -> option value.
Variable turfAlong : list coord -> value -> option point.
Variable routes : list Route.t.

Lemma busStep_inv (g : geo) (r : Route.t) (ri : nat) (sel : option Route.t)
      (fr : frame point) (ab : Engine.bus) :
  In r routes -> frameInv routes fr ->
  frameInv routes (busStep point turfAlong g r ri sel fr ab).
Proof.
  intros Hr (Hcount & Hnd & Hids). unfold busStep.
  destruct (turfAlong (line g) _) as [pt|]; [|repeat split; assumption].
  unfold frameInv. cbn [busCount features nowEaten]. repeat split.
  - rewrite length_app, Hcount. cbn. lia.
  - destruct (Route.shapes r) as [|sh rest]; [exact Hnd|].
    apply eat_spec. exact Hnd.
  - intros id Hid. destruct (Route.shapes r) as [|sh rest] eqn:Hsh;
      [exact (Hids id Hid)|].
    apply eat_spec in Hid. destruct Hid as [Hid|(s & Hs & Hsid & _)];
      [exact (Hids id Hid)|].
    exists r, sh, rest, s. repeat split; assumption.
Qed.

Lemma routeFrame_inv (fuel : nat) (g : option geo) (r : Route.t) (ri : nat)
      (sel : option Route.t) (t : value) (fr fr' : frame point) :
  In r routes -> frameInv routes fr ->
  routeFrame point turfAlong fuel g r ri sel t fr = Some fr' ->
  frameInv routes fr'.
Proof.
  intros Hr Hinv. unfold routeFrame. destruct g as [g|];
    [|intros [= <-]; exact Hinv].
  destruct (Engine.activeBuses fuel r t) as [abs|]; [|discriminate].
  intros [= <-]. revert fr Hinv.
  induction abs as [|ab abs IH]; intros fr Hinv; cbn [fold_left]; [exact Hinv|].
  apply IH. apply busStep_inv; assumption.
Qed.

Lemma routesLoop_inv (fuel : nat) (sel : option Route.t) (t : value)
      (rs : list Route.t) :
  incl rs routes ->
  forall ri fr fr',
    frameInv routes fr ->
    routesLoop point turfLength turfAlong fuel rs ri sel t fr = Some fr' ->
    frameInv routes fr'.
Proof.
  induction rs as [|r rs IH]; intros Hincl ri fr fr' Hinv; cbn [routesLoop].
  - intros [= <-]. exact Hinv.
  - destruct (routeFrame point turfAlong fuel (routeGeo turfLength r) r ri sel t fr)
      as [fr1|] eqn:E; [|discriminate].
    apply IH; [intros x Hx; apply Hincl; right; exact Hx|].
    apply (routeFrame_inv _ _ _ _ _ _ _ _ (Hincl r (or_introl eq_refl)) Hinv E).
Qed.

Lemma activeBuses_total (r : Route.t) (t : Q) (fuel : nat) :
  (match Route.frequencies r with
   | Some freqs => EngineSpec.fuelForAll freqs
   | None => 1%nat
   end <= fuel)%nat ->
  exists out, Engine.activeBuses fuel r (lit t) = Some out.
Proof.
  unfold Engine.activeBuses. destruct (Route.frequencies r) as [[|b l]|];
    try (intros _; eexists; reflexivity).
  intro Hfuel.
  destruct (bands_expected r t (b :: l) fuel [] Hfuel) as (out & Hout & _).
  exists out. exact Hout.
Qed.

Lemma routesLoop_total (sel : option Route.t) (t : Q) (fuel : nat)
      (rs : list Route.t) :
  (fuelForRoutes rs <= fuel)%nat ->
  forall ri fr,
    exists fr',
      routesLoop point turfLength turfAlong fuel rs ri sel (lit t) fr = Some fr'.
Proof.
  induction rs as [|r rs IH]; intros Hfuel ri fr; cbn [routesLoop].
  - eexists. reflexivity.
  - cbn [fuelForRoutes fold_right] in Hfuel. fold (fuelForRoutes rs) in Hfuel.
    unfold routeFrame. destruct (routeGeo turfLength r) as [g|].
    + destruct (activeBuses_total r t fuel) as [abs Habs]; [lia|].
      rewrite Habs. apply IH. lia.
    + apply IH. lia.
Qed.

End Frame.

(** X4. Every frame [tick] computes counts as many buses as it has bus
    features, has no stop id twice among the visited ones, and visits only
    stops of the first shape of a route; and with enough fuel for the bands of
    the routes the computation of the frame comes to an end. *)
Theorem computeFrame_counts_its_features
        (point : Type) (turfLength : list coord -> option value)
        (turfAlong : list coord -> value -> option point)
        (routes : list Route.t) (sel : option Route.t) (t : Q) :
  (forall fuel fr,
      Tick.computeFrame point turfLength turfAlong fuel routes sel (lit t) = Some fr ->
      Tick.busCount fr = List.length (Tick.features fr)
      /\ NoDup (Tick.nowEaten fr)
      /\ (forall id, In id (Tick.nowEaten fr) -> Notions.firstShapeStop routes id))
  /\ (forall fuel,
         (Notions.fuelForRoutes routes <= fuel)%nat ->
         exists fr,
           Tick.computeFrame point turfLength turfAlong fuel routes sel (lit t)
           = Some fr).
Proof.
  split.
  - intros fuel fr Hrun. unfold Tick.computeFrame in Hrun.
    apply (routesLoop_inv point turfLength turfAlong routes fuel sel (lit t) routes
                          (incl_refl _) 0 (Tick.mkFrame [] [] 0) fr);
      [|exact Hrun].
    repeat split; [constructor|intros id []].
  - intros fuel Hfuel. unfold Tick.computeFrame.
    apply routesLoop_total. exact Hfuel.
Qed.

Lemma computeFrame_counts_its_features_witness :
  exists fr,
    Tick.computeFrame coord Sample.turfLength1km Sample.turfAlongStart 7
                      [Sample.shortRoute] None (lit 29100) = Some fr
    /\ Tick.busCount fr = List.length (Tick.features fr).
Proof.
  destruct (proj2 (computeFrame_counts_its_features
                     coord Sample.turfLength1km Sample.turfAlongStart
                     [Sample.shortRoute] None 29100) 7%nat) as [fr Hfr].
  - vm_compute. lia.
  - exists fr. split; [exact Hfr|].
    exact (proj1 (proj1 (computeFrame_counts_its_features
                           coord Sample.turfLength1km Sample.turfAlongStart
                           [Sample.shortRoute] None 29100) 7%nat fr Hfr)).
Defined.

(** ** The pellets *)

Section PelletFacts.

Import Pellets.


End PelletFacts.



(** ** Times as text *)

Section Split.

Import Notions.

Lemma splitOn_nonempty (c : ascii) (s : string) : splitOn c s <> [].
Proof.
  destruct s as [|c' s']; cbn [splitOn]; [discriminate|].
  destruct (Ascii.eqb c' c); [discriminate|].
  destruct (splitOn c s'); discriminate.
Qed.

(** A text without the separator is one piece. *)
Lemma splitOn_none (c : ascii) (s : string) :
  hasChar c s = false -> splitOn c s = [s].
Proof.
  induction s as [|c' s' IH]; cbn [hasChar splitOn]; [reflexivity|].
  rewrite orb_false_iff. intros [Hc Hs]. rewrite Hc, (IH Hs). reflexivity.
Qed.

(** Splitting goes through a separator. *)
Lemma splitOn_app (c : ascii) (a b : string) :
  splitOn c (a ++ String c b) = splitOn c a ++ splitOn c b.
Proof.
  induction a as [|c' a IH]; cbn [String.append splitOn].
  - rewrite Ascii.eqb_refl. reflexivity.
  - destruct (Ascii.eqb c' c); [rewrite IH; reflexivity|].
    rewrite IH. destruct (splitOn c a) as [|w ws] eqn:E; [|reflexivity].
    exfalso. exact (splitOn_nonempty c a E).
Qed.

Lemma splitOn_first (c : ascii) (a b : string) :
  hasChar c a = false -> splitOn c (a ++ String c b) = a :: splitOn c b.
Proof.
  intro H. rewrite splitOn_app, (splitOn_none c a H). reflexivity.
Qed.

End Split.

(** X6. [timeToSec] on a text without a colon is [NaN] whatever the text; on
    [a:b] it is the hours and minutes with 0 seconds; on [a:b:c] the seconds
    are [Number(c)], or 0 when that is 0 or [NaN]; a fourth field is
    ignored. The hours are not reduced modulo 24. *)
Theorem timeToSec_reads_up_to_three_fields (a b c rest : string) :
  Notions.hasChar ":" a = false ->
  Notions.hasChar ":" b = false ->
  Notions.hasChar ":" c = false ->
  Pre.timeToSec a = Num NaN
  /\ Pre.timeToSec (a ++ ":" ++ b)
     = JS.add (JS.add (JS.mul (Num (Number a)) (lit 3600))
                      (JS.mul (Num (Number b)) (lit 60))) (lit 0)
  /\ Pre.timeToSec (a ++ ":" ++ b ++ ":" ++ c)
     = JS.add (JS.add (JS.mul (Num (Number a)) (lit 3600))
                      (JS.mul (Num (Number b)) (lit 60)))
              (JS.or (Num (Number c)) (lit 0))
  /\ Pre.timeToSec (a ++ ":" ++ b ++ ":" ++ c ++ ":" ++ rest)
     = Pre.timeToSec (a ++ ":" ++ b ++ ":" ++ c).
Proof.
  intros Ha Hb Hc. unfold Pre.timeToSec.
  change (a ++ ":" ++ b)%string with (a ++ String ":" b)%string.
  change (a ++ ":" ++ b ++ ":" ++ c)%string
    with (a ++ String ":" (b ++ String ":" c))%string.
  change (a ++ ":" ++ b ++ ":" ++ c ++ ":" ++ rest)%string
    with (a ++ String ":" (b ++ String ":" (c ++ String ":" rest)))%string.
  rewrite !(splitOn_first ":" a _ Ha), !(splitOn_first ":" b _ Hb),
    (splitOn_first ":" c _ Hc), (splitOn_none ":" a Ha),
    (splitOn_none ":" b Hb), (splitOn_none ":" c Hc).
  cbn [map nth]. repeat split.
  unfold JS.add, JS.mul. destruct (Number a); reflexivity.
Qed.

Lemma timeToSec_reads_up_to_three_fields_witness :
  Pre.timeToSec "25:10" = JS.add (JS.add (JS.mul (Num (Number "25")) (lit 3600))
                                         (JS.mul (Num (Number "10")) (lit 60)))
                                 (lit 0).
Proof.
  apply (proj1 (proj2 (timeToSec_reads_up_to_three_fields "25" "10" "" ""
                         eq_refl eq_refl eq_refl))).
Defined.

Section FmtTime.

Import Display Notions.

Lemma Qfloor_unique (x : Q) (z : Z) :
  inject_Z z <= x -> x < inject_Z (z + 1) -> Qfloor x = z.
Proof.
  intros Hlo Hhi.
  pose proof (Qfloor_le x) as Hf. pose proof (Qlt_floor x) as Hg.
  assert (H1 : inject_Z z < inject_Z (Qfloor x + 1)) by lra.
  assert (H2 : inject_Z (Qfloor x) < inject_Z (z + 1)) by lra.
  rewrite <- Zlt_Qlt in H1, H2. lia.
Qed.

(** The whole minutes of a time. *)
Lemma floor_minutes (sec : Q) :
  0 <= sec ->
  let F := Qfloor (sec / 60) in
  (0 <= F)%Z /\ inject_Z F * 60 <= sec /\ sec < inject_Z F * 60 + 60.
Proof.
  intros Hsec F.
  assert (Hu : sec / 60 * 60 == sec) by field.
  pose proof (Qfloor_le (sec / 60)) as Hf. pose proof (Qlt_floor (sec / 60)) as Hg.
  fold F in Hf, Hg. rewrite inject_Z_plus in Hg. change (inject_Z 1) with 1 in Hg.
  repeat split; try lra.
  change 0%Z with (Qfloor 0). apply Qfloor_resp_le. lra.
Qed.

Lemma fmtTime_hm (sec : Q) :
  0 <= sec ->
  let F := Qfloor (sec / 60) in
  fmtTime sec = render ((F / 60) mod 24) (F mod 60).
Proof.
  intros Hsec F. destruct (floor_minutes sec Hsec) as (HF0 & HFlo & HFhi).
  fold F in HF0, HFlo, HFhi.
  pose proof (Z.div_mod F 60 ltac:(lia)) as Hdm.
  pose proof (Z.mod_pos_bound F 60 ltac:(lia)) as Hr.
  assert (Hq0 : (0 <= F / 60)%Z) by (apply Z.div_pos; lia).
  assert (HFq : inject_Z F == 60 * inject_Z (F / 60) + inject_Z (F mod 60)).
  { rewrite Hdm at 1. rewrite inject_Z_plus, inject_Z_mult. reflexivity. }
  assert (Hrlo : 0 <= inject_Z (F mod 60))
    by (change 0 with (inject_Z 0); rewrite <- Zle_Qle; lia).
  assert (Hrhi : inject_Z (F mod 60) <= 59)
    by (change 59 with (inject_Z 59); rewrite <- Zle_Qle; lia).
  assert (HH : Qfloor (sec / 3600) = (F / 60)%Z).
  { apply Qfloor_unique.
    - apply Qle_shift_div_l; [reflexivity|]. lra.
    - apply Qlt_shift_div_r; [reflexivity|].
      rewrite inject_Z_plus. change (inject_Z 1) with 1. lra. }
  unfold fmtTime. rewrite HH. f_equal.
  - apply Z.rem_mod_nonneg; lia.
  - unfold Qrem, Qtrunc.
    assert (Hnn : Qle_bool 0 (sec / 3600) = true).
    { apply Qle_bool_iff. apply Qle_shift_div_l; [reflexivity|]. lra. }
    rewrite Hnn, HH. apply Qfloor_unique.
    + apply Qle_shift_div_l; [reflexivity|]. lra.
    + apply Qlt_shift_div_r; [reflexivity|].
      rewrite inject_Z_plus. change (inject_Z 1) with 1. lra.
Qed.

Lemma all_roundTrips :
  forallb (fun h => forallb (roundTrips h) (seq 0 60)) (seq 0 24) = true.
Proof. vm_compute. reflexivity. Qed.

Lemma roundTrips_ok (h m : nat) :
  (h < 24)%nat -> (m < 60)%nat -> roundTrips h m = true.
Proof.
  intros Hh Hm. pose proof all_roundTrips as Hall.
  rewrite forallb_forall in Hall.
  assert (Hin : In h (seq 0 24)) by (apply in_seq; lia).
  specialize (Hall h Hin). rewrite forallb_forall in Hall.
  apply Hall. apply in_seq. lia.
Qed.

Lemma roundTrips_elim (h m : nat) :
  roundTrips h m = true ->
  exists q,
    Pre.timeToSec (render (Z.of_nat h) (Z.of_nat m)) = lit q
    /\ q == inject_Z (Z.of_nat h * 3600 + Z.of_nat m * 60)
    /\ fmtTime q = render (Z.of_nat h) (Z.of_nat m)
    /\ String.length (render (Z.of_nat h) (Z.of_nat m)) = 5%nat.
Proof.
  unfold roundTrips.
  destruct (Pre.timeToSec (render (Z.of_nat h) (Z.of_nat m))) as [[q|]| |];
    try discriminate.
  rewrite !andb_true_iff. intros [[Hq Hs] Hl]. exists q.
  repeat split.
  - apply Qeq_bool_eq. exact Hq.
  - apply String.eqb_eq. exact Hs.
  - apply Nat.eqb_eq. exact Hl.
Qed.

End FmtTime.

(** X7. For a time that is not negative [fmtTime] gives the five characters
    ["HH:MM"] of the hour modulo 24 and the minute of the whole minutes of the
    time; a day later the text is the same. *)
Theorem fmtTime_shows_hour_and_minute (sec : Q) :
  0 <= sec ->
  let F := Qfloor (sec / 60) in
  Display.fmtTime sec = Display.render ((F / 60) mod 24) (F mod 60)
  /\ (0 <= (F / 60) mod 24 < 24)%Z /\ (0 <= F mod 60 < 60)%Z
  /\ String.length (Display.fmtTime sec) = 5%nat
  /\ Display.fmtTime (sec + 86400) = Display.fmtTime sec.
Proof.
  intros Hsec F.
  pose proof (Z.mod_pos_bound (F / 60) 24 ltac:(lia)) as Hh.
  pose proof (Z.mod_pos_bound F 60 ltac:(lia)) as Hm.
  pose proof (fmtTime_hm sec Hsec) as Hfmt. fold F in Hfmt.
  split; [exact Hfmt|]. split; [exact Hh|]. split; [exact Hm|]. split.
  - rewrite Hfmt.
    destruct (roundTrips_elim (Z.to_nat ((F / 60) mod 24)) (Z.to_nat (F mod 60)))
      as (q & _ & _ & _ & Hlen); [apply roundTrips_ok; lia|].
    rewrite !Z2Nat.id in Hlen by lia. exact Hlen.
  - assert (Hsec' : 0 <= sec + 86400) by lra.
    rewrite (fmtTime_hm _ Hsec'), Hfmt.
    destruct (floor_minutes sec Hsec) as (HF0 & HFlo & HFhi). fold F in HF0, HFlo, HFhi.
    assert (HF' : Qfloor ((sec + 86400) / 60) = (F + 1440)%Z).
    { apply Qfloor_unique.
      - apply Qle_shift_div_l; [reflexivity|]. rewrite inject_Z_plus.
        change (inject_Z 1440) with 1440. lra.
      - apply Qlt_shift_div_r; [reflexivity|]. rewrite !inject_Z_plus.
        change (inject_Z 1440) with 1440. change (inject_Z 1) with 1. lra. }
    rewrite HF'. f_equal.
    + replace (F + 1440)%Z with (F + 24 * 60)%Z by lia.
      rewrite Z.div_add by lia.
      replace (F / 60 + 24)%Z with (F / 60 + 1 * 24)%Z by lia.
      apply Z.mod_add. lia.
    + replace (F + 1440)%Z with (F + 24 * 60)%Z by lia. apply Z.mod_add. lia.
Qed.

Lemma fmtTime_shows_hour_and_minute_witness :
  Display.fmtTime (93600 + 86400) = Display.fmtTime 93600.
Proof.
  apply (proj2 (proj2 (proj2 (proj2
           (fmtTime_shows_hour_and_minute 93600 ltac:(discriminate)))))).
Defined.

(** X8. [fmtTime] and [timeToSec] undo each other on the minute: the text of
    an hour below 24 and a minute below 60 is read back by [timeToSec] as that
    many seconds, which [fmtTime] shows as the same text; and reading the
    text of any time that is not negative gives its whole minutes within the
    day, in seconds. *)
Theorem fmtTime_timeToSec_round_trip :
  (forall h m : nat,
      (h < 24)%nat -> (m < 60)%nat ->
      exists q,
        Pre.timeToSec (Display.render (Z.of_nat h) (Z.of_nat m)) = lit q
        /\ q == inject_Z (Z.of_nat h * 3600 + Z.of_nat m * 60)
        /\ Display.fmtTime q = Display.render (Z.of_nat h) (Z.of_nat m))
  /\ (forall sec : Q,
         0 <= sec ->
         exists q,
           Pre.timeToSec (Display.fmtTime sec) = lit q
           /\ q == inject_Z ((Qfloor (sec / 60) mod 1440) * 60)).
Proof.
  split.
  - intros h m Hh Hm.
    destruct (roundTrips_elim h m (roundTrips_ok h m Hh Hm))
      as (q & Hq & Hv & Hf & _).
    exists q. repeat split; assumption.
  - intros sec Hsec. rewrite (fmtTime_hm sec Hsec).
    set (F := Qfloor (sec / 60)).
    pose proof (Z.mod_pos_bound (F / 60) 24 ltac:(lia)) as Hh.
    pose proof (Z.mod_pos_bound F 60 ltac:(lia)) as Hm.
    destruct (roundTrips_elim (Z.to_nat ((F / 60) mod 24)) (Z.to_nat (F mod 60)))
      as (q & Hq & Hv & _); [apply roundTrips_ok; lia|].
    rewrite !Z2Nat.id in Hq, Hv by lia.
    exists q. split; [exact Hq|]. rewrite Hv.
    assert (E : ((F / 60) mod 24 * 3600 + F mod 60 * 60 = F mod 1440 * 60)%Z).
    { Z.div_mod_to_equations. lia. }
    rewrite E. reflexivity.
Qed.

Lemma fmtTime_timeToSec_round_trip_witness :
  exists q,
    Pre.timeToSec (Display.fmtTime 29130) = lit q
    /\ q == inject_Z ((Qfloor (29130 / 60) mod 1440) * 60).
Proof.
  apply (proj2 fmtTime_timeToSec_round_trip 29130). discriminate.
Defined.

(** ** Play, pause and seek *)

Section PlayerFacts.

Import Player Notions.

Lemma advance_in_range (dt prev : Q) :
  0 <= dt -> Clock.T_MIN <= prev <= Clock.T_MAX ->
  Clock.T_MIN <= Clock.advance dt prev <= Clock.T_MAX.
Proof.
  intros Hdt [Hlo Hhi]. unfold Clock.advance.
  destruct (Qlt_bool Clock.T_MAX (prev + dt * Clock.SIM_SPEED)) eqn:E.
  - unfold Clock.T_MIN, Clock.T_MAX. lra.
  - apply Qlt_bool_false_iff in E. split; [|exact E].
    unfold Clock.SIM_SPEED in *. lra.
Qed.

Lemma run_in_range (evs : list event) :
  forall (st : state) (last : option Q),
    notAfter (lastT st) last ->
    wellTimed last evs ->
    Clock.T_MIN <= simTime st <= Clock.T_MAX ->
    Clock.T_MIN <= simTime (run st evs) <= Clock.T_MAX.
Proof.
  unfold run. induction evs as [|ev evs IH]; intros st last Hlast Hwt Hrange;
    cbn [fold_left]; [exact Hrange|].
  destruct ev as [ts| |v]; cbn [wellTimed] in Hwt.
  - destruct Hwt as [Hts Hwt]. apply (IH _ (Some ts)); [|exact Hwt|].
    + cbn [handle]. destruct (playing st); cbn [lastT notAfter].
      * lra.
      * unfold notAfter in *. destruct (lastT st) as [l|]; [|exact I].
        destruct last as [l'|]; [lra|contradiction].
    + cbn [handle]. destruct (playing st); [|exact Hrange]. cbn [simTime].
      destruct (lastT st) as [l|] eqn:El; [|exact Hrange].
      apply advance_in_range; [|exact Hrange].
      unfold notAfter in Hlast. destruct last as [l'|]; [|contradiction].
      apply Qle_shift_div_l; [reflexivity|]. lra.
  - apply (IH _ last); [|exact Hwt|].
    + cbn [handle]. destruct (playing st); cbn [lastT]; [exact I|exact Hlast].
    + cbn [handle]. destruct (playing st); exact Hrange.
  - destruct Hwt as [Hv Hwt]. apply (IH _ last); [exact Hlast|exact Hwt|exact Hv].
Qed.




End PlayerFacts.

(** X9. From the start of the application, whatever is played, paused and
    moved on the slider, as long as the frames come with time stamps that do
    not go back, the simulated time stays between [T_MIN] and [T_MAX]. *)
Theorem player_time_stays_in_service_hours (evs : list Player.event) :
  Player.wellTimed None evs ->
  Clock.T_MIN <= Player.simTime (Player.run Player.initial evs) <= Clock.T_MAX.
Proof.
  intro Hwt. apply (run_in_range evs Player.initial None); [exact I|exact Hwt|].
  unfold Player.initial, Clock.T_MIN, Clock.T_MAX. cbn [Player.simTime]. lra.
Qed.

Lemma player_time_stays_in_service_hours_witness :
  Clock.T_MIN
  <= Player.simTime
       (Player.run Player.initial
          [Player.Frame 0; Player.Frame 16; Player.TogglePlay;
           Player.Seek 93600; Player.TogglePlay; Player.Frame 5000;
           Player.Frame 5016])
  <= Clock.T_MAX.
Proof.
  apply player_time_stays_in_service_hours.
  cbn [Player.wellTimed]. unfold Clock.T_MIN, Clock.T_MAX.
  repeat split; try exact I; discriminate.
Defined.



(** * More of the preprocessor *)

(** ** Tables of rows with one entry for an id *)

Section LastWins.

Import Pre Notions.

Lemma find_app {A : Type} (f : A -> bool) (l1 l2 : list A) :
  find f (l1 ++ l2) = match find f l1 with Some x => Some x | None => find f l2 end.
Proof.
  induction l1 as [|x l1 IH]; cbn [app find]; [reflexivity|].
  destruct (f x); [reflexivity|exact IH].
Qed.

Lemma sget_sset {A : Type} (o : strObj A) (k k2 : string) (a : A) :
  sget (sset o k a) k2 = if String.eqb k2 k then Some a else sget o k2.
Proof.
  destruct (String.eqb k2 k) eqn:E.
  - apply String.eqb_eq in E. subst k2. apply sget_sset_same.
  - apply sget_sset_other. exact E.
Qed.

(** Rows written one after the other under their keys: the last row of a key
    is the one that stays. *)
Lemma sget_fold_sset {A B : Type} (key : A -> string) (val : A -> B)
      (k : string) (l : list A) :
  forall o : strObj B,
    sget (fold_left (fun o x => sset o (key x) (val x)) l o) k =
    match find (fun x => String.eqb k (key x)) (rev l) with
    | Some x => Some (val x)
    | None => sget o k
    end.
Proof.
  induction l as [|x l IH]; intro o; cbn [fold_left rev]; [reflexivity|].
  rewrite IH, find_app. destruct (find _ (rev l)); [reflexivity|].
  cbn [find]. rewrite sget_sset. destruct (String.eqb k (key x)); reflexivity.
Qed.

End LastWins.

(** X11. When a trip id or a stop id is in several rows of its table the last
    row is the one [main] uses, and an id that is in no row has no entry. *)
Theorem last_row_of_an_id_wins
        (trips : list TripRow.t) (stops : list StopRow.t) (id : string) :
  Pre.sget (Pre.tripRouteOf trips) id
  = option_map TripRow.route_id
               (find (fun t => String.eqb id (TripRow.trip_id t)) (rev trips))
  /\ Pre.sget (Pre.stopsMapOf stops) id
     = option_map Notions.recOf
                  (find (fun s => String.eqb id (StopRow.stop_id s)) (rev stops))
  /\ ((forall t, In t trips -> TripRow.trip_id t <> id) ->
      Pre.routeOfTrip (Pre.tripRouteOf trips) id = None).
Proof.
  assert (Htrip : Pre.sget (Pre.tripRouteOf trips) id
                  = option_map TripRow.route_id
                      (find (fun t => String.eqb id (TripRow.trip_id t)) (rev trips))).
  { unfold Pre.tripRouteOf. rewrite sget_fold_sset.
    destruct (find _ (rev trips)); reflexivity. }
  split; [exact Htrip|]. split.
  - unfold Pre.stopsMapOf.
    rewrite (sget_fold_sset StopRow.stop_id Notions.recOf).
    destruct (find _ (rev stops)); reflexivity.
  - intro Hnone. unfold Pre.routeOfTrip. rewrite Htrip.
    destruct (find _ (rev trips)) as [t|] eqn:E; [|reflexivity].
    apply find_some in E. destruct E as [Hin Heq].
    apply String.eqb_eq in Heq. apply in_rev in Hin.
    exfalso. exact (Hnone t Hin (eq_sym Heq)).
Qed.

Lemma last_row_of_an_id_wins_witness :
  Pre.routeOfTrip (Pre.tripRouteOf (Pre.tripsRaw Sample.feedZero)) "t9" = None.
Proof.
  apply (proj2 (proj2 (last_row_of_an_id_wins
                         (Pre.tripsRaw Sample.feedZero) [] "t9"))).
  intros t [<-|[]]. discriminate.
Defined.

(** ** One trip for each direction and shape *)

Section FirstWins.

Import Pre Notions.

Lemma routeTripsStep_at (rid key : string) (acc : strObj (strObj tripInfo))
      (t : TripRow.t) :
  tripInfoAt (routeTripsStep acc t) rid key =
  match tripInfoAt acc rid key with
  | Some i => Some i
  | None => if tripMatches rid key t then Some (infoOf t) else None
  end.
Proof.
  unfold tripInfoAt, routeTripsStep, tripMatches. rewrite sget_sset.
  destruct (String.eqb rid (TripRow.route_id t)) eqn:Er; cbn [andb].
  - apply String.eqb_eq in Er. subst rid.
    destruct (sget acc (TripRow.route_id t)) as [o|].
    + destruct (sget o (tripKey t)) as [i0|] eqn:Ek.
      * destruct (sget o key) as [i|] eqn:Ei; [reflexivity|].
        destruct (String.eqb key (tripKey t)) eqn:E; [|reflexivity].
        apply String.eqb_eq in E. subst key. congruence.
      * rewrite sget_sset. destruct (String.eqb key (tripKey t)) eqn:E.
        -- apply String.eqb_eq in E. subst key. rewrite Ek. reflexivity.
        -- destruct (sget o key); reflexivity.
    + unfold sget, sset. cbn [get set].
      destruct (String.eqb key (tripKey t)); reflexivity.
  - destruct (sget acc rid) as [o|]; [|reflexivity].
    destruct (sget o key); reflexivity.
Qed.

Lemma routeTrips_fold (rid key : string) (trips : list TripRow.t) :
  forall acc,
    tripInfoAt (fold_left routeTripsStep trips acc) rid key =
    match tripInfoAt acc rid key with
    | Some i => Some i
    | None => option_map infoOf (find (tripMatches rid key) trips)
    end.
Proof.
  induction trips as [|t trips IH]; intro acc; cbn [fold_left find].
  - destruct (tripInfoAt acc rid key); reflexivity.
  - rewrite IH, routeTripsStep_at.
    destruct (tripInfoAt acc rid key); [reflexivity|].
    destruct (tripMatches rid key t); reflexivity.
Qed.

End FirstWins.

(** X12. Of the trips of a route that have the same direction and shape (the
    same key [direction_shape]) the first in the table is the one kept, with
    its trip id and head sign; a route and key with no trip have no entry. *)
Theorem first_trip_of_a_shape_is_kept
        (trips : list TripRow.t) (rid key : string) :
  Notions.tripInfoAt (Pre.routeTripsOf trips) rid key
  = option_map Notions.infoOf (find (Notions.tripMatches rid key) trips)
  /\ (forall t later,
         Notions.tripMatches rid key t = true ->
         Notions.tripInfoAt (Pre.routeTripsOf (t :: later)) rid key
         = Some (Notions.infoOf t)).
Proof.
  assert (H : forall l, Notions.tripInfoAt (Pre.routeTripsOf l) rid key
                        = option_map Notions.infoOf
                            (find (Notions.tripMatches rid key) l)).
  { intro l. unfold Pre.routeTripsOf. rewrite routeTrips_fold. reflexivity. }
  split; [apply H|]. intros t later Ht. rewrite H. cbn [find]. rewrite Ht.
  reflexivity.
Qed.

Lemma first_trip_of_a_shape_is_kept_witness :
  Notions.tripInfoAt
    (Pre.routeTripsOf [TripRow.mk "t1" "r1" "0" "s1" "Centro";
                       TripRow.mk "t2" "r1" "0" "s1" "Norte"]) "r1" "0_s1"
  = Some (Notions.infoOf (TripRow.mk "t1" "r1" "0" "s1" "Centro")).
Proof.
  apply (proj2 (first_trip_of_a_shape_is_kept [] "r1" "0_s1")).
  reflexivity.
Defined.

(** ** Rows gathered by id and sorted by sequence number *)

Section Grouping.

Import Pre PreSpec Notions.

Lemma Permutation_insert {A : Type} (cmp : A -> A -> value) (x : A) (l : list A) :
  Permutation (insert cmp x l) (x :: l).
Proof.
  induction l as [|y l IH]; cbn [insert]; [reflexivity|].
  destruct (JS.gt (cmp x y) (lit 0)); [|reflexivity].
  rewrite IH. apply perm_swap.
Qed.

Lemma Permutation_sort {A : Type} (cmp : A -> A -> value) (l : list A) :
  Permutation (sort cmp l) l.
Proof.
  induction l as [|x l IH]; [reflexivity|].
  rewrite sort_cons, Permutation_insert, IH. reflexivity.
Qed.

(** Rows pushed one after the other to the array of their key. *)
Lemma sget_fold_pushTo {A B : Type} (key : A -> string) (val : A -> B)
      (k : string) (rows : list A) :
  forall o : strObj (list B),
    sget (fold_left (fun o r => pushTo o (key r) (val r)) rows o) k =
    match sget o k, map val (filter (fun r => String.eqb (key r) k) rows) with
    | Some l, new => Some (l ++ new)
    | None, [] => None
    | None, new => Some new
    end.
Proof.
  induction rows as [|r rows IH]; intro o; cbn [fold_left filter map].
  - destruct (sget o k); [rewrite app_nil_r|]; reflexivity.
  - rewrite IH. destruct (String.eqb (key r) k) eqn:E.
    + apply String.eqb_eq in E. subst k. rewrite sget_pushTo_same. cbn [map].
      destruct (sget o (key r)) as [l|]; [rewrite <- app_assoc|]; reflexivity.
    + rewrite sget_pushTo_other; [reflexivity|].
      rewrite String.eqb_sym. exact E.
Qed.

Lemma sget_grouped_sorted {A B : Type} (key : A -> string) (val : A -> B)
      (cmp : B -> B -> value) (k : string) (rows : list A) :
  sget (map (fun kv => (fst kv, sort cmp (snd kv)))
            (fold_left (fun o r => pushTo o (key r) (val r)) rows [])) k =
  match map val (filter (fun r => String.eqb (key r) k) rows) with
  | [] => None
  | l => Some (sort cmp l)
  end.
Proof.
  rewrite sget_map_values, sget_fold_pushTo. cbn [sget get].
  destruct (map val (filter _ rows)); reflexivity.
Qed.

Lemma sort_not_nil {A : Type} (cmp : A -> A -> value) (l : list A) :
  l <> [] -> sort cmp l <> [].
Proof.
  intros Hl Hs. pose proof (Permutation_sort cmp l) as Hp. rewrite Hs in Hp.
  apply Permutation_nil in Hp. contradiction.
Qed.

Lemma last_cons_any {A : Type} (l : list A) :
  forall d x, last (x :: l) d = last l x.
Proof.
  induction l as [|y l IH]; intros d x; [reflexivity|].
  change (last (x :: y :: l) d) with (last (y :: l) d).
  rewrite (IH d y), (IH x y). reflexivity.
Qed.

Lemma nth_error_last {A : Type} (rest : list A) :
  forall first,
    nth_error (first :: rest) (List.length rest) = Some (last rest first).
Proof.
  induction rest as [|v rest IH]; intro first; [reflexivity|].
  cbn [List.length nth_error]. rewrite (IH v), last_cons_any. reflexivity.
Qed.

Lemma le_value_trans (a b c : value) :
  JS.le a b = true -> JS.le b c = true -> JS.le a c = true.
Proof.
  unfold JS.le. destruct (toNumber a), (toNumber b), (toNumber c); cbn;
    try discriminate. rewrite !Qle_bool_iff. lra.
Qed.

Lemma sub_pos_le (a b : value) :
  numeric a -> numeric b ->
  JS.gt (JS.sub a b) (lit 0) = true -> JS.le b a = true.
Proof.
  intros [x Hx] [y Hy]. unfold JS.gt, JS.sub, JS.le, ngt. cbn [toNumber lit].
  rewrite Hx, Hy. cbn. rewrite Qlt_bool_iff, Qle_bool_iff. lra.
Qed.

Lemma sub_nonpos_le (a b : value) :
  numeric a -> numeric b ->
  JS.gt (JS.sub a b) (lit 0) = false -> JS.le a b = true.
Proof.
  intros [x Hx] [y Hy]. unfold JS.gt, JS.sub, JS.le, ngt. cbn [toNumber lit].
  rewrite Hx, Hy. cbn. rewrite Qlt_bool_false_iff, Qle_bool_iff. lra.
Qed.

End Grouping.

(** X13. The points [main] has for a shape id are the points of all the rows
    of [shapes.txt] with that id, none lost and none added, in ascending order
    of their sequence numbers when these are numbers; a shape id with no row
    has no entry, and no entry is an empty list. *)
Theorem shape_points_are_its_rows_in_sequence
        (rows : list ShapeRow.t) (id : string) :
  let mine := filter (fun r => String.eqb (ShapeRow.shape_id r) id) rows in
  (mine = [] -> Pre.sget (Pre.shapesMapOf rows) id = None)
  /\ (mine <> [] ->
      exists pts,
        Pre.sget (Pre.shapesMapOf rows) id = Some pts
        /\ pts <> []
        /\ Permutation pts (map Notions.ptOf mine)
        /\ (Forall (fun r => PreSpec.numeric (Num (parseInt (ShapeRow.shape_pt_sequence r))))
                   mine ->
            StronglySorted Notions.seqNoLater pts)).
Proof.
  intro mine.
  assert (Hget : Pre.sget (Pre.shapesMapOf rows) id
                 = match map Notions.ptOf mine with
                   | [] => None
                   | l => Some (sort Notions.bySeq l)
                   end).
  { unfold Pre.shapesMapOf.
    exact (sget_grouped_sorted ShapeRow.shape_id Notions.ptOf Notions.bySeq id rows). }
  split.
  - intro Hnil. rewrite Hget, Hnil. reflexivity.
  - intro Hne. destruct mine as [|r0 rest] eqn:E; [contradiction|].
    exists (sort Notions.bySeq (map Notions.ptOf (r0 :: rest))).
    split; [exact Hget|]. split; [apply sort_not_nil; discriminate|].
    split; [apply Permutation_sort|].
    intro Hnum.
    apply sort_sorted with (P := fun p => PreSpec.numeric (Pre.seq p)).
    + intros a b c. apply le_value_trans.
    + intros a b. apply sub_pos_le.
    + intros a b. apply sub_nonpos_le.
    + apply Forall_map. exact Hnum.
Qed.

Lemma shape_points_are_its_rows_in_sequence_witness :
  exists pts,
    Pre.sget (Pre.shapesMapOf (Pre.shapesRaw Sample.feedZero)) "s1" = Some pts
    /\ pts <> [].
Proof.
  destruct (proj2 (shape_points_are_its_rows_in_sequence
                     (Pre.shapesRaw Sample.feedZero) "s1"))
    as (pts & Hget & Hne & _).
  - discriminate.
  - exists pts. split; assumption.
Defined.

(** X14. The trip duration of a band is 1800 exactly for a trip without any
    row in [stop_times.txt]; for a trip with rows it is the arrival at the
    last visit minus the arrival at the first, both visits being rows of the
    trip (the same row when there is one only), in ascending order of the stop
    sequence when these are numbers. No element of an empty array is read. *)
Theorem tripDur_is_last_arrival_minus_first
        (rows : list StopTimeRow.t) (id : string) :
  let mine := filter (fun r => String.eqb (StopTimeRow.trip_id r) id) rows in
  (mine = [] -> Pre.tripDurOf (Pre.tripStopsOf rows) id = lit 1800)
  /\ (mine <> [] ->
      exists first rest,
        Pre.sget (Pre.tripStopsOf rows) id = Some (first :: rest)
        /\ Permutation (first :: rest) (map Pre.visitOf mine)
        /\ Pre.tripDurOf (Pre.tripStopsOf rows) id
           = JS.sub (Pre.arrSec (last rest first)) (Pre.arrSec first)
        /\ (Forall (fun r => PreSpec.numeric (Num (parseInt (StopTimeRow.stop_sequence r))))
                   mine ->
            StronglySorted Notions.visitNoLater (first :: rest))).
Proof.
  intro mine.
  assert (Hget : Pre.sget (Pre.tripStopsOf rows) id
                 = match map Pre.visitOf mine with
                   | [] => None
                   | l => Some (sort Notions.byVisitSeq l)
                   end).
  { unfold Pre.tripStopsOf.
    exact (sget_grouped_sorted StopTimeRow.trip_id Pre.visitOf
                               Notions.byVisitSeq id rows). }
  split.
  - intro Hnil. unfold Pre.tripDurOf. rewrite Hget, Hnil. reflexivity.
  - intro Hne. destruct mine as [|r0 others] eqn:E; [contradiction|].
    destruct (sort Notions.byVisitSeq (map Pre.visitOf (r0 :: others)))
      as [|first rest] eqn:Hs.
    { exfalso. revert Hs. apply sort_not_nil. discriminate. }
    exists first, rest. cbn [map] in Hget. cbn [map] in Hs. rewrite Hs in Hget.
    split; [exact Hget|]. split; [rewrite <- Hs; apply Permutation_sort|]. split.
    + unfold Pre.tripDurOf. rewrite Hget. unfold Pre.arrSecAt.
      cbn [List.length Nat.sub]. rewrite Nat.sub_0_r, nth_error_last.
      reflexivity.
    + intro Hnum. rewrite <- Hs.
      apply sort_sorted with (P := fun v => PreSpec.numeric (Pre.v_seq v)).
      * intros a b c. apply le_value_trans.
      * intros a b. apply sub_pos_le.
      * intros a b. apply sub_nonpos_le.
      * change (Pre.visitOf r0 :: map Pre.visitOf others)
          with (map Pre.visitOf (r0 :: others)).
        apply Forall_map. exact Hnum.
Qed.

Lemma tripDur_is_last_arrival_minus_first_witness :
  Pre.tripDurOf (Pre.tripStopsOf (Pre.stRaw Sample.feedZero)) "t7" = lit 1800.
Proof.
  apply (proj1 (tripDur_is_last_arrival_minus_first
                  (Pre.stRaw Sample.feedZero) "t7")).
  reflexivity.
Defined.

(** ** The stops of a shape and the emitted routes *)

Section Emitted.

Import Pre PreSpec Notions.

Lemma round6_numeric (v : value) (q : Q) :
  toNumber v = Fin q ->
  round6 v = lit (inject_Z (Qfloor (q * 1000000 + (1 # 2))) / 1000000).
Proof.
  intro H. unfold round6, JS.div, JSLib.round, JS.mul. rewrite H. reflexivity.
Qed.

Lemma stopArrOf_flat (stopsMap : strObj stopRec) (tStops : list visit) :
  stopArrOf stopsMap tStops = flat_map (stopOfVisit stopsMap) tStops.
Proof.
  unfold stopArrOf.
  assert (H : forall acc,
    fold_left
      (fun stopArr ts =>
         match sget stopsMap (v_stop_id ts) with
         | Some stop =>
             if negb (isNaN (toNumber (sr_lat stop)))
                && negb (isNaN (toNumber (sr_lon stop)))
             then stopArr ++ [Stop.mk (sr_id stop) (sr_name stop)
                                      (round6 (sr_lon stop), round6 (sr_lat stop))
                                      (v_dist ts) (arrSec ts)]
             else stopArr
         | None => stopArr
         end) tStops acc
    = acc ++ flat_map (stopOfVisit stopsMap) tStops).
  { induction tStops as [|ts l IH]; intro acc; cbn [fold_left flat_map].
    - rewrite app_nil_r. reflexivity.
    - rewrite IH. unfold stopOfVisit at 2.
      destruct (sget stopsMap (v_stop_id ts)) as [stop|]; [|reflexivity].
      destruct (negb (isNaN (toNumber (sr_lat stop)))
                && negb (isNaN (toNumber (sr_lon stop))));
        [rewrite <- app_assoc|]; reflexivity. }
  exact (H []).
Qed.

Lemma stopOfVisit_located (stopsMap : strObj stopRec) (ts : visit) :
  Forall located (stopOfVisit stopsMap ts).
Proof.
  unfold stopOfVisit. destruct (sget stopsMap (v_stop_id ts)) as [stop|];
    [|constructor].
  destruct (toNumber (sr_lat stop)) as [y|] eqn:Hy; cbn [isNaN negb andb];
    [|constructor].
  destruct (toNumber (sr_lon stop)) as [x|] eqn:Hx; cbn [isNaN negb];
    [|constructor].
  constructor; [|constructor]. unfold located. cbn [Stop.coords].
  rewrite (round6_numeric _ _ Hx), (round6_numeric _ _ Hy).
  eexists. eexists. reflexivity.
Qed.

Lemma stopArrOf_located (stopsMap : strObj stopRec) (tStops : list visit) :
  Forall located (stopArrOf stopsMap tStops).
Proof.
  rewrite stopArrOf_flat. induction tStops as [|ts l IH]; cbn [flat_map];
    [constructor|].
  apply Forall_app. split; [apply stopOfVisit_located|exact IH].
Qed.

Lemma simplify_length (pts : list pt) :
  (2 <= List.length pts)%nat -> (2 <= List.length (simplify pts))%nat.
Proof.
  intro Hlen. rewrite simplify_spec, length_map.
  change 2%nat with (List.length [0%nat; (List.length pts - 1)%nat]).
  apply NoDup_incl_length.
  - constructor; [|constructor; [intros []|constructor]].
    intros [H|[]]. lia.
  - intros k [<-|[<-|[]]]; apply filter_In; split;
      try (apply in_seq; lia); [apply keep_first|apply keep_last].
Qed.

Lemma shapes_wellFormed (shapesMap : strObj (list pt)) (stopsMap : strObj stopRec)
      (tripStops : strObj (list visit)) (tis : list tripInfo) :
  forall acc,
    Forall wellFormedShape acc ->
    Forall wellFormedShape
           (fold_left (shapeStep shapesMap stopsMap tripStops) tis acc).
Proof.
  induction tis as [|ti tis IH]; intros acc Hacc; cbn [fold_left]; [exact Hacc|].
  apply IH. unfold shapeStep.
  destruct (sget shapesMap (ti_shape_id ti)) as [pts|]; [|exact Hacc].
  destruct (List.length pts <? 2)%nat eqn:E; [exact Hacc|].
  apply Nat.ltb_ge in E. apply Forall_app. split; [exact Hacc|].
  constructor; [|constructor]. split; cbn [Shape.coordinates Shape.stops].
  - apply simplify_length. exact E.
  - apply stopArrOf_located.
Qed.

Lemma outputRoutes_ok (tb : tables) :
  Forall (emittedOk tb) (outputRoutesOf tb).
Proof.
  unfold outputRoutesOf.
  set (step := routeStep _ _ _ _ _).
  assert (H : forall rows acc,
             incl rows (routesRaw tb) ->
             Forall (emittedOk tb) acc ->
             Forall (emittedOk tb) (fold_left step rows acc)).
  { induction rows as [|row rows IH]; intros acc Hincl Hacc; cbn [fold_left];
      [exact Hacc|].
    apply IH; [intros x Hx; apply Hincl; right; exact Hx|].
    unfold step, routeStep.
    destruct (sget _ (RouteRow.route_id row)) as [trips|]; [|exact Hacc].
    pose proof (shapes_wellFormed (shapesMapOf (shapesRaw tb))
                  (stopsMapOf (stopsRaw tb)) (tripStopsOf (stRaw tb))
                  (values trips) [] (Forall_nil _)) as Hwf.
    destruct (fold_left _ (values trips) []) as [|sh0 shs]; [exact Hacc|].
    apply Forall_app. split; [exact Hacc|]. constructor; [|constructor].
    unfold emittedOk. cbn [Route.id Route.shortName Route.longName Route.shapes
                           Route.tripDuration hd].
    repeat split; [|discriminate|exact Hwf].
    exists row. repeat split. apply Hincl. left. reflexivity. }
  apply H; [apply incl_refl|constructor].
Qed.

Lemma stops_fold_from (l : list Stop.t) :
  forall acc s,
    In s (snd (fold_left stopStep l acc)) -> In s (snd acc) \/ In s l.
Proof.
  induction l as [|x l IH]; intros acc s Hs; cbn [fold_left] in Hs;
    [left; exact Hs|].
  apply IH in Hs. destruct Hs as [Hs|Hs]; [|right; right; exact Hs].
  destruct acc as [seen allStops]. unfold stopStep in Hs.
  destruct (has seen (Stop.id x)); [left; exact Hs|].
  cbn [snd] in Hs. apply in_app_or in Hs. destruct Hs as [Hs|[<-|[]]];
    [left; exact Hs|right; left; reflexivity].
Qed.

End Emitted.

(** X15. The stops of a shape are, in the order of the trip's visits, the
    visits whose stop id has a row in [stops.txt] with a latitude and a
    longitude that are numbers; the other visits are dropped. So a shape has
    at most as many stops as its trip has visits, every one of them has
    numeric coordinates, and it carries the distance and the arrival time
    of its visit. *)
Theorem shape_stops_are_the_located_visits
        (stopsMap : Pre.strObj Pre.stopRec) (tStops : list Pre.visit) :
  Pre.stopArrOf stopsMap tStops
  = flat_map (Notions.stopOfVisit stopsMap) tStops
  /\ Forall Notions.located (Pre.stopArrOf stopsMap tStops)
  /\ (List.length (Pre.stopArrOf stopsMap tStops) <= List.length tStops)%nat
  /\ (forall s, In s (Pre.stopArrOf stopsMap tStops) ->
        exists ts stop,
          In ts tStops
          /\ Pre.sget stopsMap (Pre.v_stop_id ts) = Some stop
          /\ PreSpec.numeric (Pre.sr_lat stop)
          /\ PreSpec.numeric (Pre.sr_lon stop)
          /\ Stop.id s = Pre.sr_id stop
          /\ Stop.dist s = Pre.v_dist ts
          /\ Stop.arr s = Pre.arrSec ts).
Proof.
  split; [apply stopArrOf_flat|].
  split; [apply stopArrOf_located|].
  rewrite stopArrOf_flat. split.
  - induction tStops as [|ts l IH]; cbn [flat_map List.length]; [lia|].
    rewrite length_app.
    assert (H : (List.length (Notions.stopOfVisit stopsMap ts) <= 1)%nat).
    { unfold Notions.stopOfVisit.
      destruct (Pre.sget stopsMap (Pre.v_stop_id ts)) as [stop|]; cbn; [|lia].
      destruct (negb _ && negb _); cbn; lia. }
    lia.
  - intros s Hs. apply in_flat_map in Hs. destruct Hs as (ts & Hts & Hs).
    unfold Notions.stopOfVisit in Hs.
    destruct (Pre.sget stopsMap (Pre.v_stop_id ts)) as [stop|] eqn:Eg;
      [|destruct Hs].
    destruct (toNumber (Pre.sr_lat stop)) as [y|] eqn:Hy;
      cbn [isNaN negb andb] in Hs; [|destruct Hs].
    destruct (toNumber (Pre.sr_lon stop)) as [x|] eqn:Hx;
      cbn [isNaN negb] in Hs; [|destruct Hs].
    destruct Hs as [<-|[]]. exists ts, stop.
    repeat split; try assumption; try reflexivity.
    + exists y. exact Hy.
    + exists x. exact Hx.
Qed.

(** X16. Every route of [routes.json] comes from a row of [routes.txt]
    (same id and names), has at least one shape, each of its shapes has at
    least two coordinates and only stops with numeric coordinates, and its
    trip duration is the one read off the stops of its first shape. Every
    stop of [stops.json] has numeric coordinates. *)
Theorem emitted_routes_are_well_formed (tb : Pre.tables) :
  (forall r, In r (fst (Pre.main tb)) -> Notions.emittedOk tb r)
  /\ (forall s, In s (snd (Pre.main tb)) -> Notions.located s).
Proof.
  pose proof (outputRoutes_ok tb) as Hok.
  split.
  - intros r Hr. exact (proj1 (Forall_forall _ _) Hok r Hr).
  - intros s Hs. unfold Pre.main in Hs. cbn [snd] in Hs.
    unfold Pre.allStopsOf in Hs. rewrite allStopsAcc_flat in Hs.
    apply stops_fold_from in Hs. destruct Hs as [[]|Hs].
    apply in_flat_map in Hs. destruct Hs as (r & Hr & Hs).
    apply in_flat_map in Hs. destruct Hs as (sh & Hsh & Hs).
    pose proof (proj1 (Forall_forall _ _) Hok r Hr) as (_ & _ & Hwf & _).
    pose proof (proj1 (Forall_forall _ _) Hwf sh Hsh) as [_ Hloc].
    exact (proj1 (Forall_forall _ _) Hloc s Hs).
Qed.

Lemma emitted_routes_are_well_formed_witness :
  In (hd (Sample.routeOf []) (fst (Pre.main Sample.feedOneStop)))
     (fst (Pre.main Sample.feedOneStop))
  /\ Notions.emittedOk Sample.feedOneStop
       (hd (Sample.routeOf []) (fst (Pre.main Sample.feedOneStop))).
Proof.
  assert (H : In (hd (Sample.routeOf []) (fst (Pre.main Sample.feedOneStop)))
                 (fst (Pre.main Sample.feedOneStop))).
  { vm_compute. left. reflexivity. }
  split; [exact H|].
  exact (proj1 (emitted_routes_are_well_formed Sample.feedOneStop) _ H).
Defined.

(** ** Reading the tables *)

Section CsvFacts.

Import Csv.

Lemma allSpaces_cons (a : ascii) (s1 : string) :
  allSpaces (String a s1)
  = if isSpace a then allSpaces s1
    else match s1 with
         | String b s2 =>
             if space2 a b then allSpaces s2
             else match s2 with
                  | String c s3 => if space3 a b c then allSpaces s3 else false
                  | EmptyString => false
                  end
         | EmptyString => false
         end.
Proof. reflexivity. Qed.

Lemma dropSpacesStart_cons (a : ascii) (s1 : string) :
  dropSpacesStart (String a s1)
  = if isSpace a then dropSpacesStart s1
    else match s1 with
         | String b s2 =>
             if space2 a b then dropSpacesStart s2
             else match s2 with
                  | String c s3 =>
                      if space3 a b c then dropSpacesStart s3 else String a s1
                  | EmptyString => String a s1
                  end
         | EmptyString => String a s1
         end.
Proof. reflexivity. Qed.

Lemma allSpaces_dropSpacesStart (s : string) :
  allSpaces (dropSpacesStart s) = allSpaces s.
Proof.
  assert (H : forall n s, (String.length s <= n)%nat ->
                          allSpaces (dropSpacesStart s) = allSpaces s).
  { clear s. induction n as [|n IH]; intros s Hn.
    - destruct s; [reflexivity|cbn in Hn; lia].
    - destruct s as [|a s1]; [reflexivity|].
      cbn [String.length] in Hn.
      rewrite dropSpacesStart_cons, (allSpaces_cons a s1).
      destruct (isSpace a) eqn:Ea; [apply IH; lia|].
      destruct s1 as [|b s2]; [rewrite allSpaces_cons, Ea; reflexivity|].
      cbn [String.length] in Hn.
      destruct (space2 a b) eqn:E2; [apply IH; lia|].
      destruct s2 as [|c s3];
        [rewrite allSpaces_cons, Ea, E2; reflexivity|].
      cbn [String.length] in Hn.
      destruct (space3 a b c) eqn:E3; [apply IH; lia|].
      rewrite allSpaces_cons, Ea, E2, E3. reflexivity. }
  exact (H (String.length s) s (Nat.le_refl _)).
Qed.

Lemma dropSpacesEnd_empty (s : string) :
  dropSpacesEnd s = EmptyString <-> allSpaces s = true.
Proof.
  destruct s as [|c s]; [split; reflexivity|].
  unfold dropSpacesEnd; fold dropSpacesEnd.
  destruct (allSpaces (String c s)); split; try reflexivity; discriminate.
Qed.

Lemma notBlank_allSpaces (l : string) : notBlank l = negb (allSpaces l).
Proof.
  unfold notBlank, trim. rewrite <- (allSpaces_dropSpacesStart l).
  destruct (dropSpacesEnd (dropSpacesStart l)) eqn:E.
  - apply dropSpacesEnd_empty in E. rewrite E. reflexivity.
  - destruct (allSpaces (dropSpacesStart l)) eqn:F; [|reflexivity].
    apply dropSpacesEnd_empty in F. congruence.
Qed.

(** The bytes of a white space of several bytes are not ASCII white space. *)
Lemma byteIs_not_space (c : ascii) (n : nat) :
  (127 < n)%nat -> byteIs c n = true -> isSpace c = false.
Proof.
  unfold byteIs, isSpace. intros Hn H. apply Nat.eqb_eq in H. rewrite H.
  repeat (apply orb_false_iff; split); apply Nat.eqb_neq; lia.
Qed.

Lemma space2_second (a b : ascii) : space2 a b = true -> isSpace b = false.
Proof.
  unfold space2. intro H. apply andb_true_iff in H. destruct H as [_ H].
  apply (byteIs_not_space b 160); [lia|exact H].
Qed.

Lemma space3_second (a b c : ascii) : space3 a b c = true -> isSpace b = false.
Proof.
  unfold space3. intro H.
  repeat (apply orb_true_iff in H; destruct H as [H|H]);
    repeat match goal with
           | K : _ && _ = true |- _ => apply andb_true_iff in K; destruct K
           end;
    first [ apply (byteIs_not_space b 154); [lia|assumption]
          | apply (byteIs_not_space b 128); [lia|assumption]
          | apply (byteIs_not_space b 129); [lia|assumption]
          | apply (byteIs_not_space b 187); [lia|assumption] ].
Qed.

Lemma space3_third (a b c : ascii) : space3 a b c = true -> isSpace c = false.
Proof.
  unfold space3, isSpace, byteIs. intro H.
  repeat (apply orb_false_iff; split); apply Nat.eqb_neq; intro Hc;
    rewrite Hc in H; cbn in H;
    rewrite ?andb_false_r in H; cbn in H; discriminate H.
Qed.

(** White space on both sides of an ASCII white space. *)
Lemma allSpaces_around (c : ascii) (w rest : string) :
  isSpace c = true ->
  allSpaces (w ++ String c rest) = allSpaces w && allSpaces rest.
Proof.
  intro Hc.
  assert (H : forall n w, (String.length w <= n)%nat ->
                          allSpaces (w ++ String c rest)
                          = allSpaces w && allSpaces rest).
  { clear w. induction n as [|n IH]; intros w Hn.
    - destruct w; [|cbn in Hn; lia].
      cbn [String.append]. rewrite allSpaces_cons, Hc. reflexivity.
    - destruct w as [|a w1].
      { cbn [String.append]. rewrite allSpaces_cons, Hc. reflexivity. }
      cbn [String.length] in Hn. cbn [String.append].
      rewrite allSpaces_cons, (allSpaces_cons a w1).
      destruct (isSpace a) eqn:Ea; [apply IH; lia|].
      destruct w1 as [|b w2].
      { cbn [String.append].
        destruct (space2 a c) eqn:E2;
          [apply space2_second in E2; congruence|].
        destruct rest as [|d rest']; [reflexivity|].
        destruct (space3 a c d) eqn:E3; [|reflexivity].
        apply space3_second in E3. congruence. }
      cbn [String.length] in Hn. cbn [String.append].
      destruct (space2 a b) eqn:E2; [apply IH; lia|].
      destruct w2 as [|d w3].
      { cbn [String.append].
        destruct (space3 a b c) eqn:E3; [|reflexivity].
        apply space3_third in E3. congruence. }
      cbn [String.length] in Hn. cbn [String.append].
      destruct (space3 a b d) eqn:E3; [apply IH; lia|reflexivity]. }
  exact (H (String.length w) w (Nat.le_refl _)).
Qed.

Lemma string_length_append (a b : string) :
  String.length (a ++ b) = (String.length a + String.length b)%nat.
Proof.
  induction a as [|c a IH]; cbn [String.append String.length]; [reflexivity|].
  rewrite IH. reflexivity.
Qed.

(** A text has no [c], or a first one. *)
Lemma first_separator (c : ascii) (s : string) :
  Notions.hasChar c s = false
  \/ exists w rest, s = (w ++ String c rest)%string
                    /\ Notions.hasChar c w = false.
Proof.
  induction s as [|a s IH]; [left; reflexivity|].
  cbn [Notions.hasChar]. destruct (Ascii.eqb a c) eqn:E.
  - right. apply Ascii.eqb_eq in E. subst a.
    exists EmptyString, s. split; reflexivity.
  - destruct IH as [IH|(w & rest & -> & Hw)]; [left; exact IH|].
    right. exists (String a w), rest. split; [reflexivity|].
    cbn [Notions.hasChar]. rewrite E. exact Hw.
Qed.

Lemma allSpaces_splitOn (c : ascii) (s : string) :
  isSpace c = true -> forallb allSpaces (splitOn c s) = allSpaces s.
Proof.
  intro Hc.
  assert (H : forall n s, (String.length s <= n)%nat ->
                          forallb allSpaces (splitOn c s) = allSpaces s).
  { clear s. induction n as [|n IH]; intros s Hn.
    - destruct s; [reflexivity|cbn in Hn; lia].
    - destruct (first_separator c s) as [Hno|(w & rest & -> & Hw)].
      + rewrite (splitOn_none c s Hno). cbn [forallb].
        apply andb_true_r.
      + rewrite (splitOn_first c w rest Hw). cbn [forallb].
        rewrite IH.
        * symmetry. apply allSpaces_around. exact Hc.
        * rewrite string_length_append in Hn. cbn [String.length] in Hn. lia. }
  exact (H (String.length s) s (Nat.le_refl _)).
Qed.

Lemma filter_notBlank_nil (ls : list string) :
  filter notBlank ls = [] <-> forallb allSpaces ls = true.
Proof.
  induction ls as [|l ls IH]; cbn [filter forallb]; [split; reflexivity|].
  rewrite notBlank_allSpaces. destruct (allSpaces l); cbn [negb andb].
  - exact IH.
  - split; discriminate.
Qed.

Lemma isSpace_newline : isSpace "010" = true.
Proof. reflexivity. Qed.

Lemma find_rev_last {A : Type} (f : A -> bool) (l : list A) (i : nat) (x : A) :
  nth_error l i = Some x ->
  f x = true ->
  (forall j y, (i < j)%nat -> nth_error l j = Some y -> f y = false) ->
  find f (rev l) = Some x.
Proof.
  intros Hi Hx Hlast.
  destruct (nth_error_split l i Hi) as (l1 & l2 & -> & Hlen).
  rewrite rev_app_distr. cbn [rev]. rewrite <- app_assoc, find_app.
  assert (Hnone : find f (rev l2) = None).
  { destruct (find f (rev l2)) as [y|] eqn:E; [|reflexivity].
    apply find_some in E. destruct E as [Hin Hy].
    apply in_rev in Hin. apply In_nth_error in Hin. destruct Hin as [k Hk].
    rewrite (Hlast (i + S k)%nat y) in Hy; [discriminate|lia|].
    rewrite nth_error_app2 by lia.
    replace (i + S k - List.length l1)%nat with (S k) by lia. exact Hk. }
  rewrite Hnone. cbn [app find]. rewrite Hx. reflexivity.
Qed.

Lemma nth_error_combine_seq {A : Type} (l : list A) :
  forall a i,
    nth_error (combine l (List.seq a (List.length l))) i
    = option_map (fun h => (h, (a + i)%nat)) (nth_error l i).
Proof.
  induction l as [|h l IH]; intros a i; cbn [List.length List.seq combine].
  - destruct i; reflexivity.
  - destruct i as [|i]; cbn [nth_error option_map].
    + rewrite Nat.add_0_r. reflexivity.
    + rewrite IH. destruct (nth_error l i); cbn [option_map]; [|reflexivity].
      f_equal. f_equal. lia.
Qed.

(** What a row holds under a column name. *)
Lemma rowOf_column (hdr : list string) (line : string) (i : nat) (h : string) :
  nth_error hdr i = Some h ->
  (forall j h', (i < j)%nat -> nth_error hdr j = Some h' -> h' <> h) ->
  Pre.sget (rowOf hdr line) h
  = Some (trim (nth i (splitOn "," line) EmptyString)).
Proof.
  intros Hi Hlast. unfold rowOf.
  rewrite (sget_fold_sset fst
             (fun hi => trim (nth (snd hi) (splitOn "," line) EmptyString))).
  rewrite (find_rev_last _ _ i (h, i)).
  - reflexivity.
  - rewrite nth_error_combine_seq, Hi. reflexivity.
  - cbn [fst]. apply String.eqb_refl.
  - intros j [h' k] Hj Hnth. rewrite nth_error_combine_seq in Hnth.
    destruct (nth_error hdr j) as [h''|] eqn:E; [|discriminate].
    cbn [option_map] in Hnth. injection Hnth as <- <-. cbn [fst].
    apply String.eqb_neq. intro Heq. exact (Hlast j h'' Hj E (eq_sym Heq)).
Qed.

Lemma rowOf_other (hdr : list string) (line : string) (name : string) :
  ~ In name hdr -> Pre.sget (rowOf hdr line) name = None.
Proof.
  intro Hnot. unfold rowOf.
  rewrite (sget_fold_sset fst
             (fun hi => trim (nth (snd hi) (splitOn "," line) EmptyString))).
  destruct (find _ _) as [[h k]|] eqn:E; [|reflexivity].
  apply find_some in E. destruct E as [Hin Heq]. cbn [fst] in Heq.
  apply String.eqb_eq in Heq. subst h. apply in_rev in Hin.
  apply in_combine_l in Hin. contradiction.
Qed.

End CsvFacts.

(** X17. [parseCSV] throws exactly on a text that is white space only, in
    the sense of [trim] (the byte order mark and the no-break space
    included): it has no line to read the header from. White space between
    two line ends, blank lines included, changes nothing of the result. *)
Theorem parseCSV_skips_blank_lines (a blank b : string) :
  Csv.allSpaces blank = true ->
  (forall text, Csv.parseCSV text = None <-> Csv.allSpaces text = true)
  /\ Csv.parseCSV (a ++ String "010" (blank ++ String "010" b))
     = Csv.parseCSV (a ++ String "010" b).
Proof.
  intro Hblank. split.
  - intro text. unfold Csv.parseCSV.
    rewrite <- (allSpaces_splitOn "010" text isSpace_newline).
    rewrite <- filter_notBlank_nil.
    destruct (filter Csv.notBlank (splitOn "010" text));
      split; try reflexivity; discriminate.
  - unfold Csv.parseCSV. rewrite !splitOn_app, !filter_app.
    assert (H : filter Csv.notBlank (splitOn "010" blank) = []).
    { apply filter_notBlank_nil.
      rewrite (allSpaces_splitOn "010" blank isSpace_newline). exact Hblank. }
    rewrite H. reflexivity.
Qed.

Lemma parseCSV_skips_blank_lines_witness :
  Csv.allSpaces Sample.blankText = true
  /\ Csv.parseCSV Sample.blankText = None
  /\ Csv.parseCSV ("id" ++ String "010" (Sample.blankText ++ String "010" "7"))
     = Csv.parseCSV ("id" ++ String "010" "7").
Proof.
  assert (H : Csv.allSpaces Sample.blankText = true) by reflexivity.
  split; [exact H|].
  destruct (parseCSV_skips_blank_lines "id" Sample.blankText "7" H) as [Hiff Heq].
  split; [apply Hiff; exact H|exact Heq].
Defined.

(** X18. On a text whose lines that are not blank are [first :: rest],
    [parseCSV] gives one row per line of [rest], in order. A row holds, under
    each column name of the header (trimmed), the trimmed field of the line
    at the position of that column, or the empty text when the line has no
    such field; fields beyond the header are dropped; when a name is
    repeated in the header the last column of that name counts; a name that
    is not in the header is absent from the row. *)
Theorem parseCSV_rows_follow_the_header (text first : string)
        (rest : list string) :
  filter Csv.notBlank (splitOn "010" text) = first :: rest ->
  let hdr := map Csv.trim (splitOn "," first) in
  exists rows,
    Csv.parseCSV text = Some rows
    /\ List.length rows = List.length rest
    /\ forall k line,
        nth_error rest k = Some line ->
        exists row,
          nth_error rows k = Some row
          /\ (forall i h,
                 nth_error hdr i = Some h ->
                 (forall j h', (i < j)%nat -> nth_error hdr j = Some h' ->
                               h' <> h) ->
                 Pre.sget row h
                 = Some (Csv.trim (nth i (splitOn "," line) EmptyString)))
          /\ (forall name, ~ In name hdr -> Pre.sget row name = None).
Proof.
  intros Hlines hdr. unfold Csv.parseCSV. rewrite Hlines.
  exists (map (Csv.rowOf hdr) rest). split; [reflexivity|].
  split; [apply length_map|].
  intros k line Hk. exists (Csv.rowOf hdr line). split.
  - rewrite nth_error_map, Hk. reflexivity.
  - split.
    + intros i h Hi Hlast. exact (rowOf_column hdr line i h Hi Hlast).
    + intros name Hnot. exact (rowOf_other hdr line name Hnot).
Qed.

(** The header after a byte order mark still names its first column [id]. *)
Lemma parseCSV_rows_follow_the_header_witness :
  filter Csv.notBlank (splitOn "010" Sample.csvText)
  = Sample.csvHeader :: ["1, Sol ,x"%string; "2"%string]
  /\ exists rows row,
      Csv.parseCSV Sample.csvText = Some rows
      /\ List.length rows = 2%nat
      /\ nth_error rows 0 = Some row
      /\ Pre.sget row "id" = Some "1"%string
      /\ Pre.sget row "name" = Some "Sol"%string.
Proof.
  assert (H : filter Csv.notBlank (splitOn "010" Sample.csvText)
              = Sample.csvHeader :: ["1, Sol ,x"%string; "2"%string])
    by reflexivity.
  split; [exact H|].
  destruct (parseCSV_rows_follow_the_header _ _ _ H) as (rows & Hp & Hlen & Hrows).
  destruct (Hrows 0%nat "1, Sol ,x"%string eq_refl) as (row & Hrow & Hcol & _).
  exists rows, row. repeat split; try assumption.
  - apply (Hcol 0%nat "id"%string eq_refl).
    intros j h' Hj Hn.
    change (map Csv.trim (splitOn "," Sample.csvHeader))
      with ["id"%string; "name"%string] in Hn.
    destruct j as [|[|[|j]]]; [lia| |discriminate Hn|discriminate Hn].
    injection Hn as <-. discriminate.
  - apply (Hcol 1%nat "name"%string eq_refl).
    intros j h' Hj Hn.
    change (map Csv.trim (splitOn "," Sample.csvHeader))
      with ["id"%string; "name"%string] in Hn.
    destruct j as [|[|[|j]]]; [lia|lia|discriminate Hn|discriminate Hn].
Defined.

(** ** Redrawing the pellets, and the colours *)

(** X19. The pellets are redrawn on the frames whose clock reading is less
    than 8 ms away from a multiple of 192 ms (the lower end included): a
    window of 16 ms, about one frame at 60 Hz, every 192 ms. *)
Theorem pellets_redraw_near_multiples_of_192 (now : Q) :
  Pellets.redraws now = true
  <-> exists k : Z,
        inject_Z (192 * k) - 8 <= now /\ now < inject_Z (192 * k) + 8.
Proof.
  unfold Pellets.redraws. rewrite Z.eqb_eq.
  set (x := now / 16 + (1 # 2)).
  assert (Hx : x * 16 == now + 8) by (unfold x; field).
  pose proof (Qfloor_le x) as Hlo. pose proof (Qlt_floor x) as Hhi.
  split.
  - intro Hrem. exists (Z.quot (Qfloor x) 12).
    pose proof (Z.quot_rem' (Qfloor x) 12) as Hq. rewrite Hrem in Hq.
    replace (192 * Z.quot (Qfloor x) 12)%Z with (16 * Qfloor x)%Z by lia.
    rewrite inject_Z_plus in Hhi. rewrite inject_Z_mult.
    change (inject_Z 16) with 16. change (inject_Z 1) with 1 in Hhi.
    lra.
  - intros (k & Hk1 & Hk2).
    assert (Hf : Qfloor x = (12 * k)%Z).
    { apply Qfloor_unique.
      - replace (192 * k)%Z with (16 * (12 * k))%Z in Hk1 by lia.
        rewrite inject_Z_mult in Hk1. change (inject_Z 16) with 16 in Hk1.
        lra.
      - replace (192 * k)%Z with (16 * (12 * k))%Z in Hk2 by lia.
        rewrite inject_Z_mult in Hk2. rewrite inject_Z_plus.
        change (inject_Z 16) with 16 in Hk2. change (inject_Z 1) with 1.
        lra. }
    rewrite Hf, Z.mul_comm. apply Z.rem_mul. discriminate.
Qed.

(** X20. The fallback colour of a route depends on its index modulo 12 only,
    and two routes get the same fallback colour only when their indices
    agree modulo 12: the palette has no colour twice. The colour is always
    one of the palette. *)
Theorem routeColor_repeats_every_twelve (i j : nat) :
  (Tick.routeColor i = Tick.routeColor j <-> i mod 12 = j mod 12)
  /\ In (Tick.routeColor i) Tick.ROUTE_PALETTE.
Proof.
  unfold Tick.routeColor.
  change (List.length Tick.ROUTE_PALETTE) with 12%nat.
  pose proof (Nat.mod_upper_bound i 12 ltac:(discriminate)) as Ha.
  pose proof (Nat.mod_upper_bound j 12 ltac:(discriminate)) as Hb.
  split.
  - split; [|intros ->; reflexivity].
    generalize dependent (j mod 12). generalize dependent (i mod 12).
    intros a Ha b Hb.
    do 12 (destruct a as [|a];
           [do 12 (destruct b as [|b];
                   [cbn; intro H; first [reflexivity|discriminate H]|]); lia|]).
    lia.
  - apply nth_In. exact Ha.
Qed.

(** ** Emitted routes in the viewer *)

Section Viewer.

Import Pre PreSpec Notions.

Lemma outputRoutes_coloured (tb : tables) :
  Forall (fun r => (exists c, Route.color r = String "#" c)
                   /\ Route.frequencies r <> None)
         (outputRoutesOf tb).
Proof.
  unfold outputRoutesOf.
  set (step := routeStep _ _ _ _ _).
  set (P := fun r => (exists c, Route.color r = String "#" c)
                     /\ Route.frequencies r <> None).
  assert (H : forall rows acc, Forall P acc -> Forall P (fold_left step rows acc)).
  { induction rows as [|row rows IH]; intros acc Hacc; cbn [fold_left];
      [exact Hacc|].
    apply IH. unfold step, routeStep.
    destruct (sget _ (RouteRow.route_id row)) as [trips|]; [|exact Hacc].
    destruct (fold_left _ (values trips) []) as [|sh0 shs]; [exact Hacc|].
    apply Forall_app. split; [exact Hacc|]. constructor; [|constructor].
    unfold P. cbn [Route.color Route.frequencies]. split; [|discriminate].
    destruct (RouteRow.route_color row) as [|a c'].
    - exists "0178BC"%string. reflexivity.
    - exists (String a c'). reflexivity. }
  apply H. constructor.
Qed.

Lemma stops_of_routes (routes : list Route.t) (s : Stop.t) :
  In s (allStopsOf routes) ->
  exists r, In r routes /\ serves r (Stop.id s).
Proof.
  intro Hs. unfold allStopsOf in Hs. rewrite allStopsAcc_flat in Hs.
  apply stops_fold_from in Hs. destruct Hs as [[]|Hs].
  apply in_flat_map in Hs. destruct Hs as (r & Hr & Hs).
  apply in_flat_map in Hs. destruct Hs as (sh & Hsh & Hs).
  exists r. split; [exact Hr|]. exists sh, s. repeat split; assumption.
Qed.

Lemma fold_left_pairs {A B C : Type} (f : B -> A -> C -> A) (b : B)
      (l : list C) :
  forall a, fold_left (f b) l a
            = fold_left (fun acc bc => f (fst bc) acc (snd bc))
                        (map (pair b) l) a.
Proof.
  induction l as [|c l IH]; intro a; cbn [fold_left map]; [reflexivity|].
  apply IH.
Qed.

Lemma stopRoutesOf_flat (routes : list Route.t) :
  Popup.stopRoutesOf routes
  = fold_left (fun acc ns => Popup.addStop (fst ns) acc (snd ns))
      (flat_map (fun r => flat_map (fun sh => map (pair (Route.shortName r))
                                                  (Shape.stops sh))
                                   (Route.shapes r)) routes) [].
Proof.
  unfold Popup.stopRoutesOf. generalize (@nil (string * list string)).
  induction routes as [|r rs IH]; intro acc; cbn [fold_left flat_map];
    [reflexivity|].
  rewrite fold_left_app, IH. f_equal.
  generalize acc. induction (Route.shapes r) as [|sh shs IHs]; intro a;
    cbn [fold_left flat_map]; [reflexivity|].
  rewrite fold_left_app, IHs. f_equal.
  apply (fold_left_pairs Popup.addStop).
Qed.

Lemma namesAt_addStop (o : strObj (list string)) (n : string) (s : Stop.t)
      (k : string) :
  Popup.namesAt (Popup.addStop n o s) k
  = if String.eqb k (Stop.id s) then setAdd (Popup.namesAt o k) n
    else Popup.namesAt o k.
Proof.
  unfold Popup.namesAt, Popup.addStop. rewrite sget_sset.
  destruct (String.eqb k (Stop.id s)) eqn:E; [|reflexivity].
  apply String.eqb_eq in E. subst k. reflexivity.
Qed.

Lemma namesAt_fold (pairs : list (string * Stop.t)) (k : string) :
  forall o,
    let res := fold_left (fun acc ns => Popup.addStop (fst ns) acc (snd ns))
                         pairs o in
    (forall n, In n (Popup.namesAt res k)
               <-> In n (Popup.namesAt o k)
                   \/ exists s, In (n, s) pairs /\ Stop.id s = k)
    /\ (NoDup (Popup.namesAt o k) -> NoDup (Popup.namesAt res k)).
Proof.
  induction pairs as [|[n' s'] pairs IH]; intro o; cbn [fold_left fst snd].
  - split; [|intro H; exact H]. intro n. split; [intro H; left; exact H|].
    intros [H|(s & [] & _)]. exact H.
  - destruct (IH (Popup.addStop n' o s')) as [Hin Hnd]. split.
    + intro n. rewrite Hin, namesAt_addStop.
      destruct (String.eqb k (Stop.id s')) eqn:E.
      * apply String.eqb_eq in E. rewrite In_setAdd. split.
        -- intros [[H| ->]|(s & Hs & Hk)].
           ++ left. exact H.
           ++ right. exists s'. split; [left; reflexivity|symmetry; exact E].
           ++ right. exists s. split; [right; exact Hs|exact Hk].
        -- intros [H|(s & [Heq|Hs] & Hk)].
           ++ left. left. exact H.
           ++ injection Heq as -> ->. left. right. reflexivity.
           ++ right. exists s. split; assumption.
      * apply String.eqb_neq in E. split.
        -- intros [H|(s & Hs & Hk)]; [left; exact H|].
           right. exists s. split; [right; exact Hs|exact Hk].
        -- intros [H|(s & [Heq|Hs] & Hk)].
           ++ left. exact H.
           ++ injection Heq as -> ->. congruence.
           ++ right. exists s. split; assumption.
    + intro H. apply Hnd. rewrite namesAt_addStop.
      destruct (String.eqb k (Stop.id s')); [apply NoDup_setAdd|]; exact H.
Qed.

Lemma namesAt_stopRoutes (routes : list Route.t) (sid n : string) :
  In n (Popup.namesAt (Popup.stopRoutesOf routes) sid)
  <-> exists r, In r routes /\ Route.shortName r = n /\ serves r sid.
Proof.
  rewrite stopRoutesOf_flat.
  destruct (namesAt_fold
              (flat_map (fun r => flat_map (fun sh => map (pair (Route.shortName r))
                                                          (Shape.stops sh))
                                           (Route.shapes r)) routes) sid [])
    as [Hin _].
  rewrite Hin. split.
  - intros [[]|(s & Hs & Hk)].
    apply in_flat_map in Hs. destruct Hs as (r & Hr & Hs).
    apply in_flat_map in Hs. destruct Hs as (sh & Hsh & Hs).
    apply in_map_iff in Hs. destruct Hs as (s0 & Heq & Hs0).
    injection Heq as <- ->. exists r. split; [exact Hr|].
    split; [reflexivity|]. exists sh, s. repeat split; assumption.
  - intros (r & Hr & Hn & sh & s & Hsh & Hs & Hk). right. exists s.
    split; [|exact Hk]. apply in_flat_map. exists r. split; [exact Hr|].
    apply in_flat_map. exists sh. split; [exact Hsh|].
    apply in_map_iff. exists s. split; [rewrite Hn; reflexivity|exact Hs].
Qed.

Lemma namesAt_NoDup (routes : list Route.t) (sid : string) :
  NoDup (Popup.namesAt (Popup.stopRoutesOf routes) sid).
Proof.
  rewrite stopRoutesOf_flat.
  destruct (namesAt_fold
              (flat_map (fun r => flat_map (fun sh => map (pair (Route.shortName r))
                                                          (Shape.stops sh))
                                           (Route.shapes r)) routes) sid [])
    as [_ Hnd].
  apply Hnd. constructor.
Qed.

End Viewer.

(** X21. A route of [routes.json] never meets the fallbacks of the viewer:
    its colour is a text that starts with [#] ([#0178BC] when the feed has
    none), so the palette is not used; its list of bands is present; and its
    first shape has two coordinates or more, so that whether the route is
    animated depends on the length turf.js measures only. *)
Theorem emitted_routes_need_no_fallback
        (turfLength : list coord -> option value) (tb : Pre.tables)
        (r : Route.t) :
  In r (fst (Pre.main tb)) ->
  (exists c, Route.color r = String "#" c)
  /\ Route.frequencies r <> None
  /\ exists sh0 rest,
      Route.shapes r = sh0 :: rest
      /\ Tick.routeGeo turfLength r
         = match turfLength (Shape.coordinates sh0) with
           | Some l => if JS.gt l (lit 0.05)
                       then Some (Tick.mkGeo (Shape.coordinates sh0) l)
                       else None
           | None => None
           end.
Proof.
  intro Hr. cbn [Pre.main fst] in Hr.
  pose proof (proj1 (Forall_forall _ _) (outputRoutes_coloured tb) r Hr)
    as [Hc Hf].
  pose proof (proj1 (Forall_forall _ _) (outputRoutes_ok tb) r Hr)
    as (_ & Hne & Hwf & _).
  split; [exact Hc|]. split; [exact Hf|].
  destruct (Route.shapes r) as [|sh0 rest] eqn:E; [contradiction|].
  exists sh0, rest. split; [reflexivity|].
  unfold Tick.routeGeo. rewrite E.
  apply Forall_inv in Hwf. destruct Hwf as [Hlen _].
  apply Nat.ltb_ge in Hlen. rewrite Hlen. reflexivity.
Qed.

Lemma emitted_routes_need_no_fallback_witness :
  In (hd (Sample.routeOf []) (fst (Pre.main Sample.feedOneStop)))
     (fst (Pre.main Sample.feedOneStop))
  /\ exists c,
      Route.color (hd (Sample.routeOf []) (fst (Pre.main Sample.feedOneStop)))
      = String "#" c.
Proof.
  assert (H : In (hd (Sample.routeOf []) (fst (Pre.main Sample.feedOneStop)))
                 (fst (Pre.main Sample.feedOneStop))).
  { vm_compute. left. reflexivity. }
  split; [exact H|].
  exact (proj1 (emitted_routes_need_no_fallback Sample.turfLength1km
                  Sample.feedOneStop _ H)).
Defined.

(** X22. The index behind the popup of a stop holds, under a stop id and
    without repetition, exactly the short names of the routes that have a
    shape with a stop of that id (the popup shows them sorted). With the two
    documents of the preprocessor, every stop of [stops.json] has at least
    one route there. *)
Theorem popup_lists_the_routes_of_a_stop (routes : list Route.t) (tb : Pre.tables) :
  (forall sid n,
      In n (Popup.namesAt (Popup.stopRoutesOf routes) sid)
      <-> exists r, In r routes /\ Route.shortName r = n
                    /\ Notions.serves r sid)
  /\ (forall sid, NoDup (Popup.namesAt (Popup.stopRoutesOf routes) sid))
  /\ (forall s, In s (snd (Pre.main tb)) ->
                Popup.namesAt (Popup.stopRoutesOf (fst (Pre.main tb)))
                              (Stop.id s) <> []).
Proof.
  split; [intros sid n; apply namesAt_stopRoutes|].
  split; [intro sid; apply namesAt_NoDup|].
  intros s Hs Hnil. cbn [Pre.main fst snd] in Hs, Hnil.
  apply stops_of_routes in Hs. destruct Hs as (r & Hr & Hserves).
  assert (H : In (Route.shortName r)
                 (Popup.namesAt (Popup.stopRoutesOf (Pre.outputRoutesOf tb))
                                (Stop.id s))).
  { apply namesAt_stopRoutes. exists r. repeat split; assumption. }
  rewrite Hnil in H. destruct H.
Qed.

(** ** The highlighted route *)

Section Highlight.

Import Tick Notions.

Variable point : Type.
Variable turfLength : list coord -> option value.
Variable turfAlong : list coord -> value -> option point.
Variable routes : list Route.t.
Variable sel : option Route.t.

Variable iconOf : Route.t -> string.
Hypothesis iconOf_sel :
  forall r, iconOf r
            = if match sel with
                 | Some s => String.eqb (Route.id r) (Route.id s)
                 | None => false
                 end
              then "pacman-hl"%string else "pacman"%string.

Lemma busStep_drawn (g : geo) (r : Route.t) (ri : nat) (fr : frame point)
      (ab : Engine.bus) :
  In r routes ->
  Forall (drawnWith routes iconOf) (features fr) ->
  Forall (drawnWith routes iconOf)
         (features (busStep point turfAlong g r ri sel fr ab)).
Proof.
  intros Hr Hinv. unfold busStep.
  destruct (turfAlong (line g) _) as [pt|]; [|exact Hinv].
  cbn [features]. apply Forall_app. split; [exact Hinv|].
  constructor; [|constructor]. exists r. cbn [fst snd].
  rewrite iconOf_sel. split; [exact Hr|]. destruct sel; repeat split.
Qed.

Lemma routesLoop_drawn (fuel : nat) (t : value) (rs : list Route.t) :
  incl rs routes ->
  forall ri fr fr',
    Forall (drawnWith routes iconOf) (features fr) ->
    routesLoop point turfLength turfAlong fuel rs ri sel t fr = Some fr' ->
    Forall (drawnWith routes iconOf) (features fr').
Proof.
  induction rs as [|r rs IH]; intros Hincl ri fr fr' Hinv; cbn [routesLoop].
  - intros [= <-]. exact Hinv.
  - destruct (routeFrame point turfAlong fuel (routeGeo turfLength r) r ri sel t fr)
      as [fr1|] eqn:E; [|discriminate].
    apply IH; [intros x Hx; apply Hincl; right; exact Hx|].
    unfold routeFrame in E. destruct (routeGeo turfLength r) as [g|];
      [|injection E as <-; exact Hinv].
    destruct (Engine.activeBuses fuel r t) as [abs|]; [|discriminate].
    injection E as <-. clear IH. revert fr Hinv.
    induction abs as [|ab abs IHa]; intros fr Hinv; cbn [fold_left];
      [exact Hinv|].
    apply IHa. apply busStep_drawn; [apply Hincl; left; reflexivity|exact Hinv].
Qed.

End Highlight.

(** X23. After a route is picked in the list, every vehicle of the next
    frames is drawn for a route of the list, with its short and long name,
    and with the highlighted icon exactly when its route has the id of the
    picked route and no route of that id was selected before; picking a
    route whose id is the selected one leaves no vehicle highlighted. *)
Theorem picked_route_is_highlighted
        (point : Type) (turfLength : list coord -> option value)
        (turfAlong : list coord -> value -> option point)
        (routes : list Route.t) (prev : option Route.t) (r0 : Route.t)
        (t : value) (fuel : nat) (fr : Tick.frame point) :
  Tick.computeFrame point turfLength turfAlong fuel routes
                    (Picker.pick prev r0) t = Some fr ->
  Forall (Notions.drawnWith routes
            (fun r => if negb (Picker.isSelectedId prev r0)
                         && String.eqb (Route.id r) (Route.id r0)
                      then "pacman-hl"%string else "pacman"%string))
         (Tick.features fr).
Proof.
  intro Hrun. unfold Tick.computeFrame in Hrun.
  apply (routesLoop_drawn point turfLength turfAlong routes
           (Picker.pick prev r0) _) with (fuel := fuel) (t := t) (rs := routes)
                                         (ri := 0%nat) (fr := Tick.mkFrame [] [] 0);
    [|apply incl_refl|constructor|exact Hrun].
  intro r. unfold Picker.pick.
  destruct (Picker.isSelectedId prev r0); reflexivity.
Qed.

Lemma picked_route_is_highlighted_witness :
  exists fr,
    Tick.computeFrame coord Sample.turfLength1km Sample.turfAlongStart 7
                      [Sample.shortRoute] (Picker.pick None Sample.shortRoute)
                      (lit 29100) = Some fr
    /\ Forall (Notions.drawnWith [Sample.shortRoute]
                 (fun r => if negb (Picker.isSelectedId None Sample.shortRoute)
                              && String.eqb (Route.id r) (Route.id Sample.shortRoute)
                           then "pacman-hl"%string else "pacman"%string))
              (Tick.features fr).
Proof.
  eexists. split; [vm_compute; reflexivity|].
  apply (picked_route_is_highlighted coord Sample.turfLength1km
           Sample.turfAlongStart [Sample.shortRoute] None Sample.shortRoute
           (lit 29100) 7%nat).
  vm_compute. reflexivity.
Defined.
